(** * cngi.conversion.convert_image: a shallow embedding and its properties

    The development follows [src/cngi/conversion/convert_image.py].  The
    function is one long procedure; it is cut here into the phases its own
    comments announce (path handling, discovery of the image artifacts and
    their metadata, the loop over channel batches), each phase keeping the
    names of the Python variables it manipulates.

    Conventions of the embedding:
    - Python exceptions are values of [pyerr]; a computation that may raise
      returns [res A];
    - a [dict] keyed by strings is a [gmap string _]; lists stay lists;
    - a [str] is the sequence of its code points, each below 256: the
      methods of [str] are modelled on that range;
    - what the shell command of line 73 does to the file system is left
      open: the conversion is defined, and its properties are proved, for
      every behaviour of that command;
    - pixel and world-coordinate values, floats in the source, are exact
      integers here: no property below depends on rounding;
    - numpy arrays are a shape and the row-major list of their elements;
    - the libraries the function calls (casatools, numpy, pandas, xarray and
      its zarr backend) are modelled as far as the function uses them, each
      definition naming the call it stands for. *)

From Stdlib Require Import ZArith Ascii String List Lia Bool DecimalString.
From stdpp Require Import gmap strings list fin_maps.

Set Warnings "-register-all".

Local Open Scope string_scope.
Local Open Scope list_scope.
Local Open Scope Z_scope.

(** ** Exceptions *)

Inductive pyerr : Type :=
  | KeyError | IndexError | ValueError | TypeError | AttributeError
  | RuntimeError | IOError.

Definition res (A : Type) : Type := pyerr + A.

Definition ok {A} (a : A) : res A := inr a.
Definition raise {A} (e : pyerr) : res A := inl e.

Definition rbind {A B} (m : res A) (k : A → res B) : res B :=
  match m with
  | inl e => inl e
  | inr a => k a
  end.

Notation "'let*' p := m 'in' k" := (rbind m (fun p => k))
  (at level 10, p pattern, m at level 100, k at level 200, only parsing).

(** [seq[i]] on a Python list: an index out of range raises. *)
Definition getitem {A} (l : list A) (i : nat) : res A :=
  match l !! i with
  | Some a => ok a
  | None => raise IndexError
  end.

(** [[f(x) for x in l]] where [f] may raise: the first exception wins. *)
Fixpoint rmap {A B} (f : A → res B) (l : list A) : res (list B) :=
  match l with
  | [] => ok []
  | a :: l' => let* b := f a in let* bs := rmap f l' in ok (b :: bs)
  end.

(** ** Python string methods *)

Module PyStr.

(** The code points below 256 that have a lower-case form: the letters
    [A] to [Z] and the capital letters 192 to 222 of Latin-1, the
    multiplication sign 215 excepted.  The lower-case form is 32 further. *)
Definition is_upper (c : ascii) : bool :=
  let n := nat_of_ascii c in
  ((65 <=? n)%nat && (n <=? 90)%nat)
  || ((192 <=? n)%nat && (n <=? 222)%nat && negb (n =? 215)%nat).

Definition lower_char (c : ascii) : ascii :=
  if is_upper c then ascii_of_nat (nat_of_ascii c + 32) else c.

(** [s.lower()] *)
Fixpoint lower (s : string) : string :=
  match s with
  | EmptyString => EmptyString
  | String c r => String (lower_char c) (lower r)
  end.

(** whitespace as [str.strip()] understands it ([str.isspace]): of the
    code points below 256, the space, the controls 9 to 13 and 28 to 31,
    the next-line control 133 and the no-break space 160 *)
Definition is_space (c : ascii) : bool :=
  let n := nat_of_ascii c in
  (n =? 32)%nat || ((9 <=? n)%nat && (n <=? 13)%nat)
  || ((28 <=? n)%nat && (n <=? 31)%nat) || (n =? 133)%nat || (n =? 160)%nat.

Fixpoint lstrip (s : string) : string :=
  match s with
  | EmptyString => EmptyString
  | String c r => if is_space c then lstrip r else s
  end.

Fixpoint rstrip (s : string) : string :=
  match s with
  | EmptyString => EmptyString
  | String c r =>
      match rstrip r with
      | EmptyString => if is_space c then EmptyString else String c EmptyString
      | r' => String c r'
      end
  end.

(** [s.strip()] *)
Definition strip (s : string) : string := rstrip (lstrip s).

(** [s.split(sep)] for a one-character separator: always at least one
    field, empty fields kept. *)
Fixpoint split (sep : ascii) (s : string) : list string :=
  match s with
  | EmptyString => [EmptyString]
  | String c r =>
      if Ascii.eqb c sep then EmptyString :: split sep r
      else match split sep r with
           | f :: fs => String c f :: fs
           | [] => [String c EmptyString]
           end
  end.

(** [s.startswith(p)] *)
Fixpoint startswith (p s : string) : bool :=
  match p, s with
  | EmptyString, _ => true
  | String a p', String b s' => Ascii.eqb a b && startswith p' s'
  | String _ _, EmptyString => false
  end.

(** [p in s] *)
Fixpoint contains (p s : string) : bool :=
  startswith p s ||
  match s with
  | EmptyString => false
  | String _ r => contains p r
  end.

(** [s.replace(old, new)] for a non-empty [old]: occurrences are replaced
    left to right without overlap; [skip] counts the characters of an
    occurrence still to be passed over. *)
Fixpoint replace_go (old new : string) (skip : nat) (s : string) : string :=
  match s with
  | EmptyString => EmptyString
  | String c r =>
      match skip with
      | S k => replace_go old new k r
      | O =>
          if startswith old s
          then new +:+ replace_go old new (String.length old - 1) r
          else String c (replace_go old new 0 r)
      end
  end.

Definition replace (old new s : string) : string := replace_go old new 0 s.

(** [s.endswith(p)] *)
Definition endswith (p s : string) : bool :=
  let n := String.length s in let k := String.length p in
  (k <=? n)%nat && String.eqb (String.substring (n - k) k s) p.

(** [s.rindex(c)] for a character: the last position of [c], [ValueError]
    when there is none. *)
Fixpoint rfind (c : ascii) (s : string) : option nat :=
  match s with
  | EmptyString => None
  | String a r =>
      match rfind c r with
      | Some i => Some (S i)
      | None => if Ascii.eqb a c then Some O else None
      end
  end.

Definition rindex (c : ascii) (s : string) : res nat :=
  match rfind c s with
  | Some i => ok i
  | None => raise ValueError
  end.

(** [s[:i]] and [s[i:]] *)
Definition upto (i : nat) (s : string) : string := String.substring 0 i s.
Definition from (i : nat) (s : string) : string :=
  String.substring i (String.length s - i) s.

End PyStr.

(** ** numpy arrays *)

Module Np.

Record ndarray (A : Type) : Type := mk_nd { shape : list nat; data : list A }.
Arguments mk_nd {A} _ _.
Arguments shape {A} _.
Arguments data {A} _.

Definition ndim {A} (a : ndarray A) : nat := length (shape a).

(** number of elements of an array of the given shape *)
Definition size (sh : list nat) : nat := foldr Nat.mul 1%nat sh.

(** [np.mgrid] over [range(n)] for every [n] of [sizes], reshaped to one
    column per grid point: all multi-indices, the last axis running
    fastest. *)
Fixpoint mgrid (sizes : list nat) : list (list nat) :=
  match sizes with
  | [] => [[]]
  | n :: r => flat_map (fun i => map (cons i) (mgrid r)) (seq 0 n)
  end.

(** position of a multi-index in the row-major data *)
Fixpoint ravel (sh idx : list nat) : nat :=
  match sh, idx with
  | _ :: sh', i :: idx' => (i * size sh' + ravel sh' idx')%nat
  | _, _ => O
  end.

Definition get {A} (a : ndarray A) (idx : list nat) : option A :=
  data a !! ravel (shape a) idx.

(** the array of shape [sh] whose element at [idx] is [f idx] *)
Definition build {A} (sh : list nat) (f : list nat → A) : ndarray A :=
  mk_nd sh (map f (mgrid sh)).

(** as [build], for a partial [f] *)
Definition build_opt {A} (sh : list nat) (f : list nat → option A)
  : option (ndarray A) :=
  mk_nd sh <$> mapM f (mgrid sh).

Definition amap {A B} (f : A → B) (a : ndarray A) : ndarray B :=
  mk_nd (shape a) (map f (data a)).

(** [np.arange(n) + start] *)
Definition arange_from (start : Z) (n : nat) : ndarray Z :=
  mk_nd [n] (map (fun i => start + Z.of_nat i) (seq 0 n)).

(** [a[spi]] where every entry of the tuple [spi] is [slice(None)]
    ([true]) or [slice(1)] ([false]) *)
Definition take_slices {A} (spi : list bool) (a : ndarray A)
  : option (ndarray A) :=
  build_opt
    (zip_with (fun (full : bool) n => if full then n else Nat.min 1 n)
              spi (shape a))
    (get a).

(** [a[0]]: the first item along the first axis; a 0-d array and an empty
    first axis raise. *)
Definition item0 {A} (a : ndarray A) : res (ndarray A) :=
  match shape a with
  | [] => raise IndexError
  | O :: _ => raise IndexError
  | S _ :: sh' =>
      match build_opt sh' (fun idx => get a (O :: idx)) with
      | Some r => ok r
      | None => raise IndexError
      end
  end.

(** [a.reshape(sh)]: the element count must be kept *)
Definition reshape {A} (sh : list nat) (a : ndarray A) : res (ndarray A) :=
  if decide (size sh = length (data a)) then ok (mk_nd sh (data a))
  else raise ValueError.

(** concatenation of [a] and [b] along axis [k]; the other extents must
    agree *)
Definition concat_axis {A} (k : nat) (a b : ndarray A) : res (ndarray A) :=
  match shape a !! k, shape b !! k with
  | Some na, Some nb =>
      if decide (<[k:=O]> (shape a) = <[k:=O]> (shape b)) then
        match build_opt (<[k:=(na + nb)%nat]> (shape a))
                (fun idx =>
                   match idx !! k with
                   | Some i => if (i <? na)%nat then get a idx
                               else get b (<[k:=(i - na)%nat]> idx)
                   | None => None
                   end) with
        | Some r => ok r
        | None => raise ValueError
        end
      else raise ValueError
  | _, _ => raise ValueError
  end.

(** [a.transpose(perm)]: axis [j] of the result is axis [perm[j]] of [a] *)
Definition transpose {A} (perm : list nat) (a : ndarray A)
  : option (ndarray A) :=
  sh ← mapM (fun j => shape a !! j) perm;
  build_opt sh
    (fun idx =>
       old ← mapM (fun j => i ← list_find (fun p => p = j) perm; idx !! i.1)
                  (seq 0 (ndim a));
       get a old).

(** [np.any(a != b)] on two 1-d integer arrays.  Equal lengths compare
    element by element; a length-one operand is broadcast; otherwise the
    comparison as a whole is [True] (numpy of the time of the source
    answers so, with a deprecation warning). *)
Definition any_ne (a b : list nat) : bool :=
  if decide (length a = length b) then
    existsb (fun p => negb (Nat.eqb p.1 p.2)) (zip a b)
  else match a, b with
       | [x], _ => existsb (fun y => negb (Nat.eqb x y)) b
       | _, [y] => existsb (fun x => negb (Nat.eqb x y)) a
       | _, _ => true
       end.

End Np.

Import Np.

(** ** The legacy image reader (casatools) and the files on disk *)

(** Values met in an image summary and in the attributes derived from it. *)
Inductive sval : Type :=
  | SStr (s : string)
  | SInt (z : Z)
  | SList (l : list sval)
  | STuple (l : list sval)
  | SDict (d : list (string * sval)).

(** [IA.summary(list=False)]: the keys the conversion reads, typed, and the
    remaining keys of the dict in [others]. *)
Record summary : Type := mk_summary {
  axisnames : list string;
  axisunits : list string;
  sshape : list nat;
  masks : list string;
  messages : list string;
  others : list (string * sval)
}.

(** the summary as the dict it is: [summary.keys()] and [summary[kk]] *)
Definition summary_items (s : summary) : list (string * sval) :=
  [ ("axisnames", SList (SStr <$> axisnames s));
    ("axisunits", SList (SStr <$> axisunits s));
    ("shape", SList ((fun n => SInt (Z.of_nat n)) <$> sshape s));
    ("masks", SList (SStr <$> masks s));
    ("messages", SList (SStr <$> messages s)) ] ++ others s.

(** An image on disk: its summary, its coordinate system
    ([IA.coordsys().toworldmany] maps one pixel position, an index per axis,
    to one world position, a value per axis), its pixels and its validity
    mask, both addressed by pixel position. *)
Record image : Type := mk_image {
  im_summary : summary;
  toworld : list nat → list Z;
  pixel : list nat → Z;
  maskbit : list nat → bool
}.

(** [IA.shape()] *)
Definition ia_shape (im : image) : list nat := sshape (im_summary im).

(** A blosc compressor configuration. *)
Record blosc : Type := Blosc { cname : string; clevel : Z; shuffle : Z }.

(** xarray: a variable is named dimensions and data; a dataset is data
    variables, coordinates, attributes and the dask chunking. *)
Inductive vardata : Type :=
  | NumData (a : ndarray Z)
  | BoolData (a : ndarray bool).

Record variable : Type := mk_var { vdims : list string; vdata : vardata }.

Record dataset : Type := mk_ds {
  data_vars : gmap string variable;
  ds_coords : gmap string variable;
  ds_attrs : gmap string sval;
  ds_chunks : gmap string Z
}.

(** What a path of the file system holds. *)
Inductive node : Type :=
  | ImageNode (im : image)
  | ZarrNode (ds : dataset) (encoding : gmap string blosc)
  | OtherNode.

(** [os.path.exists] *)
Definition path_exists (fs : gmap string node) (p : string) : bool :=
  bool_decide (is_Some (fs !! p)).

(** [IA.open]: only an image opens. *)
Definition ia_open (fs : gmap string node) (p : string) : res image :=
  match fs !! p with
  | Some (ImageNode im) => ok im
  | _ => raise RuntimeError
  end.

(** [IA.getchunk(blc, trc)] hands the corners to the reader's box check,
    which replaces a corner that lies outside the image (so also the [-1]
    the conversion passes) by the first, respectively the last, pixel of the
    axis; both corners are inclusive. *)
Definition box_lo (n : nat) (b : Z) : nat :=
  if (b <? 0) || (Z.of_nat n - 1 <? b) then O else Z.to_nat b.

Definition box_hi (n : nat) (t : Z) : nat :=
  if (t <? 0) || (Z.of_nat n - 1 <? t) then (n - 1)%nat else Z.to_nat t.

Definition box_corner (pick : nat → Z → nat) (sh : list nat) (pt : list Z)
  : list nat :=
  imap (fun i n => pick n (default (-1) (pt !! i))) sh.

Definition getchunk_of {A} (f : list nat → A) (sh : list nat) (pt1 pt2 : list Z)
  : res (ndarray A) :=
  let lo := box_corner box_lo sh pt1 in
  let hi := box_corner box_hi sh pt2 in
  if forallb (fun p => (p.1 <=? p.2)%nat) (zip lo hi) && forallb (Nat.ltb 0) sh
  then ok (build (zip_with (fun l h => (h - l + 1)%nat) lo hi)
                 (fun idx => f (zip_with Nat.add lo idx)))
  else raise RuntimeError.

Definition getchunk (im : image) (pt1 pt2 : list Z) : res (ndarray Z) :=
  getchunk_of (pixel im) (ia_shape im) pt1 pt2.

Definition getchunk_mask (im : image) (pt1 pt2 : list Z) : res (ndarray bool) :=
  getchunk_of (maskbit im) (ia_shape im) pt1 pt2.

(** ** Python dicts *)

(** [dict(pairs)]: a later pair replaces an earlier one with the same key *)
Definition py_dict {V} (l : list (string * V)) : gmap string V :=
  foldl (fun m kv => <[kv.1 := kv.2]> m) ∅ l.

(** [d.update(new)] *)
Definition dict_update {V} (d new : gmap string V) : gmap string V := new ∪ d.

(** [str(n)] *)
Definition str_nat (n : nat) : string := NilZero.string_of_uint (Nat.to_uint n).

(** [[x for x in l if p(x)]] where [p] may raise *)
Fixpoint rfilter {A} (p : A → res bool) (l : list A) : res (list A) :=
  match l with
  | [] => ok []
  | a :: l' =>
      let* b := p a in
      let* r := rfilter p l' in
      ok (if b then a :: r else r)
  end.

Definition of_option {A} (e : pyerr) (o : option A) : res A :=
  match o with
  | Some a => ok a
  | None => raise e
  end.

(** ** Metadata normalisation (lines 123-136) *)

Definition is_dict (v : sval) : bool :=
  match v with SDict _ => true | _ => false end.

(** [for x in l: a = f(a, x)] where [f] may raise *)
Fixpoint rfoldl {A B} (f : A → B → res A) (a : A) (l : list B) : res A :=
  match l with
  | [] => ok a
  | b :: l' => let* a' := f a b in rfoldl f a' l'
  end.

(** A dict value is the list of its items in insertion order, the keys
    distinct.  [d.pop(k)]: *)
Definition od_pop (k : string) (d : list (string * sval))
  : res (sval * list (string * sval)) :=
  match List.find (fun kv => String.eqb kv.1 k) d with
  | Some kv => ok (kv.2, List.filter (fun kv => negb (String.eqb kv.1 k)) d)
  | None => raise KeyError
  end.

(** [d[k] = v]: a key the dict has keeps its place, a new key goes last *)
Fixpoint od_set (k : string) (v : sval) (d : list (string * sval))
  : list (string * sval) :=
  match d with
  | [] => [(k, v)]
  | kv :: r => if String.eqb kv.1 k then (k, v) :: r else kv :: od_set k v r
  end.

(** What [nested_to_record] returns: a dict for a dict, and for any other
    value it can iterate over the list of the flattened items. *)
Inductive flat : Type :=
  | FlatDict (d : list (string * sval))
  | FlatList (l : list (list (string * sval))).

(** [d.update(r)]: the items of a dict are set in turn; an item of a list
    must itself have two items, and iterating over a dict gives its keys. *)
Definition od_update (d : list (string * sval)) (r : flat)
  : res (list (string * sval)) :=
  match r with
  | FlatDict new => ok (foldl (fun acc kv => od_set kv.1 kv.2 acc) d new)
  | FlatList l =>
      rfoldl (fun acc e =>
                match e with
                | [(k1, _); (k2, _)] => ok (od_set k1 (SStr k2) acc)
                | _ => raise ValueError
                end) d l
  end.

(** the depth of nesting of a value *)
Fixpoint sval_depth (v : sval) : nat :=
  match v with
  | SDict d =>
      S ((fix go (d : list (string * sval)) : nat :=
            match d with
            | [] => O
            | kv :: r => Nat.max (sval_depth kv.2) (go r)
            end) d)
  | SList l | STuple l =>
      S ((fix go (l : list sval) : nat :=
            match l with
            | [] => O
            | x :: r => Nat.max (sval_depth x) (go r)
            end) l)
  | _ => O
  end.

(** [nested_to_record(ds, prefix, sep='.', level)] of pandas.  A dict is
    copied to [new_d] and its items are visited in order: at the top level
    an item that is no dict stays where it is, below it moves to the end
    under its prefixed key; a dict is popped, flattened one level further
    down, and the result updates [new_d], so what it flattens to goes to the
    end.  The value flattened is the one popped from [new_d], which an
    earlier update may have replaced by a leaf: a number cannot be iterated
    over, the items of a string or of a list have no [items] unless they
    are dicts.  [fuel] bounds the depth of the recursion. *)
Fixpoint flatten (fuel level : nat) (prefix : string) (ds : sval) : res flat :=
  match fuel with
  | O => raise RuntimeError
  | S fuel' =>
      let one (d : list (string * sval)) : res (list (string * sval)) :=
        rfoldl (fun new_d kv =>
                  let newkey :=
                    if (level =? 0)%nat then kv.1 else prefix +:+ "." +:+ kv.1 in
                  if is_dict kv.2 then
                    let* p := od_pop kv.1 new_d in
                    let* r := flatten fuel' (S level) newkey p.1 in
                    od_update p.2 r
                  else if (level =? 0)%nat then ok new_d
                  else let* p := od_pop kv.1 new_d in
                       ok (od_set newkey p.1 p.2))
               d d in
      match ds with
      | SDict d => let* r := one d in ok (FlatDict r)
      | SList l | STuple l =>
          let* r := rmap (fun d => match d with
                                   | SDict dd => one dd
                                   | _ => raise AttributeError
                                   end) l in
          ok (FlatList r)
      | SStr EmptyString => ok (FlatList [])
      | SStr _ => raise AttributeError
      | SInt _ => raise TypeError
      end
  end.

(** [nested_to_record(v, sep='.')]: the recursion goes one level down per
    level of nesting of [v]. *)
Definition nested_to_record (v : sval) : res flat :=
  flatten (S (sval_depth v)) 0 "" v.

(** [r.items()]: a list has none *)
Definition flat_items (r : flat) : res (list (string * sval)) :=
  match r with
  | FlatDict d => ok d
  | FlatList _ => raise AttributeError
  end.

Definition attr_omits : list string :=
  ["axisnames"; "incr"; "hasmask"; "masks"; "defaultmask"; "ndim"; "refpix";
   "refval"; "shape"; "tileshape"; "messages"].

(** lines 126-128: the attributes before the messages are parsed *)
Definition summary_attrs (s : summary) : res (gmap string sval) :=
  let items := summary_items s in
  let nested := fst <$> List.filter (fun kv => is_dict kv.2) items in
  let plain :=
    py_dict (map (fun kv => (PyStr.lower kv.1, kv.2))
               (List.filter
                  (fun kv => negb (bool_decide (kv.1 ∈ attr_omits ++ nested)))
                  items)) in
  let* flattened :=
    rmap (fun kv =>
            let* r := nested_to_record kv.2 in
            let* its := flat_items r in
            ok (kv.1, SList (map (fun p => STuple [SStr p.1; p.2]) its)))
         (List.filter (fun kv => is_dict kv.2) items) in
  ok (dict_update plain (py_dict flattened)).

Definition msg_omits : list string :=
  ["image_name"; "image_type"; "image_quantity"; "pixel_mask(s)"; "region(s)";
   "image_units"].

Definition newline : ascii := ascii_of_nat 10.

(** line 133: the lines of the lower-cased message that hold a colon
    followed by a space, each cut at every colon *)
Definition msg_fields (msg : string) : list (list string) :=
  map (PyStr.split ":")
    (List.filter (PyStr.contains ": ") (PyStr.split newline (PyStr.lower msg))).

(** line 134: the first two fields of a line *)
Definition line_pair (kk : list string) : res (string * string) :=
  let* k0 := getitem kk 0 in
  let* k1 := getitem kk 1 in
  ok (PyStr.replace " " "_" (PyStr.strip k0), PyStr.strip k1).

(** lines 133-135 for one message *)
Definition parse_message (msg : string) : res (list (string * string)) :=
  let* line := rmap line_pair (msg_fields msg) in
  ok (List.filter (fun ll => negb (bool_decide (ll.1 ∈ msg_omits))) line).

(** lines 132-136: every message updates the attributes in turn *)
Fixpoint parse_messages (msgs : list string) (attrs : gmap string sval)
  : res (gmap string sval) :=
  match msgs with
  | [] => ok attrs
  | msg :: rest =>
      let* line := parse_message msg in
      parse_messages rest
        (dict_update attrs (py_dict (map (fun ll => (ll.1, SStr ll.2)) line)))
  end.

(** the attributes of one artifact, lines 124-136 *)
Definition normalize_attrs (s : summary) : res (gmap string sval) :=
  let* attrs := summary_attrs s in
  parse_messages (messages s) attrs.

(** ** Coordinate resolution (lines 96-121) *)

(** line 96 *)
Definition norm_axis_name (ss : string) : string :=
  PyStr.replace "frequency" "chan"
    (PyStr.replace "stokes" "pol" (PyStr.lower (PyStr.replace " " "_" ss))).

(** A coordinate as it sits in the [coords] dict: a pair of dimension names
    and an array, or an array alone. *)
Inductive coord : Type :=
  | CoordDims (dims : list string) (a : ndarray Z)
  | CoordBare (a : ndarray Z).

(** lines 101-104 and 110-113: the pixel grid that sweeps the axes [sel] and
    keeps every other axis at pixel 0, sent through the coordinate system;
    one array per selected axis, shaped by the selected axes. *)
Definition grid_sizes (sel ims : list nat) : list nat :=
  imap (fun dd n => if bool_decide (dd ∈ sel) then n else 1%nat) ims.

Definition world_arrays (im : image) (sel ims : list nat)
  : res (list (ndarray Z)) :=
  let coord_idxs := mgrid (grid_sizes sel ims) in
  let coord_world := map (toworld im) coord_idxs in
  let* sel_shape := rmap (getitem ims) sel in
  rmap (fun dd => reshape sel_shape
                    (mk_nd [length coord_idxs]
                       (map (fun w => default 0 (w !! dd)) coord_world)))
       sel.

(** line 100 *)
Definition sphr_dims_of (s : summary) (ims : list nat) : res (list nat) :=
  rfilter (fun dd => let* u := getitem (axisunits s) dd in ok (String.eqb u "rad"))
          (seq 0 (length ims)).

(** line 109 *)
Definition cart_dims_of (sphr_dims ims : list nat) : list nat :=
  List.filter (fun dd => negb (bool_decide (dd ∈ sphr_dims))) (seq 0 (length ims)).

(** lines 114-116: the update of [coords] for the [dd]-th cartesian axis *)
Definition cart_coord (coord_names : list string) (cart_dims : list nat)
    (dd : nat) (cs : ndarray Z) : res (string * coord) :=
  let spi := map (fun di => bool_decide (di = dd)) (seq 0 (ndim cs)) in
  let* sliced := of_option IndexError (take_slices spi cs) in
  let* c := item0 sliced in
  let* axis := getitem cart_dims dd in
  let* name := getitem coord_names axis in
  ok (name, CoordBare c).

Record resolved : Type := mk_resolved {
  r_coords : gmap string coord;
  r_dims : list string
}.

(** lines 96-121 *)
Definition resolve_coords (im : image) : res resolved :=
  let summary := im_summary im in
  let ims := ia_shape im in
  let coord_names := norm_axis_name <$> axisnames summary in
  let* sphr_dims := sphr_dims_of summary ims in
  let* sphr_world := world_arrays im sphr_dims ims in
  let spi := map (fun dd => "d" +:+ str_nat dd) sphr_dims in
  let* sphr_items :=
    rmap (fun p => let* name := getitem coord_names p.1 in
                   ok (name, CoordDims spi p.2))
         (zip sphr_dims sphr_world) in
  let coords := py_dict sphr_items in
  let cart_dims := cart_dims_of sphr_dims ims in
  let* cart_world := world_arrays im cart_dims ims in
  let* cart_items :=
    rmap (fun p => cart_coord coord_names cart_dims p.1 p.2)
         (imap pair cart_world) in
  let coords := foldl (fun c kv => dict_update c {[kv.1 := kv.2]}) coords cart_items in
  let* dims :=
    rmap (fun di => if bool_decide (di ∈ cart_dims) then getitem coord_names di
                    else ok ("d" +:+ str_nat di))
         (seq 0 (length ims)) in
  ok (mk_resolved coords dims).

(** ** Discovery of the artifacts (lines 85-150) *)

(** What the dict [tm] (and [meta], its copy) holds.  The attributes are a
    dict of their own: the record keeps the address of that dict in the
    store of attribute dicts, so that two records naming the same address
    share it. *)
Record tmrec : Type := mk_tm {
  t_coords : gmap string coord;
  t_dsize : list nat;
  t_dims : list string;
  t_attrs : nat
}.

(** The variables of the loop of line 91.  [heap] is the store of attribute
    dicts; [meta] is [None] for the empty dict; [imtypes] is the variable
    the loop body rebinds (the loop itself runs over the list it was given);
    every entry of [difmeta] is the one dict [tm], so only their number is
    kept. *)
Record dstate : Type := mk_dstate {
  heap : list (gmap string sval);
  tm : option tmrec;
  meta : option tmrec;
  imtypes : list string;
  diftypes : list string;
  difmeta : nat
}.

Definition remove_type (imtype : string) (l : list string) : list string :=
  List.filter (fun t => negb (String.eqb t imtype)) l.

(** lines 132-136 on the dict at address [a] *)
Fixpoint update_messages (msgs : list string) (a : nat)
    (h : list (gmap string sval)) : res (list (gmap string sval)) :=
  match msgs with
  | [] => ok h
  | msg :: rest =>
      let* line := parse_message msg in
      update_messages rest a
        (alter (fun d => dict_update d (py_dict (map (fun ll => (ll.1, SStr ll.2)) line)))
               a h)
  end.

(** one turn of the loop of line 91 *)
Definition discover_step (fs : gmap string node) (prefix : string)
    (st : dstate) (imtype : string) : res dstate :=
  if path_exists fs (prefix +:+ "." +:+ imtype) then
    let* im := ia_open fs (prefix +:+ "." +:+ imtype) in
    let summary := im_summary im in
    let* r := resolve_coords im in
    let a := length (heap st) in
    let* attrs := summary_attrs summary in
    let* h := update_messages (messages summary) a (heap st ++ [attrs]) in
    let tm' := mk_tm (r_coords r) (sshape summary) (r_dims r) a in
    match meta st with
    | None =>
        ok (mk_dstate h (Some tm') (Some tm') (imtypes st) (diftypes st) (difmeta st))
    | Some m =>
        if any_ne (t_dsize m) (sshape summary) && negb (String.eqb imtype "sumwt")
        then ok (mk_dstate h (Some tm') (meta st) (remove_type imtype (imtypes st))
                   (diftypes st ++ [imtype]) (S (difmeta st)))
        else ok (mk_dstate h (Some tm') (meta st) (imtypes st) (diftypes st) (difmeta st))
    end
  else
    ok (mk_dstate (heap st) (tm st) (meta st) (remove_type imtype (imtypes st))
          (diftypes st) (difmeta st)).

Fixpoint discover_loop (fs : gmap string node) (prefix : string)
    (todo : list string) (st : dstate) : res dstate :=
  match todo with
  | [] => ok st
  | imtype :: rest =>
      let* st' := discover_step fs prefix st imtype in
      discover_loop fs prefix rest st'
  end.

(** lines 85-89 *)
Definition default_imtypes : list string :=
  ["image.pbcor"; "mask"; "model"; "pb"; "psf"; "residual"; "sumwt"; "weight"].

Definition initial_imtypes (suffix : string) (artifacts : option (list string))
  : list string :=
  match artifacts with
  | None => if bool_decide (suffix ∈ default_imtypes) then default_imtypes
            else suffix :: default_imtypes
  | Some l => suffix :: l
  end.

(** lines 90-150 *)
Definition discover (fs : gmap string node) (prefix : string)
    (cands : list string) : res dstate :=
  discover_loop fs prefix cands (mk_dstate [] None None cands [] O).

(** ** xarray *)

Definition vd_shape (d : vardata) : list nat :=
  match d with NumData a => shape a | BoolData a => shape a end.

(** [xarray.DataArray(data, dims=dims)] *)
Definition xa (d : vardata) (dims : list string) : res variable :=
  if decide (length dims = length (vd_shape d)) then ok (mk_var dims d)
  else raise ValueError.

(** a coordinate given as a pair carries its dimensions; a bare array is a
    scalar or runs along the dimension of its own name *)
Definition coord_variable (name : string) (c : coord) : res variable :=
  match c with
  | CoordDims dims a => xa (NumData a) dims
  | CoordBare a =>
      match shape a with
      | [] => ok (mk_var [] (NumData a))
      | [_] => ok (mk_var [name] (NumData a))
      | _ => raise ValueError
      end
  end.

Definition var_sizes (v : variable) : list (string * nat) :=
  zip (vdims v) (vd_shape (vdata v)).

Definition all_sizes (vars coords : gmap string variable) : list (string * nat) :=
  flat_map (fun kv => var_sizes kv.2) (map_to_list vars ++ map_to_list coords).

Definition sizes_consistent (l : list (string * nat)) : bool :=
  forallb (fun p => forallb (fun q => implb (String.eqb p.1 q.1) (Nat.eqb p.2 q.2)) l) l.

(** a fallible function over the values of a dict *)
Definition rmap_dict {A B} (f : string → A → res B) (m : gmap string A)
  : res (gmap string B) :=
  let* l := rmap (fun kv => let* b := f kv.1 kv.2 in ok (kv.1, b)) (map_to_list m) in
  ok (list_to_map l).

(** [xarray.Dataset(xdas, coords=coords, attrs=attrs)]: every dimension has
    one size over all variables and coordinates *)
Definition xd (xdas : gmap string variable) (coords : gmap string coord)
    (attrs : gmap string sval) : res dataset :=
  let* cvars := rmap_dict coord_variable coords in
  if sizes_consistent (all_sizes xdas cvars)
  then ok (mk_ds xdas cvars attrs ∅)
  else raise ValueError.

(** [xds.dims] *)
Definition ds_dims (ds : dataset) : list string :=
  (all_sizes (data_vars ds) (ds_coords ds)).*1.

(** [xds.chunk(chunking)] *)
Definition ds_chunk (chunking : gmap string Z) (ds : dataset) : res dataset :=
  if forallb (fun kv => bool_decide (kv.1 ∈ ds_dims ds)) (map_to_list chunking)
  then ok (mk_ds (data_vars ds) (ds_coords ds) (ds_attrs ds) chunking)
  else raise ValueError.

(** numpy's [a.transpose(axes)] with its check that [axes] permutes the axes *)
Definition np_transpose {A} (axes : list nat) (a : ndarray A) : res (ndarray A) :=
  if decide (length axes = ndim a ∧ NoDup axes ∧ Forall (fun j => (j < ndim a)%nat) axes)
  then of_option ValueError (transpose axes a)
  else raise ValueError.

Definition vd_transpose (axes : list nat) (d : vardata) : res vardata :=
  match d with
  | NumData a => let* r := np_transpose axes a in ok (NumData r)
  | BoolData a => let* r := np_transpose axes a in ok (BoolData r)
  end.

(** [Variable.transpose] on [var_dims], after [Dataset.transpose] has kept, in
    the order asked for, the dimensions the variable has *)
Definition transpose_var (dims : list string) (v : variable) : res variable :=
  let var_dims := List.filter (fun d => bool_decide (d ∈ vdims v)) dims in
  let* axes := rmap (fun d => of_option ValueError
                                (fst <$> list_find (fun d' => d' = d) (vdims v)))
                    var_dims in
  if (length var_dims <? 2)%nat then ok v
  else let* d := vd_transpose axes (vdata v) in ok (mk_var var_dims d).

(** [xds.transpose] on the names [dims] *)
Definition ds_transpose (dims : list string) (ds : dataset) : res dataset :=
  if forallb (fun d => bool_decide (d ∈ ds_dims ds)) dims
     && forallb (fun d => bool_decide (d ∈ dims)) (ds_dims ds)
  then
    let* vars := rmap_dict (fun _ => transpose_var dims) (data_vars ds) in
    let* cvars := rmap_dict (fun _ => transpose_var dims) (ds_coords ds) in
    ok (mk_ds vars cvars (ds_attrs ds) (ds_chunks ds))
  else raise ValueError.

(** [xds.image]: attribute access finds a data variable or a coordinate *)
Definition ds_getattr (name : string) (ds : dataset) : res variable :=
  match data_vars ds !! name with
  | Some v => ok v
  | None => of_option AttributeError (ds_coords ds !! name)
  end.

(** ** The zarr store *)

Definition vd_concat (k : nat) (old new : vardata) : res vardata :=
  match old, new with
  | NumData a, NumData b => let* r := concat_axis k a b in ok (NumData r)
  | BoolData a, BoolData b => let* r := concat_axis k a b in ok (BoolData r)
  | _, _ => raise TypeError
  end.

(** one variable written with [append_dim]: a variable the store already has
    grows along that dimension; any other is written as it is *)
Definition append_var (append_dim : string) (old : gmap string variable)
    (name : string) (new : variable) : res variable :=
  match old !! name, list_find (fun d => d = append_dim) (vdims new) with
  | Some o, Some (k, _) =>
      if decide (vdims o = vdims new)
      then let* d := vd_concat k (vdata o) (vdata new) in ok (mk_var (vdims new) d)
      else raise ValueError
  | _, _ => ok new
  end.

(** [xds.to_zarr(outfile, mode='w', encoding=encoding)] *)
Definition to_zarr_w (outfile : string) (xds : dataset)
    (encoding : gmap string blosc) (fs : gmap string node) : gmap string node :=
  <[outfile := ZarrNode xds encoding]> fs.

(** [xds.to_zarr(outfile, mode='a', append_dim=...)] *)
Definition to_zarr_a (outfile : string) (xds : dataset) (append_dim : string)
    (fs : gmap string node) : res (gmap string node) :=
  match fs !! outfile with
  | Some (ZarrNode old enc) =>
      let* vars := rmap_dict (append_var append_dim (data_vars old)) (data_vars xds) in
      let* cvars := rmap_dict (append_var append_dim (ds_coords old)) (ds_coords xds) in
      ok (<[outfile := ZarrNode (mk_ds (vars ∪ data_vars old) (cvars ∪ ds_coords old)
                                       (ds_attrs xds) (ds_chunks old)) enc]> fs)
  | _ => raise IOError
  end.

(** [xarray.open_zarr(outfile)] *)
Definition open_zarr (outfile : string) (fs : gmap string node) : res dataset :=
  match fs !! outfile with
  | Some (ZarrNode ds _) => ok ds
  | _ => raise IOError
  end.

(** ** The loop over channel batches (lines 157-199) *)

(** The argument [chunk_shape]: a tuple (the default) or a list. *)
Inductive pyseq : Type :=
  | PyTuple (l : list Z)
  | PyList (l : list Z).

Definition items (c : pyseq) : list Z :=
  match c with PyTuple l => l | PyList l => l end.

(** [c[i] = v]: a tuple does not support item assignment *)
Definition setitem (c : pyseq) (i : nat) (v : Z) : res pyseq :=
  match c with
  | PyTuple _ => raise TypeError
  | PyList l => if decide (i < length l)%nat then ok (PyList (<[i:=v]> l))
                else raise IndexError
  end.

(** [l[i] = v] on a list *)
Definition list_setitem {A} (l : list A) (i : nat) (v : A) : res (list A) :=
  if decide (i < length l)%nat then ok (<[i:=v]> l) else raise IndexError.

(** [l.index(x)] *)
Definition list_index (x : string) (l : list string) : res nat :=
  of_option ValueError (fst <$> list_find (fun y => y = x) l).

(** [range(0, n, step)] for a positive [step] *)
Definition py_range (n step : nat) : list nat :=
  map (fun i => (i * step)%nat) (seq 0 (Nat.div (n + step - 1) step)).

(** lines 168-186: one artifact of one batch *)
Definition read_artifact (fs : gmap string node) (prefix : string)
    (dims : list string) (pt1 pt2 : list Z)
    (xdas : gmap string variable) (imtype : string)
  : res (gmap string variable) :=
  let* im := ia_open fs (prefix +:+ "." +:+ imtype) in
  let* imchunk := getchunk im pt1 pt2 in
  let imtype := if String.eqb imtype "fits" then "image" else imtype in
  let* xdas :=
    if String.eqb imtype "mask" then
      let* v := xa (BoolData (amap (fun p => negb (p =? 0)) imchunk)) dims in
      ok (<["deconvolve" := v]> xdas)
    else if String.eqb imtype "sumwt" then
      let* n := getitem (shape imchunk) 2 in
      let* r := reshape [n; 1%nat] imchunk in
      let* v := xa (NumData r) ["pol"; "chan"] in
      ok (<[imtype := v]> xdas)
    else
      let* v := xa (NumData imchunk) dims in
      ok (<[imtype := v]> xdas) in
  if (0 <? length (masks (im_summary im)))%nat then
    let* mchunk := getchunk_mask im pt1 pt2 in
    let* v := xa (BoolData mchunk) dims in
    ok (<["mask" := v]> xdas)
  else ok xdas.

Fixpoint read_artifacts (fs : gmap string node) (prefix : string)
    (dims : list string) (pt1 pt2 : list Z) (imtypes : list string)
    (xdas : gmap string variable) : res (gmap string variable) :=
  match imtypes with
  | [] => ok xdas
  | imtype :: rest =>
      let* xdas' := read_artifact fs prefix dims pt1 pt2 xdas imtype in
      read_artifacts fs prefix dims pt1 pt2 rest xdas'
  end.

(** lines 164-165 *)
Definition chunk_coords_of (coords : gmap string coord) (chan chan_batch : nat)
  : gmap string coord :=
  <["chan" := CoordBare (arange_from (Z.of_nat chan) chan_batch)]> coords.

(** line 188 *)
Definition chunking_of (dims : list string) (chunk_shape : list Z)
  : res (gmap string Z) :=
  let* kept := rfilter (fun ii => let* c := getitem chunk_shape ii in ok (0 <? c))
                       (seq 0 (length dims)) in
  let* pairs := rmap (fun ii => let* d := getitem dims ii in
                                let* c := getitem chunk_shape ii in ok (d, c))
                     kept in
  ok (py_dict pairs).

(** line 192 *)
Definition reorder (xds : dataset) : res dataset :=
  if bool_decide ("pol" ∈ ds_dims xds) then
    let* image := ds_getattr "image" xds in
    let* a0 := getitem (vdims image) 0 in
    let* a1 := getitem (vdims image) 1 in
    ds_transpose [a0; a1; "chan"; "pol"] xds
  else ok xds.

(** What the batch loop needs of the metadata kept from discovery. *)
Record batch_env : Type := mk_env {
  e_prefix : string;
  e_outfile : string;
  e_nofile : bool;
  e_compressor : blosc;
  e_imtypes : list string;
  e_coords : gmap string coord;
  e_dsize : list nat;
  e_dims : list string;
  e_attrs : gmap string sval;
  e_chan_dim : nat;
  e_chan_batch : nat;
  e_chunk_shape : list Z
}.

(** lines 163-192: the record of the batch that starts at [chan] *)
Definition assemble (e : batch_env) (fs : gmap string node) (chan : nat)
  : res dataset :=
  let pt0 := replicate (length (e_dsize e)) (-1) in
  let* pt1 := list_setitem pt0 (e_chan_dim e) (Z.of_nat chan) in
  let* pt2 := list_setitem pt0 (e_chan_dim e)
                (Z.of_nat chan + Z.of_nat (e_chan_batch e) - 1) in
  let chunk_coords := chunk_coords_of (e_coords e) chan (e_chan_batch e) in
  let* xdas := read_artifacts fs (e_prefix e) (e_dims e) pt1 pt2 (e_imtypes e) ∅ in
  let* chunking := chunking_of (e_dims e) (e_chunk_shape e) in
  let* xds0 := xd xdas chunk_coords (e_attrs e) in
  let* xds := ds_chunk chunking xds0 in
  reorder xds.

(** The writes a conversion performs, in order. *)
Inductive write_event : Type :=
  | Created (xds : dataset)
  | Appended (xds : dataset).

(** The state the loop of line 161 carries: the file system, the writes done
    so far and the variable [xds] ([None] for its initial empty list). *)
Record bstate : Type := mk_b {
  b_fs : gmap string node;
  b_trace : list write_event;
  b_xds : option dataset
}.

(** lines 162-199: one batch *)
Definition batch_step (e : batch_env) (st : bstate) (chan : nat) : res bstate :=
  let* xds := assemble e (b_fs st) chan in
  if (chan =? 0)%nat && negb (e_nofile e) then
    let encoding := (fun _ => e_compressor e) <$> data_vars xds in
    ok (mk_b (to_zarr_w (e_outfile e) xds encoding (b_fs st))
             (b_trace st ++ [Created xds]) (Some xds))
  else if negb (e_nofile e) then
    let* fs' := to_zarr_a (e_outfile e) xds "chan" (b_fs st) in
    ok (mk_b fs' (b_trace st ++ [Appended xds]) (Some xds))
  else ok (mk_b (b_fs st) (b_trace st) (Some xds)).

(** the loop: an exception leaves the state of the batches already done *)
Fixpoint batch_loop (e : batch_env) (chans : list nat) (st : bstate)
  : option pyerr * bstate :=
  match chans with
  | [] => (None, st)
  | chan :: rest =>
      match batch_step e st chan with
      | inl err => (Some err, st)
      | inr st' => batch_loop e rest st'
      end
  end.

(** lines 157-160 *)
Definition prepare (meta : option tmrec) (chunk_shape : pyseq) (nofile : bool)
  : res (tmrec * nat * pyseq * nat) :=
  let* m := of_option KeyError meta in
  let dsize := t_dsize m in
  let* chan_dim := list_index "chan" (t_dims m) in
  let* c3 := getitem (items chunk_shape) 3 in
  let* chunk_shape :=
    if c3 <=? 0 then
      let* n := getitem dsize chan_dim in setitem chunk_shape 3 (Z.of_nat n)
    else ok chunk_shape in
  let* chan_batch :=
    if nofile then getitem dsize chan_dim
    else let* c := getitem (items chunk_shape) 3 in ok (Z.to_nat c) in
  ok (m, chan_dim, chunk_shape, chan_batch).

(** ** The conversion *)

(** What the function returns: a dataset, or the empty list [xds] starts as
    when no batch was processed in memory. *)
Inductive retval : Type :=
  | RDataset (xds : dataset)
  | REmptyList.

Section ConvertImage.

(** [os.path.expanduser] depends on the environment of the process. *)
Variable expanduser : string → string.

(** [os.system("rm -fr " + outfile)] of line 73 hands a text to the shell:
    which paths the command removes depends on how the shell cuts the text
    into words and expands them, and on the directory tree.  [rm_fr outfile]
    is what the command makes of the file system; nothing is assumed of
    it. *)
Variable rm_fr : string → gmap string node → gmap string node.

(** lines 64-65 *)
Fixpoint strip_slashes (suffix : string) : string :=
  match suffix with
  | EmptyString => EmptyString
  | String c r =>
      match strip_slashes r with
      | EmptyString => if Ascii.eqb c "/" then EmptyString else String c EmptyString
      | r' => String c r'
      end
  end.

(** lines 59-70: prefix, suffix and output path *)
Definition paths (infile : string) (outfile : option string)
  : res (string * string * string) :=
  let infile := expanduser infile in
  let* i := PyStr.rindex "." infile in
  let prefix := PyStr.upto i infile in
  let suffix := strip_slashes (PyStr.from (S i) infile) in
  let outfile := match outfile with
                 | None => prefix +:+ ".img.zarr"
                 | Some o => expanduser o
                 end in
  ok (prefix, suffix, outfile).

Definition default_compressor : blosc := Blosc "zstd" 2 0.

(** lines 157-206, after discovery *)
Definition convert_batches (prefix outfile : string) (compressor : blosc)
    (chunk_shape : pyseq) (nofile : bool) (st : dstate) (fs : gmap string node)
  : res retval * (gmap string node * list write_event) :=
  match prepare (meta st) chunk_shape nofile with
  | inl err => (inl err, (fs, []))
  | inr (m, chan_dim, chunk_shape, chan_batch) =>
      match getitem (t_dsize m) chan_dim with
      | inl err => (inl err, (fs, []))
      | inr nchan =>
          if (chan_batch =? 0)%nat then (inl ValueError, (fs, []))
          else
            let e := mk_env prefix outfile nofile compressor (imtypes st)
                       (t_coords m) (t_dsize m) (t_dims m)
                       (default ∅ (heap st !! t_attrs m))
                       chan_dim chan_batch (items chunk_shape) in
            match batch_loop e (py_range nchan chan_batch) (mk_b fs [] None) with
            | (Some err, b) => (inl err, (b_fs b, b_trace b))
            | (None, b) =>
                if nofile then
                  (ok (match b_xds b with
                       | Some xds => RDataset xds
                       | None => REmptyList
                       end), (b_fs b, b_trace b))
                else
                  (rbind (open_zarr outfile (b_fs b)) (fun xds => ok (RDataset xds)),
                   (b_fs b, b_trace b))
            end
      end
  end.

(** [convert_image]: the result or the exception, with the file system the
    call leaves behind and the writes it performed. *)
Definition convert_image (infile : string) (outfile : option string)
    (artifacts : option (list string)) (compressor : option blosc)
    (chunk_shape : pyseq) (nofile : bool) (fs : gmap string node)
  : res retval * (gmap string node * list write_event) :=
  match paths infile outfile with
  | inl err => (inl err, (fs, []))
  | inr (prefix, suffix, outfile) =>
      let fs := if nofile then fs else rm_fr outfile fs in
      let compressor := default default_compressor compressor in
      match discover fs prefix (initial_imtypes suffix artifacts) with
      | inl err => (inl err, (fs, []))
      | inr st => convert_batches prefix outfile compressor chunk_shape nofile st fs
      end
  end.

End ConvertImage.

(** ** Notions used to state the properties *)

(** An artifact type is present when its file exists; its pixel shape is the
    shape of the image the file holds. *)
Definition present (fs : gmap string node) (prefix t : string) : bool :=
  path_exists fs (prefix +:+ "." +:+ t).

Definition art_image (fs : gmap string node) (prefix t : string) : option image :=
  match fs !! (prefix +:+ "." +:+ t) with
  | Some (ImageNode im) => Some im
  | _ => None
  end.

Definition art_shape (fs : gmap string node) (prefix t : string)
  : option (list nat) :=
  ia_shape <$> art_image fs prefix t.

(** The partition of the candidates that the shape [ref] of the reference
    induces. *)
Definition compatible_with (fs : gmap string node) (prefix : string)
    (ref : list nat) (t : string) : bool :=
  match art_shape fs prefix t with
  | Some s => negb (any_ne ref s) || String.eqb t "sumwt"
  | None => false
  end.

Definition incompatible_with (fs : gmap string node) (prefix : string)
    (ref : list nat) (t : string) : bool :=
  match art_shape fs prefix t with
  | Some s => any_ne ref s && negb (String.eqb t "sumwt")
  | None => false
  end.

(** The sweep of one axis: the world coordinate of that axis at every pixel
    of the axis, all other axes at pixel 0. *)
Definition sweep_axis (im : image) (dd : nat) : ndarray Z :=
  let ims := ia_shape im in
  let n := default O (ims !! dd) in
  mk_nd [n]
    (map (fun i => default 0 (toworld im (<[dd := i]> (replicate (length ims) O)) !! dd))
         (seq 0 n)).

(** A 1-d coordinate cut to the pixels [start, start + n). *)
Definition reslice (start n : nat) (c : coord) : coord :=
  match c with
  | CoordBare a =>
      let d := take n (drop start (data a)) in CoordBare (mk_nd [length d] d)
  | CoordDims dims a =>
      let d := take n (drop start (data a)) in CoordDims dims (mk_nd [length d] d)
  end.

(** The extent of a written record along the channel axis, read off its
    variable [image]. *)
Definition written (ev : write_event) : dataset :=
  match ev with Created xds => xds | Appended xds => xds end.

Definition is_create (ev : write_event) : bool :=
  match ev with Created _ => true | Appended _ => false end.

Definition dim_size (d : string) (v : variable) : option nat :=
  p ← list_find (fun d' => d' = d) (vdims v); vd_shape (vdata v) !! p.1.

Definition chan_extent (ev : write_event) : option nat :=
  v ← data_vars (written ev) !! "image"; dim_size "chan" v.

(** The message rule as the specification words it: every line is cut at its
    first colon into a label and a value, the label is lower-cased with
    spaces turned into underscores, the redundant labels are dropped and a
    later pair replaces an earlier one. *)
Fixpoint split_first (sep : ascii) (s : string) : option (string * string) :=
  match s with
  | EmptyString => None
  | String c r =>
      if Ascii.eqb c sep then Some (EmptyString, r)
      else match split_first sep r with
           | Some (a, b) => Some (String c a, b)
           | None => None
           end
  end.

Definition spec_label (l : string) : string :=
  PyStr.replace " " "_" (PyStr.lower l).

Definition spec_message_pairs (msg : string) : list (string * string) :=
  List.filter (fun p => negb (bool_decide (p.1 ∈ msg_omits)))
    (omap (fun line => (fun p => (spec_label p.1, p.2)) <$> split_first ":" line)
          (PyStr.split newline msg)).

Definition spec_parse_messages (msgs : list string) (attrs : gmap string sval)
  : gmap string sval :=
  foldl (fun m msg =>
           dict_update m (py_dict (map (fun p => (p.1, SStr p.2)) (spec_message_pairs msg))))
        attrs msgs.

(** The message rule as the code has it: of the lower-cased message, the
    lines holding a colon followed by a space; of such a line cut at every
    colon, the first field (trimmed, spaces to underscores) is the label and
    the second field (trimmed) the value. *)
Definition kept_pairs (msg : string) : list (string * string) :=
  List.filter (fun p => negb (bool_decide (p.1 ∈ msg_omits)))
    (map (fun kk => (PyStr.replace " " "_" (PyStr.strip (default "" (kk !! 0%nat))),
                     PyStr.strip (default "" (kk !! 1%nat))))
         (msg_fields msg)).

(** the value of the last pair with label [k] *)
Definition last_value (k : string) (l : list (string * string)) : option string :=
  snd <$> List.find (fun p => String.eqb p.1 k) (rev l).




(** ** Images used in the examples *)

(** A cube with two sky axes of two pixels each, [npol] polarizations and
    [nchan] channels, in the axis order of the legacy format. *)
Definition cube_summary (npol nchan : nat) : summary :=
  mk_summary ["Right Ascension"; "Declination"; "Stokes"; "Frequency"]
    ["rad"; "rad"; ""; "Hz"] [2; 2; npol; nchan]%nat []
    ["Telescope : VLA"]
    [("unit", SStr "Jy/beam");
     ("restoringbeam", SDict [("major", SDict [("unit", SStr "arcsec"); ("value", SInt 3)])])].

Definition cube_pixel (npol nchan : nat) (idx : list nat) : Z :=
  Z.of_nat (ravel [2; 2; npol; nchan]%nat idx).

Definition cube_world (idx : list nat) : list Z :=
  imap (fun k i => 1000 * Z.of_nat k + Z.of_nat i) idx.

Definition cube (npol nchan : nat) : image :=
  mk_image (cube_summary npol nchan) cube_world (cube_pixel npol nchan) (fun _ => true).

(** the same cube under an arbitrary coordinate system *)
Definition cube_with (tw : list nat → list Z) (npol nchan : nat) : image :=
  mk_image (cube_summary npol nchan) tw (cube_pixel npol nchan) (fun _ => true).

(** a directory that holds the cube as [x.image] and nothing else *)
Definition cube_fs (npol nchan : nat) : gmap string node :=
  {[ "x.image" := ImageNode (cube npol nchan) ]}.

Definition old_store : node := ZarrNode (mk_ds ∅ ∅ ∅ ∅) ∅.

Definition no_expand (s : string) : string := s.

(** One behaviour of the command [rm -fr], for the examples.  It is the
    command on a text of plain words: words that hold no character the
    shell expands or interprets, that do not begin with a dash, and that
    name their paths from the directory the keys of the file system are
    named from.  The text is cut at blanks into words; a path is named by
    its components, empty components and [.] left out; every path that a
    word names, or that lies under it, is removed.  The properties of the
    conversion are proved for every behaviour of the command: this one only
    serves to evaluate the conversion on the examples, whose output paths
    are of that kind. *)
Definition path_parts (p : string) : list string :=
  let rest := List.filter (fun c => negb (String.eqb c "" || String.eqb c "."))
                          (PyStr.split "/" p) in
  if PyStr.startswith "/" p then "" :: rest else rest.

Fixpoint parts_under (w k : list string) : bool :=
  match w, k with
  | [], _ => true
  | a :: w', b :: k' => String.eqb a b && parts_under w' k'
  | _ :: _, [] => false
  end.

Definition rm_words (outfile : string) (fs : gmap string node) : gmap string node :=
  let words :=
    List.filter (fun w => match w with [] | [""] => false | _ => true end)
      (map path_parts
         (flat_map (PyStr.split (ascii_of_nat 9)) (PyStr.split " " outfile))) in
  filter (fun kv : string * node =>
            forallb (fun w => negb (parts_under w (path_parts kv.1))) words = true)
         fs.

(** a sum-of-weights image: no extent on the sky axes *)
Definition sumwt_image (npol nchan : nat) : image :=
  mk_image
    (mk_summary ["Right Ascension"; "Declination"; "Stokes"; "Frequency"]
       ["rad"; "rad"; ""; "Hz"] [1; 1; npol; nchan]%nat [] [] [])
    cube_world (fun _ => 1) (fun _ => true).

(** an observation with an image, a model and a deconvolution mask of one
    shape, a point-spread function of another and the sum of weights *)
Definition obs_fs : gmap string node :=
  {[ "x.image" := ImageNode (cube 1 3);
     "x.model" := ImageNode (cube 1 3);
     "x.mask" := ImageNode (cube 1 3);
     "x.psf" := ImageNode (cube 1 2);
     "x.sumwt" := ImageNode (sumwt_image 1 3) ]}.

(** the environment of the batch loop for the artifacts [types] of
    [obs_fs], one channel per batch *)
Definition obs_env (types : list string) : batch_env :=
  mk_env "x" "x.img.zarr" false default_compressor types
    (match resolve_coords (cube 1 3) with inr r => r_coords r | inl _ => ∅ end)
    [2; 2; 1; 3]%nat ["d0"; "d1"; "pol"; "chan"]
    (match normalize_attrs (cube_summary 1 3) with inr a => a | inl _ => ∅ end)
    3 1 [-1; -1; 1; 1].

(** whether a computation returned, and whether a conversion returned a
    dataset *)
Definition is_inr {A B} (r : A + B) : bool :=
  match r with inr _ => true | inl _ => false end.

Definition returns_dataset {W} (r : res retval * W) : bool :=
  match r.1 with inr (RDataset _) => true | _ => false end.

(** the cube with the channel axis before the polarization axis *)
Definition chan_first_summary (nchan npol : nat) : summary :=
  mk_summary ["Right Ascension"; "Declination"; "Frequency"; "Stokes"]
    ["rad"; "rad"; "Hz"; ""] [2; 2; nchan; npol]%nat [] [] [].

Definition chan_first_cube (nchan npol : nat) : image :=
  mk_image (chan_first_summary nchan npol) cube_world
    (fun idx => Z.of_nat (ravel [2; 2; nchan; npol]%nat idx)) (fun _ => true).

(** an image of one axis, [n] pixels long *)
Definition line (n : nat) : image :=
  mk_image (mk_summary ["Frequency"] ["Hz"] [n] [] [] [])
    cube_world (fun _ => 1) (fun _ => true).


(** an observation with a deconvolution mask and an artifact whose type is
    [deconvolve] *)
Definition deconvolve_fs : gmap string node :=
  {[ "x.image" := ImageNode (cube 1 3);
     "x.mask" := ImageNode (cube 1 3);
     "x.deconvolve" := ImageNode (cube 1 3) ]}.

(** ** Notions used in the proofs *)

(** How [reorder] moves a variable: not at all, or by the transposition to
    the given order. *)
Definition moved (o : option (list string)) (v v' : variable) : Prop :=
  match o with
  | None => v' = v
  | Some dims => transpose_var dims v = inr v'
  end.

Definition moved_all (o : option (list string)) (m m' : gmap string variable) : Prop :=
  ∀ k, match m !! k with
       | Some v => ∃ v', moved o v v' ∧ m' !! k = Some v'
       | None => m' !! k = None
       end.


(** the types that a run of the loop over [todo] leaves in [imtypes] *)
Definition survives (fs : gmap string node) (prefix : string) (ref : list nat)
    (todo : list string) (x : string) : bool :=
  forallb (fun t => negb (String.eqb x t) || compatible_with fs prefix ref t) todo.

(** what the loop keeps true of the attributes in [xds] and in the store *)
Definition attrs_inv (e : batch_env) (st : bstate) : Prop :=
  (∀ xds, b_xds st = Some xds → ds_attrs xds = e_attrs e) ∧
  (e_nofile e = false →
   b_fs st !! e_outfile e = None ∨
   ∃ ds enc, b_fs st !! e_outfile e = Some (ZarrNode ds enc) ∧ ds_attrs ds = e_attrs e).


(** ** Further notions used to state the properties *)

(** a trace that starts with the creation of the store and goes on with
    appends only *)
Definition create_then_append (tr : list write_event) : Prop :=
  match tr with
  | [] => True
  | ev :: rest => is_create ev = true ∧ Forall (fun ev' => is_create ev' = false) rest
  end.

(** the artifact types of [imtypes] that carry a validity mask, as the
    batch loop meets them *)
Definition has_masks (fs : gmap string node) (prefix t : string) : bool :=
  match art_image fs prefix t with
  | Some im => (0 <? length (masks (im_summary im)))%nat
  | None => false
  end.

(** The name under which the pixels of an artifact enter a record
    (lines 172-178). *)
Definition var_name (t : string) : string :=
  let t := if String.eqb t "fits" then "image" else t in
  if String.eqb t "mask" then "deconvolve" else t.

(** an image of one plane: two sky axes and the polarization, no frequency
    axis *)
Definition plane : image :=
  mk_image
    (mk_summary ["Right Ascension"; "Declination"; "Stokes"] ["rad"; "rad"; ""]
       [2; 2; 1]%nat [] [] [])
    cube_world (fun _ => 1) (fun _ => true).

Definition plane_fs : gmap string node := {[ "x.image" := ImageNode plane ]}.

(** the cube of one polarization and three channels with a validity mask
    [valid] *)
Definition masked_cube (valid : list nat → bool) : image :=
  mk_image
    (mk_summary ["Right Ascension"; "Declination"; "Stokes"; "Frequency"]
       ["rad"; "rad"; ""; "Hz"] [2; 2; 1; 3]%nat ["mask0"] [] [])
    cube_world (cube_pixel 1 3) valid.

(** an image and a model that both carry a validity mask: every pixel of
    the image is valid, no pixel of the model is *)
Definition masked_fs : gmap string node :=
  {[ "x.image" := ImageNode (masked_cube (fun _ => true));
     "x.model" := ImageNode (masked_cube (fun _ => false)) ]}.

(** * Properties *)

(** ** The Python and numpy models on small inputs *)

Example mgrid_ex : mgrid [2; 1; 3]%nat =
  [[0;0;0]; [0;0;1]; [0;0;2]; [1;0;0]; [1;0;1]; [1;0;2]]%nat.
Proof. reflexivity. Qed.

Example transpose_ex :
  transpose [1; 0]%nat (mk_nd [2; 3]%nat [1; 2; 3; 4; 5; 6])
  = Some (mk_nd [3; 2]%nat [1; 4; 2; 5; 3; 6]).
Proof. reflexivity. Qed.

Example concat_ex :
  concat_axis 1 (mk_nd [2; 2]%nat [1; 2; 3; 4]) (mk_nd [2; 1]%nat [9; 8])
  = ok (mk_nd [2; 3]%nat [1; 2; 9; 3; 4; 8]).
Proof. reflexivity. Qed.

Example item0_ex :
  (let* s := match take_slices [true; false] (mk_nd [2; 3]%nat [1; 2; 3; 4; 5; 6]) with
             | Some s => ok s | None => raise IndexError end in item0 s)
  = ok (mk_nd [1]%nat [1]).
Proof. reflexivity. Qed.

Example getchunk_ex :
  getchunk_of (fun idx => idx) [2; 5]%nat [-1; 4] [-1; 5]
  = ok (mk_nd [2; 1]%nat [[0; 4]; [1; 4]]%nat).
Proof. reflexivity. Qed.

Example parse_message_ex :
  parse_message ("Image name : x.image" +:+ String newline "Telescope  : VLA"
                 +:+ String newline "Date observation : 2000/04/23/01:44:04"
                 +:+ String newline "no colon here")
  = ok [("telescope", "vla"); ("date_observation", "2000/04/23/01")].
Proof. reflexivity. Qed.

(** the capital letters of Latin-1 have a lower-case form, the
    multiplication sign between them has none; the separators 28 to 31 and
    the no-break space are blanks *)
Example lower_ex :
  PyStr.lower (String (ascii_of_nat 192) (String (ascii_of_nat 215) "AZ"))
  = String (ascii_of_nat 224) (String (ascii_of_nat 215) "az").
Proof. reflexivity. Qed.

Example strip_ex :
  PyStr.strip (String (ascii_of_nat 28) (String (ascii_of_nat 160) "a b ")) = "a b".
Proof. reflexivity. Qed.

(** flattening keeps the scalars of the top level in place and moves what
    every dict flattens to behind them; below the top level the items stay
    in order *)
Example nested_to_record_ex :
  nested_to_record
    (SDict [("beams", SDict [("*0", SDict [("major", SInt 1);
                                            ("minor", SDict [("unit", SStr "arcsec")]);
                                            ("pa", SInt 3)])]);
            ("nChannels", SInt 4);
            ("spare", SDict [("q", SInt 9)]);
            ("nStokes", SInt 1)])
  = ok (FlatDict [("nChannels", SInt 4); ("nStokes", SInt 1);
                  ("beams.*0.major", SInt 1); ("beams.*0.minor.unit", SStr "arcsec");
                  ("beams.*0.pa", SInt 3); ("spare.q", SInt 9)]).
Proof. reflexivity. Qed.

(** a key that is the dotted path of an earlier leaf is overwritten by that
    leaf before its own turn comes: a number in its place cannot be
    flattened *)
Example nested_to_record_collision_ex :
  nested_to_record (SDict [("a", SDict [("b", SInt 1)]); ("a.b", SDict [("c", SInt 2)])])
  = raise TypeError.
Proof. reflexivity. Qed.

(** the command of the examples removes the paths named by the words of its
    text and what lies under them, and nothing else *)
Example rm_words_ex :
  rm_words "./o.zarr keep/"
    {[ "o.zarr" := OtherNode; "keep" := OtherNode; "keep//a" := OtherNode;
       "keeper" := OtherNode; "o.zarr keep" := OtherNode ]}
  = {[ "keeper" := OtherNode; "o.zarr keep" := OtherNode ]}.
Proof. vm_compute. reflexivity. Qed.

(** ** The exception monad *)

Lemma rbind_ok {A B} (m : res A) (k : A → res B) (b : B) :
  rbind m k = inr b → ∃ a, m = inr a ∧ k a = inr b.
Proof. destruct m as [e|a]; simpl; [discriminate | eauto]. Qed.

Ltac inv_ok H :=
  repeat match type of H with
  | rbind _ _ = inr _ =>
      let a := fresh "a" in let Ha := fresh "Ha" in
      apply rbind_ok in H as (a & Ha & H)
  | ok _ = inr _ => injection H as H
  | inr _ = inr _ => injection H as H
  | raise _ = inr _ => discriminate H
  | inl _ = inr _ => discriminate H
  end.

Lemma rmap_Forall2 {A B} (f : A → res B) l bs :
  rmap f l = inr bs → Forall2 (fun a b => f a = inr b) l bs.
Proof.
  revert bs; induction l as [|a l IH]; simpl; intros bs H.
  - inv_ok H. subst. constructor.
  - apply rbind_ok in H as (b & Hb & H).
    apply rbind_ok in H as (bs' & Hbs & H). inv_ok H. subst.
    constructor; auto.
Qed.

Lemma rmap_length {A B} (f : A → res B) l bs :
  rmap f l = inr bs → length bs = length l.
Proof.
  intros H. apply rmap_Forall2 in H. symmetry. eapply Forall2_length, H.
Qed.

Lemma rmap_total {A B} (f : A → res B) (g : A → B) l :
  Forall (fun a => f a = inr (g a)) l → rmap f l = inr (map g l).
Proof.
  induction 1 as [|a l Ha _ IH]; simpl; [reflexivity|].
  rewrite Ha. simpl. rewrite IH. reflexivity.
Qed.

Lemma rmap_dict_lookup {A B} (f : string → A → res B) (m : gmap string A) m' :
  rmap_dict f m = inr m' →
  ∀ k, match m !! k with
       | Some a => ∃ b, f k a = inr b ∧ m' !! k = Some b
       | None => m' !! k = None
       end.
Proof.
  unfold rmap_dict. intros H k.
  apply rbind_ok in H as (l & Hl & H). inv_ok H. subst m'.
  apply rmap_Forall2 in Hl.
  assert (Hfst : l.*1 = (map_to_list m).*1).
  { clear -Hl. induction Hl as [|[k a] [k' b] ? ? Hab _ IH]; simpl; [reflexivity|].
    simpl in Hab. apply rbind_ok in Hab as (b' & _ & Hab). inv_ok Hab.
    inversion Hab; subst. f_equal. exact IH. }
  assert (Hnd : NoDup l.*1) by (rewrite Hfst; apply NoDup_fst_map_to_list).
  destruct (m !! k) as [a|] eqn:Hk.
  - apply elem_of_map_to_list in Hk.
    apply list_elem_of_lookup in Hk as (i & Hi).
    destruct (Forall2_lookup_l _ _ _ _ _ Hl Hi) as ([k' b] & Hi' & Hab).
    simpl in Hab. apply rbind_ok in Hab as (b' & Hb' & Hab). inv_ok Hab.
    inversion Hab; subst. exists b. split; [assumption|].
    apply elem_of_list_to_map_1; [assumption|].
    apply list_elem_of_lookup. eauto.
  - apply not_elem_of_list_to_map_1. rewrite Hfst.
    intros Hin. apply list_elem_of_fmap in Hin as ([k' a] & -> & Hin).
    apply elem_of_map_to_list in Hin. simpl in Hk. congruence.
Qed.

(** ** Message parsing *)

Lemma split_nonempty sep s : ∃ f fs, PyStr.split sep s = f :: fs.
Proof.
  induction s as [|c r (f & fs & IH)]; simpl; [eauto|].
  destruct (Ascii.eqb c sep); [eauto|]. rewrite IH. eauto.
Qed.

Lemma split_cons sep c r :
  PyStr.split sep (String c r) =
  if Ascii.eqb c sep then EmptyString :: PyStr.split sep r
  else match PyStr.split sep r with
       | f :: fs => String c f :: fs
       | [] => [String c EmptyString]
       end.
Proof. reflexivity. Qed.

Lemma contains_cons p c r :
  PyStr.contains p (String c r) = PyStr.startswith p (String c r) || PyStr.contains p r.
Proof. reflexivity. Qed.

Lemma startswith_cons a p c r :
  PyStr.startswith (String a p) (String c r) = Ascii.eqb a c && PyStr.startswith p r.
Proof. reflexivity. Qed.

Lemma contains_colon_split s :
  PyStr.contains ": " s = true → ∃ a b r, PyStr.split ":" s = a :: b :: r.
Proof.
  induction s as [|c r IH]; [discriminate|].
  rewrite contains_cons, startswith_cons, split_cons.
  destruct (Ascii.eqb_spec c ":") as [->|Hc].
  - intros _. destruct (split_nonempty ":" r) as (f & fs & ->). eauto.
  - intros H. apply orb_true_iff in H as [H|H].
    + apply andb_true_iff in H as [H _].
      apply Ascii.eqb_eq in H. congruence.
    + destruct (IH H) as (a & b & r' & ->). eauto.
Qed.

Lemma parse_message_total msg : parse_message msg = ok (kept_pairs msg).
Proof.
  unfold parse_message, kept_pairs.
  rewrite (rmap_total line_pair
             (fun kk => (PyStr.replace " " "_" (PyStr.strip (default "" (kk !! 0%nat))),
                         PyStr.strip (default "" (kk !! 1%nat))))).
  - reflexivity.
  - apply List.Forall_forall. intros kk Hin. unfold msg_fields in Hin.
    apply in_map_iff in Hin as (line & <- & Hin).
    apply filter_In in Hin as [_ Hc].
    destruct (contains_colon_split _ Hc) as (a & b & r & ->). reflexivity.
Qed.

Lemma last_value_app k l1 l2 :
  last_value k (l1 ++ l2) =
  match last_value k l2 with
  | Some v => Some v
  | None => last_value k l1
  end.
Proof.
  unfold last_value. rewrite rev_app_distr.
  induction (rev l2) as [|p l IH]; simpl; [reflexivity|].
  destruct (String.eqb p.1 k); [reflexivity | exact IH].
Qed.

Lemma py_dict_fold_lookup (l : list (string * string)) (m : gmap string sval) k :
  foldl (fun m kv => <[kv.1 := kv.2]> m) m (map (fun ll => (ll.1, SStr ll.2)) l) !! k =
  match last_value k l with
  | Some v => Some (SStr v)
  | None => m !! k
  end.
Proof.
  revert m. induction l as [|p l IH]; intros m; simpl; [reflexivity|].
  rewrite IH. change (p :: l) with ([p] ++ l). rewrite last_value_app.
  destruct (last_value k l); [reflexivity|].
  unfold last_value. simpl.
  destruct (String.eqb_spec p.1 k) as [->|Hne]; simpl.
  - apply lookup_insert_eq.
  - by apply lookup_insert_ne.
Qed.

Lemma dict_update_lookup (d : gmap string sval) (l : list (string * string)) k :
  dict_update d (py_dict (map (fun ll => (ll.1, SStr ll.2)) l)) !! k =
  match last_value k l with
  | Some v => Some (SStr v)
  | None => d !! k
  end.
Proof.
  unfold dict_update, py_dict. rewrite lookup_union, py_dict_fold_lookup.
  destruct (last_value k l); simpl.
  - destruct (d !! k); reflexivity.
  - rewrite lookup_empty. destruct (d !! k); reflexivity.
Qed.

Lemma parse_messages_lookup msgs attrs :
  ∃ m, parse_messages msgs attrs = ok m ∧
       ∀ k, m !! k = match last_value k (flat_map kept_pairs msgs) with
                     | Some v => Some (SStr v)
                     | None => attrs !! k
                     end.
Proof.
  revert attrs. induction msgs as [|msg rest IH]; intros attrs; simpl.
  - exists attrs. split; [reflexivity|]. intros k. reflexivity.
  - rewrite parse_message_total. simpl.
    destruct (IH (dict_update attrs
                    (py_dict (map (fun ll => (ll.1, SStr ll.2)) (kept_pairs msg)))))
      as (m & Hm & Hk).
    exists m. split; [exact Hm|]. intros k.
    rewrite Hk, last_value_app, dict_update_lookup.
    destruct (last_value k (flat_map kept_pairs rest)); reflexivity.
Qed.

Lemma lower_char_colon x : Ascii.eqb (PyStr.lower_char x) ":" = Ascii.eqb x ":".
Proof. destruct x as [[] [] [] [] [] [] [] []]; reflexivity. Qed.

Lemma lower_char_newline x : Ascii.eqb (PyStr.lower_char x) newline = Ascii.eqb x newline.
Proof. destruct x as [[] [] [] [] [] [] [] []]; reflexivity. Qed.

Lemma lower_app a b : PyStr.lower (a +:+ b) = PyStr.lower a +:+ PyStr.lower b.
Proof. induction a as [|c a IH]; simpl; [reflexivity|]. by rewrite IH. Qed.

Lemma contains_char_cons c x r :
  PyStr.contains (String c "") (String x r)
  = Ascii.eqb c x || PyStr.contains (String c "") r.
Proof.
  rewrite contains_cons, startswith_cons. simpl.
  destruct r; by rewrite andb_true_r.
Qed.

Lemma lower_keeps_char c s :
  (∀ x, Ascii.eqb (PyStr.lower_char x) c = Ascii.eqb x c) →
  PyStr.contains (String c "") (PyStr.lower s) = PyStr.contains (String c "") s.
Proof.
  intros Hc. induction s as [|x r IH]; [reflexivity|].
  simpl PyStr.lower. rewrite !contains_char_cons, IH.
  rewrite (Ascii.eqb_sym c (PyStr.lower_char x)), Hc, (Ascii.eqb_sym x c). reflexivity.
Qed.

Lemma split_no_sep sep s :
  PyStr.contains (String sep "") s = false → PyStr.split sep s = [s].
Proof.
  induction s as [|x r IH]; [reflexivity|].
  rewrite contains_char_cons, split_cons. intros H.
  apply orb_false_iff in H as [Hx Hr]. rewrite Ascii.eqb_sym, Hx, (IH Hr). reflexivity.
Qed.

Lemma split_app_sep sep a b :
  PyStr.contains (String sep "") a = false →
  PyStr.split sep (a +:+ String sep b) = a :: PyStr.split sep b.
Proof.
  induction a as [|x r IH]; intros H.
  - simpl. by rewrite Ascii.eqb_refl.
  - rewrite contains_char_cons in H. apply orb_false_iff in H as [Hx Hr].
    change (String x r +:+ String sep b) with (String x (r +:+ String sep b)).
    rewrite split_cons, Ascii.eqb_sym, Hx, (IH Hr). reflexivity.
Qed.

Lemma startswith_app p b : PyStr.startswith p (p +:+ b) = true.
Proof.
  induction p as [|c p IH]; [by destruct b|].
  change (String c p +:+ b) with (String c (p +:+ b)).
  rewrite startswith_cons, Ascii.eqb_refl, IH. reflexivity.
Qed.

Lemma contains_app p a b : PyStr.contains p (a +:+ p +:+ b) = true.
Proof.
  induction a as [|x r IH].
  - change ("" +:+ p +:+ b) with (p +:+ b).
    destruct (p +:+ b) eqn:E; simpl; rewrite <- E, startswith_app; reflexivity.
  - change (String x r +:+ p +:+ b) with (String x (r +:+ p +:+ b)).
    rewrite contains_cons, IH. apply orb_true_r.
Qed.

Lemma split_first_app sep a b :
  PyStr.contains (String sep "") a = false →
  split_first sep (a +:+ String sep b) = Some (a, b).
Proof.
  induction a as [|x r IH]; intros H.
  - simpl. by rewrite Ascii.eqb_refl.
  - rewrite contains_char_cons in H. apply orb_false_iff in H as [Hx Hr].
    change (String x r +:+ String sep b) with (String x (r +:+ String sep b)).
    simpl. rewrite Ascii.eqb_sym, Hx, (IH Hr). reflexivity.
Qed.

Lemma lstrip_no_space s c r : PyStr.lstrip s = String c r → PyStr.is_space c = false.
Proof.
  induction s as [|x s IH]; simpl; [discriminate|].
  destruct (PyStr.is_space x) eqn:Hx; [exact IH|].
  intros H. injection H as <- _. exact Hx.
Qed.

Lemma rstrip_head s c r :
  PyStr.rstrip s = String c r → ∃ r', s = String c r'.
Proof.
  destruct s as [|x s]; simpl; [discriminate|].
  destruct (PyStr.rstrip s); [destruct (PyStr.is_space x); [discriminate|]|];
    intros H; injection H as <- _; eauto.
Qed.

(** what [strip] returns does not begin with a blank *)
Lemma strip_no_leading_space s r : PyStr.strip s ≠ String " " r.
Proof.
  unfold PyStr.strip. intros H.
  apply rstrip_head in H as (r' & H). apply lstrip_no_space in H. discriminate.
Qed.
(** C8, where the code departs from the claim: of a message line
    [label: value:rest] the code keeps, as the value, only the text between
    the first and the second colon, lower-cased and trimmed, while the line
    cut at its first colon has the whole text after that colon as its
    value.  Whatever follows a second colon is lost. *)
Theorem value_cut_at_second_colon (label value rest : string)
    (attrs : gmap string sval) :
  PyStr.contains ":" label = false →
  PyStr.contains (String newline "") label = false →
  PyStr.contains ":" value = false →
  PyStr.contains (String newline "") value = false →
  PyStr.contains (String newline "") rest = false →
  PyStr.replace " " "_" (PyStr.strip (PyStr.lower label)) ∉ msg_omits →
  parse_messages [label +:+ ": " +:+ value +:+ ":" +:+ rest] attrs
  = ok (<[PyStr.replace " " "_" (PyStr.strip (PyStr.lower label))
          := SStr (PyStr.strip (PyStr.lower (" " +:+ value)))]> attrs) ∧
  split_first ":" (label +:+ ": " +:+ value +:+ ":" +:+ rest)
  = Some (label, " " +:+ value +:+ ":" +:+ rest) ∧
  PyStr.strip (PyStr.lower (" " +:+ value)) ≠ " " +:+ value +:+ ":" +:+ rest.
Proof.
  intros Hl Hln Hv Hvn Hrn Hkey.
  split; [|split].
  - assert (Hlow : PyStr.lower (label +:+ ": " +:+ value +:+ ":" +:+ rest)
                   = PyStr.lower label +:+ ": " +:+ PyStr.lower value +:+ ":"
                     +:+ PyStr.lower rest).
    { rewrite !lower_app. reflexivity. }
    assert (Hnl : PyStr.contains (String newline "")
                    (PyStr.lower (label +:+ ": " +:+ value +:+ ":" +:+ rest)) = false).
    { rewrite (lower_keeps_char _ _ lower_char_newline).
      clear -Hln Hvn Hrn.
      induction label as [|x l IH].
      - change ("" +:+ ": " +:+ value +:+ ":" +:+ rest)
          with (String ":" (String " " (value +:+ ":" +:+ rest))).
        rewrite !contains_char_cons. simpl orb.
        induction value as [|y v IHv].
        + change ("" +:+ ":" +:+ rest) with (String ":" rest).
          rewrite contains_char_cons. exact Hrn.
        + change (String y v +:+ ":" +:+ rest) with (String y (v +:+ ":" +:+ rest)).
          rewrite contains_char_cons in Hvn |- *.
          apply orb_false_iff in Hvn as [Hy Hvn]. rewrite Hy. simpl. by apply IHv.
      - change (String x l +:+ ": " +:+ value +:+ ":" +:+ rest)
          with (String x (l +:+ ": " +:+ value +:+ ":" +:+ rest)).
        rewrite contains_char_cons in Hln |- *.
        apply orb_false_iff in Hln as [Hx Hln]. rewrite Hx. simpl. by apply IH. }
    assert (Hfields : msg_fields (label +:+ ": " +:+ value +:+ ":" +:+ rest)
                      = [PyStr.lower label :: (" " +:+ PyStr.lower value)
                           :: PyStr.split ":" (PyStr.lower rest)]).
    { unfold msg_fields. rewrite (split_no_sep _ _ Hnl). simpl List.filter.
      rewrite Hlow at 1. rewrite contains_app. simpl map. rewrite Hlow.
      change (PyStr.lower label +:+ ": " +:+ PyStr.lower value +:+ ":" +:+ PyStr.lower rest)
        with (PyStr.lower label +:+ String ":" ((" " +:+ PyStr.lower value)
                +:+ String ":" (PyStr.lower rest))).
      rewrite split_app_sep by (by rewrite (lower_keeps_char _ _ lower_char_colon)).
      rewrite split_app_sep; [reflexivity|].
      change (" " +:+ PyStr.lower value) with (String " " (PyStr.lower value)).
      rewrite contains_char_cons. simpl orb.
      by rewrite (lower_keeps_char _ _ lower_char_colon). }
    simpl parse_messages. rewrite parse_message_total. unfold kept_pairs.
    rewrite Hfields. simpl map. simpl List.filter.
    rewrite bool_decide_eq_false_2 by exact Hkey. simpl.
    unfold dict_update, py_dict. simpl foldl. f_equal.
    rewrite insert_empty, <- insert_union_singleton_l.
    change (" " +:+ PyStr.lower value) with (PyStr.lower (" " +:+ value)). reflexivity.
  - change (label +:+ ": " +:+ value +:+ ":" +:+ rest)
      with (label +:+ String ":" (" " +:+ value +:+ ":" +:+ rest)).
    by apply split_first_app.
  - apply strip_no_leading_space.
Qed.

(** on the date of an observation: the code keeps the text up to the
    second colon, where the rule the specification words, a cut at the
    first colon, keeps everything after it *)
Lemma messages_not_cut_at_first_colon :
  parse_messages ["Date: 2000/04/23/01:44:04"] ∅
    = ok {[ "date" := SStr "2000/04/23/01" ]} ∧
  spec_parse_messages ["Date: 2000/04/23/01:44:04"] ∅ !! "date"
    = Some (SStr " 2000/04/23/01:44:04") ∧
  parse_messages ["Date: 2000/04/23/01:44:04"] ∅
    ≠ ok (spec_parse_messages ["Date: 2000/04/23/01:44:04"] ∅).
Proof.
  assert (H1 : parse_messages ["Date: 2000/04/23/01:44:04"] ∅
               = ok {[ "date" := SStr "2000/04/23/01" ]}).
  { vm_compute. reflexivity. }
  assert (H2 : spec_parse_messages ["Date: 2000/04/23/01:44:04"] ∅ !! "date"
               = Some (SStr " 2000/04/23/01:44:04")).
  { vm_compute. reflexivity. }
  split; [exact H1|]. split; [exact H2|].
  rewrite H1. intros Heq.
  pose proof (f_equal (fun r : res (gmap string sval) =>
                         match r with inr m => m !! "date" | inl _ => None end) Heq) as H3.
  cbv beta iota delta [ok] in H3.
  rewrite H2, lookup_singleton_eq in H3. discriminate.
Qed.

(** ** Assembling a record *)

Lemma xd_spec xdas coords attrs ds :
  xd xdas coords attrs = inr ds →
  data_vars ds = xdas ∧ ds_attrs ds = attrs ∧
  ∀ k, match coords !! k with
       | Some c => ∃ v, coord_variable k c = inr v ∧ ds_coords ds !! k = Some v
       | None => ds_coords ds !! k = None
       end.
Proof.
  unfold xd. intros H. apply rbind_ok in H as (cvars & Hc & H).
  destruct (sizes_consistent _); inv_ok H. subst ds. simpl.
  split; [reflexivity|]. split; [reflexivity|].
  exact (rmap_dict_lookup _ _ _ Hc).
Qed.

Lemma ds_chunk_spec chunking ds ds' :
  ds_chunk chunking ds = inr ds' →
  data_vars ds' = data_vars ds ∧ ds_coords ds' = ds_coords ds ∧
  ds_attrs ds' = ds_attrs ds.
Proof.
  unfold ds_chunk. destruct (forallb _ _); intros H; inv_ok H.
  subst ds'. simpl. auto.
Qed.

Lemma ds_transpose_spec dims ds ds' :
  ds_transpose dims ds = inr ds' →
  ds_attrs ds' = ds_attrs ds ∧
  moved_all (Some dims) (data_vars ds) (data_vars ds') ∧
  moved_all (Some dims) (ds_coords ds) (ds_coords ds').
Proof.
  unfold ds_transpose. destruct (_ && _); intros H; [|discriminate].
  apply rbind_ok in H as (vars & Hv & H).
  apply rbind_ok in H as (cvars & Hc & H). inv_ok H. subst ds'. simpl.
  split; [reflexivity|].
  split; intros k.
  - pose proof (rmap_dict_lookup _ _ _ Hv k) as Hk.
    destruct (data_vars ds !! k); [|exact Hk].
    destruct Hk as (b & Hb & Hl). exists b. split; assumption.
  - pose proof (rmap_dict_lookup _ _ _ Hc k) as Hk.
    destruct (ds_coords ds !! k); [|exact Hk].
    destruct Hk as (b & Hb & Hl). exists b. split; assumption.
Qed.

Lemma moved_all_None m : moved_all None m m.
Proof. intros k. destruct (m !! k); eauto. exists v. split; reflexivity. Qed.

Lemma reorder_spec xds xds' :
  reorder xds = inr xds' →
  ds_attrs xds' = ds_attrs xds ∧
  ∃ o, moved_all o (data_vars xds) (data_vars xds') ∧
       moved_all o (ds_coords xds) (ds_coords xds') ∧
       ("pol" ∈ ds_dims xds →
        ∃ image a0 a1, ds_getattr "image" xds = inr image ∧
                       vdims image !! 0%nat = Some a0 ∧ vdims image !! 1%nat = Some a1 ∧
                       o = Some [a0; a1; "chan"; "pol"]).
Proof.
  unfold reorder. case_bool_decide as Hpol; intros H.
  - apply rbind_ok in H as (image & Hi & H).
    apply rbind_ok in H as (a0 & H0 & H).
    apply rbind_ok in H as (a1 & H1 & H).
    apply ds_transpose_spec in H as (Ha & Hv & Hc).
    split; [exact Ha|]. exists (Some [a0; a1; "chan"; "pol"]).
    split; [exact Hv|]. split; [exact Hc|]. intros _.
    exists image, a0, a1. unfold getitem in H0, H1.
    destruct (vdims image !! 0%nat); [|discriminate].
    destruct (vdims image !! 1%nat); [|discriminate].
    inv_ok H0. inv_ok H1. subst. auto.
  - inv_ok H. subst xds'. split; [reflexivity|]. exists None.
    split; [apply moved_all_None|]. split; [apply moved_all_None|].
    intros Hin. contradiction.
Qed.

Lemma assemble_spec e fs chan xds :
  assemble e fs chan = inr xds →
  ∃ pt1 pt2 xdas o,
    list_setitem (replicate (length (e_dsize e)) (-1)) (e_chan_dim e) (Z.of_nat chan)
      = inr pt1 ∧
    list_setitem (replicate (length (e_dsize e)) (-1)) (e_chan_dim e)
      (Z.of_nat chan + Z.of_nat (e_chan_batch e) - 1) = inr pt2 ∧
    read_artifacts fs (e_prefix e) (e_dims e) pt1 pt2 (e_imtypes e) ∅ = inr xdas ∧
    ds_attrs xds = e_attrs e ∧
    moved_all o xdas (data_vars xds) ∧
    (∃ cvars, (∀ k, match chunk_coords_of (e_coords e) chan (e_chan_batch e) !! k with
                    | Some c => ∃ v, coord_variable k c = inr v ∧ cvars !! k = Some v
                    | None => cvars !! k = None
                    end) ∧
              moved_all o cvars (ds_coords xds) ∧
              ("pol" ∈ (all_sizes xdas cvars).*1 →
               ∃ image a0 a1,
                 (xdas !! "image" = Some image ∨
                  xdas !! "image" = None ∧ cvars !! "image" = Some image) ∧
                 vdims image !! 0%nat = Some a0 ∧ vdims image !! 1%nat = Some a1 ∧
                 o = Some [a0; a1; "chan"; "pol"])).
Proof.
  unfold assemble. intros H.
  apply rbind_ok in H as (pt1 & H1 & H).
  apply rbind_ok in H as (pt2 & H2 & H).
  apply rbind_ok in H as (xdas & Hx & H).
  apply rbind_ok in H as (chunking & _ & H).
  apply rbind_ok in H as (xds0 & Hd & H).
  apply rbind_ok in H as (xds1 & Hc & H).
  apply xd_spec in Hd as (Hdv & Hda & Hdc).
  apply ds_chunk_spec in Hc as (Hcv & Hcc & Hca).
  apply reorder_spec in H as (Ha & o & Hv & Hco & Hpol).
  exists pt1, pt2, xdas, o.
  split; [exact H1|]. split; [exact H2|]. split; [exact Hx|].
  split; [congruence|].
  split; [rewrite <- Hdv, <- Hcv; exact Hv|].
  exists (ds_coords xds0).
  split; [exact Hdc|]. split; [rewrite <- Hcc; exact Hco|].
  intros Hin. destruct Hpol as (image & a0 & a1 & Hi & H0 & H1' & Ho).
  { unfold ds_dims. rewrite Hcv, Hcc, Hdv. exact Hin. }
  exists image, a0, a1. split; [|auto].
  unfold ds_getattr in Hi. rewrite Hcv, Hcc, Hdv in Hi.
  destruct (xdas !! "image") eqn:Him.
  - inv_ok Hi. subst. auto.
  - right. split; [reflexivity|].
    destruct (ds_coords xds0 !! "image"); simpl in Hi; inv_ok Hi.
    subst. reflexivity.
Qed.

(** ** Variables of a batch *)

Lemma xa_spec d dims v : xa d dims = inr v → v = mk_var dims d ∧ length dims = length (vd_shape d).
Proof. unfold xa. case_decide as Hd; intros H; inv_ok H. auto. Qed.





Lemma transpose_var_small dims v v' :
  transpose_var dims v = inr v' →
  (length (vd_shape (vdata v)) ≤ 1)%nat → v' = v.
Proof.
  unfold transpose_var. intros H Hlen.
  apply rbind_ok in H as (axes & Hax & H).
  apply rmap_length in Hax.
  destruct (Nat.ltb_spec (length (List.filter (fun d => bool_decide (d ∈ vdims v)) dims)) 2)
    as [Hlt|Hge].
  - inv_ok H. congruence.
  - exfalso. apply rbind_ok in H as (d & Hd & _).
    unfold vd_transpose, np_transpose in Hd.
    destruct (vdata v) as [a|a]; simpl in Hlen;
      apply rbind_ok in Hd as (r & Hr & _);
      case_decide as Hc; try discriminate;
      destruct Hc as (Hc & _); unfold ndim in Hc; lia.
Qed.

Lemma transpose_var_kind dims v v' :
  transpose_var dims v = inr v' →
  match vdata v with
  | NumData _ => ∃ a, vdata v' = NumData a
  | BoolData _ => ∃ b, vdata v' = BoolData b
  end.
Proof.
  unfold transpose_var. intros H.
  apply rbind_ok in H as (axes & _ & H).
  destruct (_ <? _)%nat.
  - inv_ok H. subst v'. destruct (vdata v); eauto.
  - apply rbind_ok in H as (d & Hd & H). inv_ok H. subst v'. simpl.
    unfold vd_transpose in Hd.
    destruct (vdata v); apply rbind_ok in Hd as (r & _ & Hd); inv_ok Hd; subst; eauto.
Qed.

(** C5, as amended: in the record of every batch the channel coordinate is
    the run of the batch's integer channel numbers, [chan] up to
    [chan + chan_batch - 1], along the dimension [chan]; every other
    coordinate of the record is the one of the reference metadata under the
    same name (laid out in the order of the record's dimensions), and the
    record has no coordinate the reference lacks. *)
Theorem batch_coords_frame (e : batch_env) (fs : gmap string node) (chan : nat)
    (xds : dataset) :
  assemble e fs chan = inr xds →
  ds_coords xds !! "chan"
    = Some (mk_var ["chan"] (NumData (arange_from (Z.of_nat chan) (e_chan_batch e)))) ∧
  ∃ o, ∀ k, k ≠ "chan" →
    match e_coords e !! k with
    | Some c => ∃ v v', coord_variable k c = inr v ∧ moved o v v' ∧
                        ds_coords xds !! k = Some v'
    | None => ds_coords xds !! k = None
    end.
Proof.
  intros H. apply assemble_spec in H
    as (pt1 & pt2 & xdas & o & _ & _ & _ & _ & _ & cvars & Hc & Hm & _).
  split.
  - pose proof (Hc "chan") as Hk. unfold chunk_coords_of in Hk.
    rewrite lookup_insert_eq in Hk. destruct Hk as (v & Hv & Hl).
    simpl in Hv. inv_ok Hv. subst v.
    pose proof (Hm "chan") as Hk. rewrite Hl in Hk.
    destruct Hk as (v' & Hmv & Hl'). rewrite Hl'. f_equal.
    destruct o as [dims|]; simpl in Hmv; [|exact Hmv].
    eapply transpose_var_small; [exact Hmv|]. simpl. lia.
  - exists o. intros k Hne.
    pose proof (Hc k) as Hk. unfold chunk_coords_of in Hk.
    rewrite lookup_insert_ne in Hk by congruence.
    pose proof (Hm k) as Hk'.
    destruct (e_coords e !! k) as [c|].
    + destruct Hk as (v & Hv & Hl). rewrite Hl in Hk'.
      destruct Hk' as (v' & Hmv & Hl'). eauto.
    + rewrite Hk in Hk'. exact Hk'.
Qed.

(** ** Arrays by index *)

Lemma flat_map_const_length {A B} (f : A → list B) (l : list A) k :
  (∀ x, length (f x) = k) → length (flat_map f l) = (length l * k)%nat.
Proof.
  intros Hf. induction l as [|a l IH]; simpl; [reflexivity|].
  rewrite length_app, Hf, IH. reflexivity.
Qed.

Lemma mgrid_length sh : length (mgrid sh) = size sh.
Proof.
  induction sh as [|n r IH]; simpl; [reflexivity|].
  rewrite (flat_map_const_length _ _ (length (mgrid r))).
  - rewrite length_seq, IH. reflexivity.
  - intros x. apply length_map.
Qed.












(** ** The mask artifact *)

Lemma ia_open_art fs prefix t im :
  ia_open fs (prefix +:+ "." +:+ t) = inr im → art_image fs prefix t = Some im.
Proof.
  unfold ia_open, art_image. destruct (fs !! _) as [[im'| |]|]; intros H; inv_ok H.
  congruence.
Qed.

Lemma read_artifact_mask fs prefix dims pt1 pt2 xdas xdas' :
  read_artifact fs prefix dims pt1 pt2 xdas "mask" = inr xdas' →
  ∃ im imchunk,
    art_image fs prefix "mask" = Some im ∧ getchunk im pt1 pt2 = inr imchunk ∧
    xdas' !! "deconvolve"
      = Some (mk_var dims (BoolData (amap (fun p => negb (p =? 0)) imchunk))).
Proof.
  unfold read_artifact. intros H.
  apply rbind_ok in H as (im & Him & H).
  apply rbind_ok in H as (imchunk & Hch & H).
  change (String.eqb "mask" "fits") with false in H. cbv iota in H.
  change (String.eqb "mask" "mask") with true in H. cbv iota in H.
  apply rbind_ok in H as (xdas1 & H1 & H).
  apply rbind_ok in H1 as (v & Hv & H1). inv_ok H1. subst xdas1.
  apply xa_spec in Hv as [-> _].
  exists im, imchunk. split; [by apply ia_open_art|]. split; [exact Hch|].
  destruct (_ <? _)%nat.
  - apply rbind_ok in H as (mchunk & _ & H).
    apply rbind_ok in H as (v & _ & H). inv_ok H. subst xdas'.
    rewrite lookup_insert_ne by discriminate. apply lookup_insert_eq.
  - inv_ok H. subst xdas'. apply lookup_insert_eq.
Qed.

Lemma read_artifact_keeps fs prefix dims pt1 pt2 xdas imtype xdas' :
  read_artifact fs prefix dims pt1 pt2 xdas imtype = inr xdas' →
  imtype ≠ "mask" → imtype ≠ "deconvolve" →
  xdas' !! "deconvolve" = xdas !! "deconvolve".
Proof.
  unfold read_artifact. intros H Hm Hd.
  apply rbind_ok in H as (im & Him & H).
  apply rbind_ok in H as (imchunk & Hch & H).
  set (name := if String.eqb imtype "fits" then "image" else imtype) in *.
  assert (Hn1 : name ≠ "deconvolve").
  { subst name. destruct (String.eqb imtype "fits"); [discriminate | exact Hd]. }
  assert (Hn2 : String.eqb name "mask" = false).
  { subst name. destruct (String.eqb imtype "fits"); [reflexivity|].
    by apply String.eqb_neq. }
  rewrite Hn2 in H.
  apply rbind_ok in H as (xdas1 & H1 & H).
  assert (Hk : xdas1 !! "deconvolve" = xdas !! "deconvolve").
  { destruct (String.eqb name "sumwt").
    - apply rbind_ok in H1 as (n & _ & H1).
      apply rbind_ok in H1 as (r & _ & H1).
      apply rbind_ok in H1 as (v & _ & H1). inv_ok H1. subst xdas1.
      by apply lookup_insert_ne.
    - apply rbind_ok in H1 as (v & _ & H1). inv_ok H1. subst xdas1.
      by apply lookup_insert_ne. }
  destruct (_ <? _)%nat.
  - apply rbind_ok in H as (mchunk & _ & H).
    apply rbind_ok in H as (v & _ & H). inv_ok H. subst xdas'.
    rewrite lookup_insert_ne by discriminate. exact Hk.
  - inv_ok H. subst xdas'. exact Hk.
Qed.

Lemma read_artifacts_mask fs prefix dims pt1 pt2 imtypes xdas xdas' :
  read_artifacts fs prefix dims pt1 pt2 imtypes xdas = inr xdas' →
  "deconvolve" ∉ imtypes →
  ("mask" ∈ imtypes →
   ∃ im imchunk,
     art_image fs prefix "mask" = Some im ∧ getchunk im pt1 pt2 = inr imchunk ∧
     xdas' !! "deconvolve"
       = Some (mk_var dims (BoolData (amap (fun p => negb (p =? 0)) imchunk)))) ∧
  ("mask" ∉ imtypes → xdas' !! "deconvolve" = xdas !! "deconvolve").
Proof.
  revert xdas. induction imtypes as [|t rest IH]; simpl; intros xdas H Hd.
  - inv_ok H. subst. split; [|reflexivity]. intros Hin. by apply elem_of_nil in Hin.
  - apply rbind_ok in H as (xdas1 & H1 & H).
    apply not_elem_of_cons in Hd as [Hd Hdr].
    destruct (IH _ H Hdr) as [IHin IHout].
    split.
    + intros Hin. destruct (decide ("mask" ∈ rest)) as [Hr|Hr]; [by apply IHin|].
      apply elem_of_cons in Hin as [<-|Hin]; [|contradiction].
      apply read_artifact_mask in H1 as (im & imchunk & Him & Hch & Hl).
      exists im, imchunk. split; [exact Him|]. split; [exact Hch|].
      rewrite IHout by assumption. exact Hl.
    + intros Hnin. apply not_elem_of_cons in Hnin as [Hm Hr].
      rewrite IHout by assumption.
      eapply read_artifact_keeps; eauto.
Qed.

(** C7, as amended: in the record of every batch for which no artifact
    type is itself named [deconvolve], the artifact of type [mask] is the
    variable named [deconvolve] (a name other than [mask]); that variable is
    boolean, and it is the chunk of the artifact's pixels for the batch with
    every pixel replaced by whether it differs from zero (laid out in the
    order of the record's dimensions). *)
Theorem mask_is_boolean_deconvolve (e : batch_env) (fs : gmap string node)
    (chan : nat) (xds : dataset) :
  assemble e fs chan = inr xds →
  "mask" ∈ e_imtypes e → "deconvolve" ∉ e_imtypes e →
  ∃ im pt1 pt2 imchunk b o v',
    art_image fs (e_prefix e) "mask" = Some im ∧
    list_setitem (replicate (length (e_dsize e)) (-1)) (e_chan_dim e) (Z.of_nat chan)
      = inr pt1 ∧
    list_setitem (replicate (length (e_dsize e)) (-1)) (e_chan_dim e)
      (Z.of_nat chan + Z.of_nat (e_chan_batch e) - 1) = inr pt2 ∧
    getchunk im pt1 pt2 = inr imchunk ∧
    shape b = shape imchunk ∧
    (∀ i, data b !! i = (fun p => bool_decide (p ≠ 0)) <$> data imchunk !! i) ∧
    moved o (mk_var (e_dims e) (BoolData b)) v' ∧
    data_vars xds !! "deconvolve" = Some v' ∧
    (∃ b', vdata v' = BoolData b') ∧
    "deconvolve" ≠ "mask".
Proof.
  intros H Hm Hd. apply assemble_spec in H
    as (pt1 & pt2 & xdas & o & H1 & H2 & Hx & _ & Hv & _).
  destruct (read_artifacts_mask _ _ _ _ _ _ _ _ Hx Hd) as [Hin _].
  destruct (Hin Hm) as (im & imchunk & Him & Hch & Hl).
  pose proof (Hv "deconvolve") as Hk. rewrite Hl in Hk.
  destruct Hk as (v' & Hmv & Hl').
  exists im, pt1, pt2, imchunk, (amap (fun p => negb (p =? 0)) imchunk), o, v'.
  split; [exact Him|]. split; [exact H1|]. split; [exact H2|].
  split; [exact Hch|]. split; [reflexivity|].
  split.
  { intros i. simpl. rewrite list_lookup_fmap.
    destruct (data imchunk !! i) as [p|]; simpl; [|reflexivity].
    f_equal. case_bool_decide as Hp.
    - apply negb_true_iff, Z.eqb_neq. exact Hp.
    - apply negb_false_iff, Z.eqb_eq.
      destruct (decide (p = 0)); [assumption | contradiction]. }
  split; [exact Hmv|]. split; [exact Hl'|].
  split; [|discriminate].
  destruct o as [dims|]; simpl in Hmv.
  - apply transpose_var_kind in Hmv. exact Hmv.
  - subst v'. simpl. eauto.
Qed.

(** ** Discovery *)

Lemma alter_last {A} (f : A → A) (h : list A) (d : A) :
  alter f (length h) (h ++ [d]) = h ++ [f d].
Proof. induction h as [|x h IH]; simpl; [reflexivity|]. f_equal. exact IH. Qed.

Lemma update_messages_spec msgs h d d' :
  parse_messages msgs d = inr d' →
  update_messages msgs (length h) (h ++ [d]) = inr (h ++ [d']).
Proof.
  revert d. induction msgs as [|msg rest IH]; simpl; intros d H.
  - inv_ok H. subst. reflexivity.
  - apply rbind_ok in H as (line & Hl & H). rewrite Hl. simpl.
    rewrite alter_last. apply IH. exact H.
Qed.

Lemma update_messages_inv msgs h d h' :
  update_messages msgs (length h) (h ++ [d]) = inr h' →
  ∃ d', parse_messages msgs d = inr d' ∧ h' = h ++ [d'].
Proof.
  destruct (parse_messages_lookup msgs d) as (d' & Hd & _).
  intros H. exists d'. split; [exact Hd|].
  rewrite (update_messages_spec _ _ _ _ Hd) in H. inv_ok H. congruence.
Qed.

Lemma any_ne_refl a : any_ne a a = false.
Proof.
  unfold any_ne. rewrite decide_True by reflexivity.
  induction a as [|x a IH]; simpl; [reflexivity|].
  rewrite Nat.eqb_refl. exact IH.
Qed.


(** the step on a type whose file is missing *)
Lemma discover_step_absent fs prefix st t :
  present fs prefix t = false →
  discover_step fs prefix st t
  = ok (mk_dstate (heap st) (tm st) (meta st) (remove_type t (imtypes st))
          (diftypes st) (difmeta st)).
Proof. unfold present, discover_step. intros ->. reflexivity. Qed.

(** the step on a type whose file exists *)
Lemma discover_step_present fs prefix st t st' :
  present fs prefix t = true →
  discover_step fs prefix st t = inr st' →
  ∃ im r A,
    art_image fs prefix t = Some im ∧ resolve_coords im = inr r ∧
    normalize_attrs (im_summary im) = inr A ∧
    heap st' = heap st ++ [A] ∧
    tm st' = Some (mk_tm (r_coords r) (ia_shape im) (r_dims r) (length (heap st))) ∧
    match meta st with
    | None => meta st' = tm st' ∧ imtypes st' = imtypes st ∧ diftypes st' = diftypes st
    | Some m =>
        meta st' = Some m ∧
        if any_ne (t_dsize m) (ia_shape im) && negb (String.eqb t "sumwt")
        then imtypes st' = remove_type t (imtypes st) ∧ diftypes st' = diftypes st ++ [t]
        else imtypes st' = imtypes st ∧ diftypes st' = diftypes st
    end.
Proof.
  unfold present, discover_step. intros -> H.
  apply rbind_ok in H as (im & Him & H).
  apply rbind_ok in H as (r & Hr & H).
  apply rbind_ok in H as (attrs & Hat & H).
  apply rbind_ok in H as (h & Hh & H).
  apply update_messages_inv in Hh as (A & HA & ->).
  exists im, r, A. split; [by apply ia_open_art|]. split; [exact Hr|].
  split; [unfold normalize_attrs; rewrite Hat; exact HA|].
  destruct (meta st) as [m|] eqn:Hm.
  - unfold ia_shape. destruct (_ && _); inv_ok H; subst st'; simpl; auto.
  - inv_ok H. subst st'. simpl. auto.
Qed.

Lemma present_art_image fs prefix t im :
  art_image fs prefix t = Some im → present fs prefix t = true.
Proof.
  unfold art_image, present, path_exists. intros H.
  apply bool_decide_eq_true_2. destruct (fs !! _); [eauto | discriminate].
Qed.

Lemma absent_art_shape fs prefix t :
  present fs prefix t = false → art_shape fs prefix t = None.
Proof.
  unfold art_shape. destruct (art_image fs prefix t) as [im|] eqn:H; [|reflexivity].
  apply present_art_image in H. congruence.
Qed.

Lemma compatible_absent fs prefix ref t :
  present fs prefix t = false → compatible_with fs prefix ref t = false.
Proof. intros H. unfold compatible_with. by rewrite absent_art_shape. Qed.

Lemma incompatible_absent fs prefix ref t :
  present fs prefix t = false → incompatible_with fs prefix ref t = false.
Proof. intros H. unfold incompatible_with. by rewrite absent_art_shape. Qed.

Lemma compatible_image fs prefix ref t im :
  art_image fs prefix t = Some im →
  compatible_with fs prefix ref t
  = negb (any_ne ref (ia_shape im)) || String.eqb t "sumwt".
Proof. intros H. unfold compatible_with, art_shape. by rewrite H. Qed.

Lemma incompatible_image fs prefix ref t im :
  art_image fs prefix t = Some im →
  incompatible_with fs prefix ref t
  = any_ne ref (ia_shape im) && negb (String.eqb t "sumwt").
Proof. intros H. unfold incompatible_with, art_shape. by rewrite H. Qed.

Lemma survives_cons fs prefix ref t rest x :
  survives fs prefix ref (t :: rest) x
  = (negb (String.eqb x t) || compatible_with fs prefix ref t)
    && survives fs prefix ref rest x.
Proof. reflexivity. Qed.

Lemma remove_type_filter t l (p : string → bool) :
  List.filter p (remove_type t l)
  = List.filter (fun x => negb (String.eqb x t) && p x) l.
Proof.
  unfold remove_type. induction l as [|x l IH]; simpl; [reflexivity|].
  destruct (String.eqb x t); simpl; [exact IH|].
  destruct (p x); simpl; congruence.
Qed.

(** the loop once the reference is known *)
Lemma discover_loop_after fs prefix todo st st' m :
  discover_loop fs prefix todo st = inr st' →
  meta st = Some m →
  meta st' = Some m ∧
  (∃ h, heap st' = heap st ++ h) ∧
  imtypes st' = List.filter (survives fs prefix (t_dsize m) todo) (imtypes st) ∧
  diftypes st' = diftypes st ++ List.filter (incompatible_with fs prefix (t_dsize m)) todo.
Proof.
  revert st. induction todo as [|t rest IH]; simpl; intros st H Hm.
  - inv_ok H. subst st'. split; [exact Hm|]. split; [exists []; by rewrite app_nil_r|].
    split; [|by rewrite app_nil_r].
    unfold survives. simpl. induction (imtypes st) as [|x l IHl]; simpl; congruence.
  - apply rbind_ok in H as (st1 & H1 & H).
    destruct (present fs prefix t) eqn:Hp.
    + destruct (discover_step_present _ _ _ _ _ Hp H1)
        as (im & r & A & Him & _ & _ & Hh & _ & Hmeta).
      rewrite Hm in Hmeta. destruct Hmeta as (Hm1 & Hcase).
      destruct (IH _ H Hm1) as (Hm' & (h & Hh') & Hi & Hd).
      split; [exact Hm'|]. split; [exists ([A] ++ h); by rewrite Hh', Hh, <- app_assoc|].
      rewrite (incompatible_image _ _ _ _ _ Him).
      destruct (any_ne (t_dsize m) (ia_shape im) && negb (String.eqb t "sumwt")) eqn:Hbad.
      * destruct Hcase as (Hi1 & Hd1).
        rewrite Hi, Hd, Hi1, Hd1, remove_type_filter, <- app_assoc. split; [|reflexivity].
        apply List.filter_ext. intros x.
        rewrite survives_cons, (compatible_image _ _ _ _ _ Him).
        apply andb_true_iff in Hbad as [Hb1 Hb2]. rewrite Hb1.
        apply negb_true_iff in Hb2. rewrite Hb2. simpl.
        rewrite orb_false_r. reflexivity.
      * destruct Hcase as (Hi1 & Hd1).
        rewrite Hi, Hd, Hi1, Hd1. split; [|reflexivity].
        apply List.filter_ext. intros x.
        rewrite survives_cons, (compatible_image _ _ _ _ _ Him).
        replace (negb (any_ne (t_dsize m) (ia_shape im)) || String.eqb t "sumwt")
          with true.
        { rewrite orb_true_r. reflexivity. }
        symmetry. destruct (any_ne _ _); [|reflexivity].
        simpl in Hbad. apply negb_false_iff in Hbad. rewrite Hbad. reflexivity.
    + rewrite (discover_step_absent _ _ _ _ Hp) in H1. inv_ok H1. subst st1.
      destruct (IH _ H Hm) as (Hm' & Hh & Hi & Hd). simpl in *.
      split; [exact Hm'|]. split; [exact Hh|].
      rewrite (incompatible_absent _ _ _ _ Hp).
      split; [|exact Hd].
      rewrite Hi, remove_type_filter.
      apply List.filter_ext. intros x.
      rewrite survives_cons, (compatible_absent _ _ _ _ Hp).
      rewrite orb_false_r. reflexivity.
Qed.

(** the loop before the reference is known *)
Lemma discover_loop_before fs prefix todo st st' :
  discover_loop fs prefix todo st = inr st' →
  meta st = None →
  match List.find (present fs prefix) todo with
  | None => meta st' = None
  | Some t0 =>
      ∃ im r A m,
        art_image fs prefix t0 = Some im ∧ resolve_coords im = inr r ∧
        normalize_attrs (im_summary im) = inr A ∧
        meta st' = Some m ∧
        m = mk_tm (r_coords r) (ia_shape im) (r_dims r) (length (heap st)) ∧
        heap st' !! length (heap st) = Some A ∧
        imtypes st' = List.filter (survives fs prefix (ia_shape im) todo) (imtypes st) ∧
        diftypes st' = diftypes st ++ List.filter (incompatible_with fs prefix (ia_shape im)) todo
  end.
Proof.
  revert st. induction todo as [|t rest IH]; simpl; intros st H Hm.
  - inv_ok H. subst. exact Hm.
  - apply rbind_ok in H as (st1 & H1 & H).
    destruct (present fs prefix t) eqn:Hp.
    + destruct (discover_step_present _ _ _ _ _ Hp H1)
        as (im & r & A & Him & Hr & HA & Hh & Htm & Hmeta).
      rewrite Hm in Hmeta. destruct Hmeta as (Hm1 & Hi1 & Hd1).
      rewrite Htm in Hm1.
      destruct (discover_loop_after _ _ _ _ _ _ H Hm1) as (Hm' & (h & Hh') & Hi & Hd).
      simpl in Hi, Hd.
      exists im, r, A, (mk_tm (r_coords r) (ia_shape im) (r_dims r) (length (heap st))).
      split; [exact Him|]. split; [exact Hr|]. split; [exact HA|].
      split; [exact Hm'|]. split; [reflexivity|].
      split.
      { rewrite Hh', Hh, <- app_assoc. rewrite lookup_app_r by lia.
        rewrite Nat.sub_diag. reflexivity. }
      rewrite (incompatible_image _ _ _ _ _ Him), any_ne_refl. simpl.
      split; [|congruence].
      rewrite Hi, Hi1. apply List.filter_ext. intros x.
      rewrite survives_cons, (compatible_image _ _ _ _ _ Him), any_ne_refl.
      simpl. rewrite orb_true_r. reflexivity.
    + rewrite (discover_step_absent _ _ _ _ Hp) in H1. inv_ok H1. subst st1.
      specialize (IH _ H Hm). simpl in IH.
      destruct (List.find (present fs prefix) rest) as [t0|]; [|exact IH].
      destruct IH as (im & r & A & m & Him & Hr & HA & Hm' & Hmm & Hh & Hi & Hd).
      exists im, r, A, m. repeat (split; [assumption|]).
      rewrite (incompatible_absent _ _ _ _ Hp).
      split; [|exact Hd].
      rewrite Hi, remove_type_filter.
      apply List.filter_ext. intros x.
      rewrite survives_cons, (compatible_absent _ _ _ _ Hp).
      rewrite orb_false_r. reflexivity.
Qed.

(** What discovery computes: the reference is the first candidate whose file
    exists; the candidates kept are those compatible with its shape, the
    candidates set aside those incompatible with it. *)
Lemma discover_spec fs prefix cands st :
  discover fs prefix cands = inr st →
  match List.find (present fs prefix) cands with
  | None => meta st = None
  | Some t0 =>
      ∃ im r A m,
        art_image fs prefix t0 = Some im ∧ resolve_coords im = inr r ∧
        normalize_attrs (im_summary im) = inr A ∧
        meta st = Some m ∧
        m = mk_tm (r_coords r) (ia_shape im) (r_dims r) O ∧
        heap st !! O = Some A ∧
        imtypes st = List.filter (compatible_with fs prefix (ia_shape im)) cands ∧
        diftypes st = List.filter (incompatible_with fs prefix (ia_shape im)) cands
  end.
Proof.
  unfold discover. intros H.
  apply discover_loop_before in H; [|reflexivity]. simpl in H.
  destruct (List.find (present fs prefix) cands) as [t0|]; [|exact H].
  destruct H as (im & r & A & m & Him & Hr & HA & Hm & Hmm & Hh & Hi & Hd).
  exists im, r, A, m. repeat (split; [assumption|]).
  split; [|exact Hd].
  rewrite Hi. apply List.filter_ext_in. intros x Hx. unfold survives.
  destruct (compatible_with fs prefix (ia_shape im) x) eqn:Hc.
  - apply forallb_forall. intros t _.
    destruct (String.eqb_spec x t) as [->|]; simpl; [exact Hc | reflexivity].
  - apply not_true_iff_false. intros Hall.
    rewrite forallb_forall in Hall. specialize (Hall x Hx).
    rewrite String.eqb_refl, Hc in Hall. discriminate.
Qed.


(** ** The batch loop and the attributes *)

Lemma assemble_attrs e fs chan xds :
  assemble e fs chan = inr xds → ds_attrs xds = e_attrs e.
Proof.
  intros H. apply assemble_spec in H as (? & ? & ? & ? & _ & _ & _ & Ha & _).
  exact Ha.
Qed.

Lemma batch_step_attrs e st chan st' :
  batch_step e st chan = inr st' → attrs_inv e st → attrs_inv e st'.
Proof.
  unfold batch_step. intros H [Hx Hs].
  apply rbind_ok in H as (xds & Hxds & H).
  apply assemble_attrs in Hxds.
  destruct (_ && _).
  - inv_ok H. subst st'. split; simpl.
    + intros ? [= <-]. exact Hxds.
    + intros _. right. unfold to_zarr_w. rewrite lookup_insert_eq. eauto.
  - destruct (e_nofile e) eqn:Hn; simpl in H.
    + inv_ok H. subst st'. split; simpl.
      * intros ? [= <-]. exact Hxds.
      * intros Hf. congruence.
    + apply rbind_ok in H as (fs' & Hfs & H). inv_ok H. subst st'. split; simpl.
      * intros ? [= <-]. exact Hxds.
      * intros _. right. unfold to_zarr_a in Hfs.
        destruct (b_fs st !! e_outfile e) as [[|old enc|]|]; try discriminate.
        apply rbind_ok in Hfs as (vars & _ & Hfs).
        apply rbind_ok in Hfs as (cvars & _ & Hfs). inv_ok Hfs. subst fs'.
        rewrite lookup_insert_eq. eauto.
Qed.

Lemma batch_loop_attrs e chans st err st' :
  batch_loop e chans st = (err, st') → attrs_inv e st → attrs_inv e st'.
Proof.
  revert st. induction chans as [|chan rest IH]; simpl; intros st H Hinv.
  - injection H as _ <-. exact Hinv.
  - destruct (batch_step e st chan) as [e'|st1] eqn:Hs.
    + injection H as _ <-. exact Hinv.
    + eapply IH; [exact H|]. eapply batch_step_attrs; eauto.
Qed.

Lemma prepare_meta meta chunk_shape nofile m chan_dim cs chan_batch :
  prepare meta chunk_shape nofile = inr (m, chan_dim, cs, chan_batch) →
  meta = Some m.
Proof.
  unfold prepare. intros H. destruct meta as [m'|]; [|discriminate]. simpl in H.
  apply rbind_ok in H as (cd & _ & H).
  apply rbind_ok in H as (c3 & _ & H).
  apply rbind_ok in H as (cs' & _ & H).
  apply rbind_ok in H as (cb & _ & H). inv_ok H. congruence.
Qed.

Lemma convert_batches_attrs prefix outfile compressor chunk_shape nofile st fs xds w :
  convert_batches prefix outfile compressor chunk_shape nofile st fs
    = (inr (RDataset xds), w) →
  (nofile = false → fs !! outfile = None) →
  ∃ m, meta st = Some m ∧ ds_attrs xds = default ∅ (heap st !! t_attrs m).
Proof.
  unfold convert_batches. intros H Hfs.
  destruct (prepare (meta st) chunk_shape nofile) as [err|[[[m chan_dim] cs] chan_batch]] eqn:Hp;
    [discriminate|].
  apply prepare_meta in Hp. exists m. split; [exact Hp|].
  destruct (getitem (t_dsize m) chan_dim) as [err|nchan]; [discriminate|].
  destruct (chan_batch =? 0)%nat; [discriminate|].
  match type of H with
  | context [batch_loop ?e ?chans ?st0] =>
      destruct (batch_loop e chans st0) as [[err|] b] eqn:Hl;
      cbv beta iota in H; [discriminate|];
      assert (Hinv : attrs_inv e b)
  end.
  { eapply batch_loop_attrs; [exact Hl|]. split; simpl; [discriminate|].
    intros Hn. left. by apply Hfs. }
  destruct Hinv as [Hx Hs]. simpl in Hx, Hs.
  destruct nofile.
  - destruct (b_xds b) as [xds'|]; [|discriminate].
    injection H as <- _. by apply Hx.
  - destruct (Hs eq_refl) as [Hnone|(ds & enc & Hds & Ha)];
      unfold open_zarr in H; [rewrite Hnone in H | rewrite Hds in H];
      simpl in H; [discriminate|].
    injection H as <- _. exact Ha.
Qed.

(** C10: the attributes of the dataset the conversion returns are the
    normalised attributes of the reference artifact, the first candidate
    whose file exists, and nothing else: no attribute of another artifact
    is merged into them.  When the conversion persists, this is said of a
    call whose shell command left nothing at the output path, so that the
    store read back at the end is the one the call wrote. *)
Theorem output_attrs_are_reference_attrs (expanduser : string → string)
    (rm_fr : string → gmap string node → gmap string node)
    (infile : string) (outfile : option string) (artifacts : option (list string))
    (compressor : option blosc) (chunk_shape : pyseq) (nofile : bool)
    (fs : gmap string node) (xds : dataset) (w : gmap string node * list write_event) :
  (∀ prefix suffix out,
     paths expanduser infile outfile = inr (prefix, suffix, out) →
     nofile = false → rm_fr out fs !! out = None) →
  convert_image expanduser rm_fr infile outfile artifacts compressor chunk_shape nofile fs
    = (inr (RDataset xds), w) →
  ∃ prefix suffix out t0 im,
    paths expanduser infile outfile = inr (prefix, suffix, out) ∧
    List.find (present (if nofile then fs else rm_fr out fs) prefix)
      (initial_imtypes suffix artifacts) = Some t0 ∧
    art_image (if nofile then fs else rm_fr out fs) prefix t0 = Some im ∧
    normalize_attrs (im_summary im) = inr (ds_attrs xds).
Proof.
  unfold convert_image. intros Hrm H.
  destruct (paths expanduser infile outfile) as [err|[[prefix suffix] out]] eqn:Hp;
    [discriminate|].
  specialize (Hrm _ _ _ eq_refl).
  set (fs1 := if nofile then fs else rm_fr out fs) in *.
  destruct (discover fs1 prefix (initial_imtypes suffix artifacts)) as [err|st] eqn:Hd;
    [discriminate|].
  apply convert_batches_attrs in H as (m & Hm & Ha).
  - apply discover_spec in Hd.
    destruct (List.find (present fs1 prefix) (initial_imtypes suffix artifacts))
      as [t0|] eqn:Hf; [|congruence].
    destruct Hd as (im & r & A & m' & Him & _ & HA & Hm' & Hmm & Hh & _).
    assert (m' = m) by congruence. subst m'. subst m. simpl in Ha.
    rewrite Hh in Ha. simpl in Ha.
    exists prefix, suffix, out, t0, im. rewrite Ha. auto.
  - intros ->. subst fs1. by apply Hrm.
Qed.

(** ** No artifact on disk *)

Lemma discover_loop_absent fs prefix todo st :
  (∀ t, t ∈ todo → present fs prefix t = false) →
  ∃ st', discover_loop fs prefix todo st = inr st' ∧ meta st' = meta st.
Proof.
  revert st. induction todo as [|t rest IH]; simpl; intros st Hall.
  - eauto.
  - rewrite discover_step_absent by (apply Hall; left). simpl.
    destruct (IH (mk_dstate (heap st) (tm st) (meta st) (remove_type t (imtypes st))
                    (diftypes st) (difmeta st))) as (st' & Hl & Hm).
    { intros t' Hin. apply Hall. by right. }
    exists st'. split; [exact Hl | exact Hm].
Qed.

(** C1, as amended: when no candidate artifact exists on disk at the time
    the conversion looks for them, it raises, at the lookup of the
    reference shape, before any write to the store.  With [nofile] the file
    system is left as it was; otherwise the shell command of line 73 has
    already run on the output path, and the file system is as that command
    left it: the conversion itself has created nothing and removed nothing
    more. *)
Theorem no_artifact_fails_before_any_write (expanduser : string → string)
    (rm_fr : string → gmap string node → gmap string node)
    (infile : string) (outfile : option string) (artifacts : option (list string))
    (compressor : option blosc) (chunk_shape : pyseq) (nofile : bool)
    (fs : gmap string node) (prefix suffix out : string) :
  paths expanduser infile outfile = inr (prefix, suffix, out) →
  (∀ t, t ∈ initial_imtypes suffix artifacts →
        (if nofile then fs else rm_fr out fs) !! (prefix +:+ "." +:+ t) = None) →
  convert_image expanduser rm_fr infile outfile artifacts compressor chunk_shape nofile fs
  = (inl KeyError, (if nofile then fs else rm_fr out fs, [])).
Proof.
  intros Hp Hall. unfold convert_image. rewrite Hp.
  set (fs1 := if nofile then fs else rm_fr out fs) in *.
  assert (Habs : ∀ t, t ∈ initial_imtypes suffix artifacts → present fs1 prefix t = false).
  { intros t Hin. unfold present, path_exists. apply bool_decide_eq_false_2.
    intros [x Hx]. specialize (Hall t Hin). congruence. }
  unfold discover.
  destruct (discover_loop_absent fs1 prefix _
              (mk_dstate [] None None (initial_imtypes suffix artifacts) [] O) Habs)
    as (st & -> & Hm).
  unfold convert_batches. rewrite Hm. reflexivity.
Qed.

(** C1, as stated, fails: a store present at the output path before the
    call is gone after it, although no artifact exists and the conversion
    raises. *)
Lemma preexisting_output_removed :
  (∀ t, t ∈ initial_imtypes "image" None →
        ({[ "y.img.zarr" := old_store ]} : gmap string node) !! ("y" +:+ "." +:+ t) = None) ∧
  (convert_image no_expand rm_words "y.image" None None None (PyTuple [-1; -1; 1; 1]) false
     {[ "y.img.zarr" := old_store ]}).1 = inl KeyError ∧
  ({[ "y.img.zarr" := old_store ]} : gmap string node) !! "y.img.zarr" = Some old_store ∧
  (convert_image no_expand rm_words "y.image" None None None (PyTuple [-1; -1; 1; 1]) false
     {[ "y.img.zarr" := old_store ]}).2.1 !! "y.img.zarr" = None ∧
  (convert_image no_expand rm_words "y.image" None None None (PyTuple [-1; -1; 1; 1]) false
     {[ "y.img.zarr" := old_store ]}).2.1 !! "y.img.zarr"
  ≠ ({[ "y.img.zarr" := old_store ]} : gmap string node) !! "y.img.zarr".
Proof.
  assert (Hafter :
    (convert_image no_expand rm_words "y.image" None None None (PyTuple [-1; -1; 1; 1]) false
       {[ "y.img.zarr" := old_store ]}).2.1 !! "y.img.zarr" = None)
    by (vm_compute; reflexivity).
  split.
  { intros t Hin. change (initial_imtypes "image" None) with ("image" :: default_imtypes) in Hin.
    unfold default_imtypes in Hin.
    repeat (apply elem_of_cons in Hin as [->|Hin]; [vm_compute; reflexivity|]).
    apply elem_of_nil in Hin. destruct Hin. }
  split; [vm_compute; reflexivity|].
  split; [apply lookup_singleton_eq|].
  split; [exact Hafter|].
  rewrite Hafter, lookup_singleton_eq. discriminate.
Qed.

(** ** The chunk shape *)

Lemma resolve_coords_dims_length im r :
  resolve_coords im = inr r → length (r_dims r) = length (ia_shape im).
Proof.
  unfold resolve_coords. intros H.
  apply rbind_ok in H as (sphr & _ & H).
  apply rbind_ok in H as (sw & _ & H).
  apply rbind_ok in H as (si & _ & H).
  apply rbind_ok in H as (cw & _ & H).
  apply rbind_ok in H as (ci & _ & H).
  apply rbind_ok in H as (dims & Hd & H). inv_ok H. subst r. simpl.
  apply rmap_length in Hd. rewrite Hd. apply length_seq.
Qed.

Lemma list_index_lt x l i : list_index x l = inr i → (i < length l)%nat.
Proof.
  unfold list_index. destruct (list_find _ l) as [[j y]|] eqn:Hf; simpl; intros H; inv_ok H.
  subst. apply list_find_Some in Hf as (Hl & _). by apply lookup_lt_Some in Hl.
Qed.

(** C9: once a reference with a channel axis is found, a [chunk_shape]
    tuple whose slot 3 (the slot that sets the channel batch) is 0 or less
    makes the conversion raise [TypeError], at the assignment into the
    tuple, before any write; the same values passed as a list are accepted,
    slot 3 being replaced by the length of the channel axis, which becomes
    the batch size. *)
Theorem tuple_sentinel_raises (expanduser : string → string)
    (rm_fr : string → gmap string node → gmap string node)
    (infile : string) (outfile : option string) (artifacts : option (list string))
    (compressor : option blosc) (l : list Z) (nofile : bool)
    (fs : gmap string node) (prefix suffix out : string) (st : dstate)
    (m : tmrec) (chan_dim : nat) (c : Z) :
  paths expanduser infile outfile = inr (prefix, suffix, out) →
  discover (if nofile then fs else rm_fr out fs) prefix
    (initial_imtypes suffix artifacts) = inr st →
  meta st = Some m →
  list_index "chan" (t_dims m) = inr chan_dim →
  l !! 3%nat = Some c → c <= 0 →
  convert_image expanduser rm_fr infile outfile artifacts compressor (PyTuple l) nofile fs
    = (inl TypeError, (if nofile then fs else rm_fr out fs, [])) ∧
  ∃ nchan, t_dsize m !! chan_dim = Some nchan ∧
    prepare (meta st) (PyList l) nofile
      = inr (m, chan_dim, PyList (<[3%nat := Z.of_nat nchan]> l), nchan).
Proof.
  intros Hp Hd Hm Hi Hl Hc.
  assert (Hn : ∃ nchan, t_dsize m !! chan_dim = Some nchan).
  { apply lookup_lt_is_Some. apply list_index_lt in Hi.
    pose proof (discover_spec _ _ _ _ Hd) as Hs.
    destruct (List.find _ _); [|congruence].
    destruct Hs as (im & r & A & m' & _ & Hr & _ & Hm' & Hmm & _).
    assert (m' = m) by congruence. subst m'. subst m. simpl in *.
    apply resolve_coords_dims_length in Hr. unfold ia_shape in *. lia. }
  destruct Hn as (nchan & Hn).
  assert (Hle : (c <=? 0) = true) by (apply Z.leb_le; exact Hc).
  split.
  - unfold convert_image. rewrite Hp, Hd. unfold convert_batches, prepare.
    rewrite Hm. simpl. rewrite Hi. simpl. unfold getitem. rewrite Hl. simpl.
    rewrite Hle, Hn. reflexivity.
  - exists nchan. split; [exact Hn|].
    unfold prepare. rewrite Hm. simpl. rewrite Hi. simpl. unfold getitem.
    rewrite Hl. simpl. rewrite Hle, Hn. simpl.
    rewrite decide_True by (by apply lookup_lt_Some in Hl). simpl.
    destruct nofile; simpl.
    + reflexivity.
    + rewrite list_lookup_insert_eq by (by apply lookup_lt_Some in Hl). simpl.
      rewrite Nat2Z.id. reflexivity.
Qed.

(** ** Coordinates *)

Lemma rfilter_spec {A} (p : A → res bool) l r :
  rfilter p l = inr r → ∀ x, x ∈ r ↔ x ∈ l ∧ p x = inr true.
Proof.
  revert r. induction l as [|a l IH]; simpl; intros r H x.
  - inv_ok H. subst. split; [intros Hx; by apply elem_of_nil in Hx|].
    intros [Hx _]. by apply elem_of_nil in Hx.
  - apply rbind_ok in H as (b & Hb & H).
    apply rbind_ok in H as (r' & Hr & H). inv_ok H. subst r.
    specialize (IH _ Hr x). destruct b.
    + rewrite !elem_of_cons, IH. split.
      * intros [->|[Hx Hp]]; auto.
      * intros [[->|Hx] Hp]; auto.
    + rewrite elem_of_cons, IH. split.
      * intros [Hx Hp]; auto.
      * intros [[->|Hx] Hp]; [congruence | auto].
Qed.

(** An axis is spherical exactly when its unit is [rad]; every other axis,
    whatever its unit, the empty unit included, is cartesian. *)
Lemma sphr_dims_rad s ims sphr_dims :
  sphr_dims_of s ims = inr sphr_dims →
  ∀ dd, dd ∈ sphr_dims ↔ (dd < length ims)%nat ∧ axisunits s !! dd = Some "rad".
Proof.
  unfold sphr_dims_of. intros H dd. rewrite (rfilter_spec _ _ _ H dd).
  rewrite list_elem_of_In, in_seq. unfold getitem.
  destruct (axisunits s !! dd) as [u|]; simpl.
  - split.
    + intros [Hlt Hu]. inv_ok Hu. apply String.eqb_eq in Hu. subst. split; [lia | reflexivity].
    + intros [Hlt [= ->]]. split; [lia | reflexivity].
  - split; intros [_ Hu]; discriminate.
Qed.

Lemma cart_dims_complement sphr_dims ims :
  ∀ dd, dd ∈ cart_dims_of sphr_dims ims ↔ (dd < length ims)%nat ∧ dd ∉ sphr_dims.
Proof.
  intros dd. unfold cart_dims_of. rewrite list_elem_of_In, filter_In, in_seq.
  rewrite negb_true_iff, bool_decide_eq_false. split; intros [H1 H2]; (split; [lia | exact H2]).
Qed.

Lemma sphr_dims_total s ims :
  (length ims ≤ length (axisunits s))%nat → ∃ l, sphr_dims_of s ims = inr l.
Proof.
  unfold sphr_dims_of. intros Hlen.
  assert (Hall : Forall (fun dd => (dd < length (axisunits s))%nat) (seq 0 (length ims))).
  { apply List.Forall_forall. intros dd Hin. apply in_seq in Hin. lia. }
  induction Hall as [|dd l Hdd _ IH]; simpl; [eauto|].
  unfold getitem at 1. destruct (lookup_lt_is_Some_2 _ _ Hdd) as [u ->]. simpl.
  destruct IH as (r & ->). simpl. eauto.
Qed.

(** C4, on a cube with two polarizations: the axes are classified by their
    unit, the two sky axes are resolved jointly over the dimensions [d0] and
    [d1], and the channel axis gets the sweep of its pixels; but the
    polarization axis, the first of the two cartesian axes, gets a single
    value, the coordinate of pixel 0, where the sweep of the axis has two. *)
Theorem first_cartesian_axis_not_swept (tw : list nat → list Z) :
  sphr_dims_of (cube_summary 2 3) [2; 2; 2; 3]%nat = inr [0; 1]%nat ∧
  ∃ r, resolve_coords (cube_with tw 2 3) = inr r ∧
    r_dims r = ["d0"; "d1"; "pol"; "chan"] ∧
    r_coords r !! "right_ascension"
      = Some (CoordDims ["d0"; "d1"]
                (mk_nd [2; 2]%nat
                   (map (fun p => default 0 (tw p !! 0%nat))
                      [[0;0;0;0]; [0;1;0;0]; [1;0;0;0]; [1;1;0;0]]%nat))) ∧
    r_coords r !! "chan" = Some (CoordBare (sweep_axis (cube_with tw 2 3) 3)) ∧
    r_coords r !! "pol"
      = Some (CoordBare (mk_nd [1%nat] [default 0 (tw [0; 0; 0; 0]%nat !! 2%nat)])) ∧
    sweep_axis (cube_with tw 2 3) 2
      = mk_nd [2%nat] [default 0 (tw [0; 0; 0; 0]%nat !! 2%nat);
                       default 0 (tw [0; 0; 1; 0]%nat !! 2%nat)].
Proof.
  split; [reflexivity|].
  eexists. split; [vm_compute; reflexivity|].
  repeat split; vm_compute; reflexivity.
Qed.

(** with one polarization the same code yields the sweep on both axes *)
Example one_polarization_swept (tw : list nat → list Z) :
  ∃ r, resolve_coords (cube_with tw 1 3) = inr r ∧
    r_coords r !! "pol" = Some (CoordBare (sweep_axis (cube_with tw 1 3) 2)) ∧
    r_coords r !! "chan" = Some (CoordBare (sweep_axis (cube_with tw 1 3) 3)).
Proof.
  eexists. split; [vm_compute; reflexivity|]. split; vm_compute; reflexivity.
Qed.

(** ** Channel batches *)

(** C3, on a cube of five channels converted two channels at a time: the
    store is created with channels 0-1 and grown by channels 2-3; the third
    batch asks for channels 4-5 and labels them 4 and 5 while one channel is
    left, and the conversion raises on that record: no third write takes
    place.  Five channels in one batch are written in one go. *)
Theorem uneven_last_batch_raises :
  (convert_image no_expand rm_words "x.image" None None None (PyList [-1; -1; 1; 2]) false
     (cube_fs 1 5)).1 = inl ValueError ∧
  map (fun ev => (is_create ev, chan_extent ev))
    (convert_image no_expand rm_words "x.image" None None None (PyList [-1; -1; 1; 2]) false
       (cube_fs 1 5)).2.2
    = [(true, Some 2%nat); (false, Some 2%nat)] ∧
  chunk_coords_of ∅ 4 2 !! "chan" = Some (CoordBare (mk_nd [2%nat] [4; 5])) ∧
  map (fun ev => (is_create ev, chan_extent ev))
    (convert_image no_expand rm_words "x.image" None None None (PyList [-1; -1; 1; 5]) false
       (cube_fs 1 5)).2.2
    = [(true, Some 5%nat)].
Proof. repeat split; vm_compute; reflexivity. Qed.

(** an axis that the batch size divides is written batch by batch, and the
    store then holds what a single batch writes *)
Example even_batches_agree :
  map (fun ev => (is_create ev, chan_extent ev))
    (convert_image no_expand rm_words "x.image" None None None (PyList [-1; -1; 1; 2]) false
       (cube_fs 1 4)).2.2
    = [(true, Some 2%nat); (false, Some 2%nat)] ∧
  match (convert_image no_expand rm_words "x.image" None None None (PyList [-1; -1; 1; 2]) false
           (cube_fs 1 4)).1,
        (convert_image no_expand rm_words "x.image" None None None (PyList [-1; -1; 1; 4]) false
           (cube_fs 1 4)).1 with
  | inr (RDataset a), inr (RDataset b) =>
      data_vars a !! "image" = data_vars b !! "image" ∧
      ds_coords a !! "chan" = ds_coords b !! "chan"
  | _, _ => False
  end.
Proof. split; vm_compute; [reflexivity | split; reflexivity]. Qed.

(** C5, as stated, fails: the reference holds the world values of the
    channel axis; the batch of channel 1 is labelled with the channel
    number, not with the world value of that channel. *)
Lemma chan_coord_not_resliced :
  match resolve_coords (cube 1 3) with
  | inr r =>
      r_coords r !! "chan" = Some (CoordBare (mk_nd [3%nat] [3000; 3001; 3002])) ∧
      chunk_coords_of (r_coords r) 1 1 !! "chan" = Some (CoordBare (mk_nd [1%nat] [1])) ∧
      reslice 1 1 <$> (r_coords r !! "chan") = Some (CoordBare (mk_nd [1%nat] [3001])) ∧
      chunk_coords_of (r_coords r) 1 1 !! "chan" ≠ reslice 1 1 <$> (r_coords r !! "chan")
  | inl _ => False
  end.
Proof.
  vm_compute. repeat split; try reflexivity. discriminate.
Qed.

(** ** The properties on concrete observations *)

Ltac by_eval :=
  match goal with
  | |- ?P => apply (bool_decide_eq_true_1 P); vm_compute; reflexivity
  end.

Lemma y_has_no_artifact :
  ∀ t, t ∈ initial_imtypes "image" None →
       rm_words "y.img.zarr" {[ "y.img.zarr" := old_store ]} !! ("y" +:+ "." +:+ t) = None.
Proof.
  intros t Hin. change (initial_imtypes "image" None) with ("image" :: default_imtypes) in Hin.
  unfold default_imtypes in Hin.
  repeat (apply elem_of_cons in Hin as [->|Hin]; [vm_compute; reflexivity|]).
  by apply elem_of_nil in Hin.
Qed.

Lemma no_artifact_fails_before_any_write_witness :
  paths no_expand "y.image" None = inr ("y", "image", "y.img.zarr") ∧
  (∀ t, t ∈ initial_imtypes "image" None →
        rm_words "y.img.zarr" {[ "y.img.zarr" := old_store ]} !! ("y" +:+ "." +:+ t) = None) ∧
  convert_image no_expand rm_words "y.image" None None None (PyTuple [-1; -1; 1; 1]) false
    {[ "y.img.zarr" := old_store ]}
  = (inl KeyError, (rm_words "y.img.zarr" {[ "y.img.zarr" := old_store ]}, [])).
Proof.
  split; [reflexivity|]. split; [exact y_has_no_artifact|].
  exact (no_artifact_fails_before_any_write no_expand rm_words "y.image" None None None
           (PyTuple [-1; -1; 1; 1]) false {[ "y.img.zarr" := old_store ]}
           "y" "image" "y.img.zarr" eq_refl y_has_no_artifact).
Defined.

(** the partition of the observation: the point-spread function alone is
    set aside *)
Example obs_partition :
  match discover obs_fs "x" (initial_imtypes "image" None) with
  | inr st => imtypes st = ["image"; "mask"; "model"; "sumwt"] ∧ diftypes st = ["psf"]
  | inl _ => False
  end.
Proof. vm_compute. split; reflexivity. Qed.

Lemma obs_discovered : is_inr (discover obs_fs "x" (initial_imtypes "image" None)) = true.
Proof. vm_compute. reflexivity. Qed.



Lemma obs_assembled types :
  types = ["image"] ∨ types = ["image"; "mask"] ∨ types = ["image"; "mask"; "sumwt"] →
  is_inr (assemble (obs_env types) obs_fs 0) = true.
Proof. intros [->|[->| ->]]; vm_compute; reflexivity. Qed.

Lemma batch_coords_frame_witness :
  ∃ xds,
    assemble (obs_env ["image"]) obs_fs 0 = inr xds ∧
    (ds_coords xds !! "chan"
       = Some (mk_var ["chan"]
                 (NumData (arange_from (Z.of_nat 0) (e_chan_batch (obs_env ["image"]))))) ∧
     ∃ o, ∀ k, k ≠ "chan" →
       match e_coords (obs_env ["image"]) !! k with
       | Some c => ∃ v v', coord_variable k c = inr v ∧ moved o v v' ∧
                           ds_coords xds !! k = Some v'
       | None => ds_coords xds !! k = None
       end).
Proof.
  generalize (obs_assembled ["image"] ltac:(auto)).
  destruct (assemble (obs_env ["image"]) obs_fs 0) as [e|xds] eqn:Ha;
    intros Hk; [discriminate Hk|].
  exists xds. split; [reflexivity|].
  exact (batch_coords_frame _ _ _ _ Ha).
Defined.


(** the dimensions of the record of the observation, variable by variable *)
Example obs_record_dims :
  match assemble (obs_env ["image"; "mask"; "sumwt"]) obs_fs 0 with
  | inr xds =>
      vdims <$> data_vars xds !! "image" = Some ["d0"; "d1"; "chan"; "pol"] ∧
      vdims <$> data_vars xds !! "deconvolve" = Some ["d0"; "d1"; "chan"; "pol"] ∧
      vdims <$> data_vars xds !! "sumwt" = Some ["chan"; "pol"]
  | inl _ => False
  end.
Proof. vm_compute. repeat split; reflexivity. Qed.

Lemma mask_is_boolean_deconvolve_witness :
  ∃ xds,
    assemble (obs_env ["image"; "mask"]) obs_fs 0 = inr xds ∧
    "mask" ∈ e_imtypes (obs_env ["image"; "mask"]) ∧
    ("deconvolve" ∉ e_imtypes (obs_env ["image"; "mask"])) ∧
    ∃ im pt1 pt2 imchunk b o v',
      art_image obs_fs (e_prefix (obs_env ["image"; "mask"])) "mask" = Some im ∧
      list_setitem (replicate (length (e_dsize (obs_env ["image"; "mask"]))) (-1))
        (e_chan_dim (obs_env ["image"; "mask"])) (Z.of_nat 0) = inr pt1 ∧
      list_setitem (replicate (length (e_dsize (obs_env ["image"; "mask"]))) (-1))
        (e_chan_dim (obs_env ["image"; "mask"]))
        (Z.of_nat 0 + Z.of_nat (e_chan_batch (obs_env ["image"; "mask"])) - 1) = inr pt2 ∧
      getchunk im pt1 pt2 = inr imchunk ∧
      shape b = shape imchunk ∧
      (∀ i, data b !! i = (fun p => bool_decide (p ≠ 0)) <$> data imchunk !! i) ∧
      moved o (mk_var (e_dims (obs_env ["image"; "mask"])) (BoolData b)) v' ∧
      data_vars xds !! "deconvolve" = Some v' ∧
      (∃ b', vdata v' = BoolData b') ∧
      "deconvolve" ≠ "mask".
Proof.
  generalize (obs_assembled ["image"; "mask"] ltac:(auto)).
  destruct (assemble (obs_env ["image"; "mask"]) obs_fs 0) as [e|xds] eqn:Ha;
    intros Hk; [discriminate Hk|].
  exists xds. split; [reflexivity|].
  assert (Hm : "mask" ∈ e_imtypes (obs_env ["image"; "mask"])) by by_eval.
  assert (Hd : "deconvolve" ∉ e_imtypes (obs_env ["image"; "mask"])) by by_eval.
  split; [exact Hm|]. split; [exact Hd|].
  exact (mask_is_boolean_deconvolve _ _ _ _ Ha Hm Hd).
Defined.

(** C7, as stated, fails: with the artifacts [mask] and [deconvolve], both
    kept, the variable [deconvolve] of the record holds the numbers of the
    artifact [deconvolve], written over the boolean mask. *)
Lemma deconvolve_overwrites_mask :
  match discover deconvolve_fs "x" (initial_imtypes "image" (Some ["mask"; "deconvolve"])) with
  | inr st => imtypes st = ["image"; "mask"; "deconvolve"]
  | inl _ => False
  end ∧
  match (convert_image no_expand rm_words "x.image" None (Some ["mask"; "deconvolve"]) None
           (PyTuple [-1; -1; 1; 1]) true deconvolve_fs).1 with
  | inr (RDataset xds) =>
      vdata <$> data_vars xds !! "deconvolve"
      = Some (NumData (mk_nd [2; 2; 3; 1]%nat [0; 1; 2; 3; 4; 5; 6; 7; 8; 9; 10; 11])) ∧
      data_vars xds !! "mask" = None
  | _ => False
  end.
Proof. vm_compute. repeat split; reflexivity. Qed.

(** the mask of the observation, pixel values 0, 3, 6 and 9 in the first
    channel, becomes false, true, true, true *)
Example obs_mask_values :
  match assemble (obs_env ["image"; "mask"]) obs_fs 0 with
  | inr xds =>
      vdata <$> data_vars xds !! "deconvolve"
      = Some (BoolData (mk_nd [2; 2; 1; 1]%nat [false; true; true; true]))
  | inl _ => False
  end.
Proof. vm_compute. reflexivity. Qed.

Lemma cube_reference_has_chan :
  match discover (rm_words "x.img.zarr" (cube_fs 1 4)) "x" (initial_imtypes "image" None) with
  | inr st =>
      match meta st with
      | Some m => list_index "chan" (t_dims m) = inr 3%nat
      | None => False
      end
  | inl _ => False
  end.
Proof. vm_compute. reflexivity. Qed.

Lemma tuple_sentinel_raises_witness :
  ∃ st m,
    paths no_expand "x.image" None = inr ("x", "image", "x.img.zarr") ∧
    discover (rm_words "x.img.zarr" (cube_fs 1 4)) "x" (initial_imtypes "image" None) = inr st ∧
    meta st = Some m ∧
    list_index "chan" (t_dims m) = inr 3%nat ∧
    [-1; -1; -1; -1] !! 3%nat = Some (-1) ∧ -1 <= 0 ∧
    (convert_image no_expand rm_words "x.image" None None None (PyTuple [-1; -1; -1; -1]) false
       (cube_fs 1 4)
     = (inl TypeError, (rm_words "x.img.zarr" (cube_fs 1 4), [])) ∧
     ∃ nchan, t_dsize m !! 3%nat = Some nchan ∧
       prepare (meta st) (PyList [-1; -1; -1; -1]) false
       = inr (m, 3%nat, PyList (<[3%nat := Z.of_nat nchan]> [-1; -1; -1; -1]), nchan)).
Proof.
  generalize cube_reference_has_chan.
  destruct (discover (rm_words "x.img.zarr" (cube_fs 1 4)) "x" (initial_imtypes "image" None))
    as [e|st] eqn:Hd; [intros []|].
  destruct (meta st) as [m|] eqn:Hm; [|intros []]. intros Hi.
  exists st, m. split; [reflexivity|]. split; [reflexivity|].
  split; [exact Hm|]. split; [exact Hi|]. split; [reflexivity|]. split; [lia|].
  apply (tuple_sentinel_raises no_expand rm_words "x.image" None None None [-1; -1; -1; -1] false
           (cube_fs 1 4) "x" "image" "x.img.zarr" st m 3 (-1));
    [reflexivity | exact Hd | exact Hm | exact Hi | reflexivity | lia].
Defined.

Lemma obs_converted :
  returns_dataset
    (convert_image no_expand rm_words "x.image" None None None (PyTuple [-1; -1; 1; 1]) false obs_fs)
  = true.
Proof. vm_compute. reflexivity. Qed.

Lemma output_attrs_are_reference_attrs_witness :
  ∃ xds w,
    (∀ prefix suffix out,
       paths no_expand "x.image" None = inr (prefix, suffix, out) →
       false = false → rm_words out obs_fs !! out = None) ∧
    convert_image no_expand rm_words "x.image" None None None (PyTuple [-1; -1; 1; 1]) false obs_fs
      = (inr (RDataset xds), w) ∧
    ∃ prefix suffix out t0 im,
      paths no_expand "x.image" None = inr (prefix, suffix, out) ∧
      List.find (present (rm_words out obs_fs) prefix) (initial_imtypes suffix None) = Some t0 ∧
      art_image (rm_words out obs_fs) prefix t0 = Some im ∧
      normalize_attrs (im_summary im) = inr (ds_attrs xds).
Proof.
  generalize obs_converted.
  destruct (convert_image no_expand rm_words "x.image" None None None (PyTuple [-1; -1; 1; 1]) false
              obs_fs) as [[e|[xds|]] w] eqn:Hc; intros Hk; try discriminate Hk.
  assert (Hrm : ∀ prefix suffix out,
            paths no_expand "x.image" None = inr (prefix, suffix, out) →
            false = false → rm_words out obs_fs !! out = None).
  { intros prefix suffix out Hp _.
    assert (out = "x.img.zarr") as -> by (vm_compute in Hp; congruence).
    vm_compute. reflexivity. }
  exists xds, w. split; [exact Hrm|]. split; [reflexivity|].
  exact (output_attrs_are_reference_attrs _ _ _ _ _ _ _ _ _ _ _ Hrm Hc).
Defined.

(** the attributes of the converted observation are those of its image *)
Example obs_attrs :
  match (convert_image no_expand rm_words "x.image" None None None (PyTuple [-1; -1; 1; 1]) false
           obs_fs).1 with
  | inr (RDataset xds) =>
      map_to_list (ds_attrs xds)
      = map_to_list
          (match normalize_attrs (cube_summary 1 3) with inr a => a | inl _ => ∅ end)
      ∧ ds_attrs xds !! "telescope" = Some (SStr "vla")
  | _ => False
  end.
Proof. vm_compute. split; reflexivity. Qed.

(** the record keeps the order of an image whose channel axis already comes
    before its polarization axis, and a cube with two polarizations in the
    usual axis order cannot be converted: its polarization coordinate has
    one value for two polarizations *)
Example native_orders :
  match (convert_image no_expand rm_words "x.image" None None None (PyTuple [-1; -1; 1; 1]) true
           {[ "x.image" := ImageNode (chan_first_cube 3 2) ]}).1 with
  | inr (RDataset xds) =>
      vdims <$> data_vars xds !! "image" = Some ["d0"; "d1"; "chan"; "pol"]
  | _ => False
  end ∧
  (convert_image no_expand rm_words "x.image" None None None (PyTuple [-1; -1; 1; 1]) true
     (cube_fs 2 3)).1 = inl ValueError.
Proof. split; vm_compute; reflexivity. Qed.

(** ** Paths *)

Lemma rfind_cons c a r :
  PyStr.rfind c (String a r)
  = match PyStr.rfind c r with
    | Some i => Some (S i)
    | None => if Ascii.eqb a c then Some O else None
    end.
Proof. reflexivity. Qed.

Lemma rfind_None_iff c s :
  PyStr.rfind c s = None ↔ PyStr.contains (String c EmptyString) s = false.
Proof.
  induction s as [|a r IH].
  - split; reflexivity.
  - rewrite rfind_cons, contains_char_cons, orb_false_iff, <- IH, (Ascii.eqb_sym c a).
    destruct (PyStr.rfind c r); [split; [discriminate | intros [_ ?]; discriminate]|].
    destruct (Ascii.eqb a c); split; auto; try discriminate. intros [? _]. discriminate.
Qed.

Lemma substring_full s : String.substring 0 (String.length s) s = s.
Proof. induction s as [|a r IH]; simpl; [reflexivity | by rewrite IH]. Qed.

Lemma substring_0_S m a r :
  String.substring 0 (S m) (String a r) = String a (String.substring 0 m r).
Proof. reflexivity. Qed.

Lemma substring_S n m a r :
  String.substring (S n) m (String a r) = String.substring n m r.
Proof. reflexivity. Qed.

Lemma length_String a r : String.length (String a r) = S (String.length r).
Proof. reflexivity. Qed.

Lemma append_String a x y : String a x +:+ y = String a (x +:+ y).
Proof. reflexivity. Qed.

Lemma rfind_split c s i :
  PyStr.rfind c s = Some i →
  s = PyStr.upto i s +:+ String c (PyStr.from (S i) s) ∧
  PyStr.contains (String c EmptyString) (PyStr.from (S i) s) = false ∧
  (i < String.length s)%nat.
Proof.
  unfold PyStr.upto, PyStr.from. revert i. induction s as [|a r IH]; intros i; [discriminate|].
  rewrite rfind_cons. destruct (PyStr.rfind c r) as [j|] eqn:Hr.
  - intros [= <-]. destruct (IH j eq_refl) as (Hs & Hc & Hl).
    rewrite substring_0_S, substring_S, length_String, append_String.
    replace (S (String.length r) - S (S j))%nat with (String.length r - S j)%nat by lia.
    split; [|split; [exact Hc | lia]]. rewrite <- Hs. reflexivity.
  - destruct (Ascii.eqb_spec a c) as [->|]; [|discriminate]. intros [= <-].
    rewrite substring_S, length_String.
    replace (S (String.length r) - 1)%nat with (String.length r) by lia.
    rewrite substring_full.
    split; [reflexivity|]. split; [by apply rfind_None_iff | lia].
Qed.

Lemma append_slash_nonempty t : t +:+ "/" ≠ EmptyString.
Proof. destruct t; discriminate. Qed.

Lemma strip_slashes_cons c r :
  strip_slashes (String c r)
  = match strip_slashes r with
    | EmptyString => if Ascii.eqb c "/" then EmptyString else String c EmptyString
    | String b r' => String c (String b r')
    end.
Proof. simpl. destruct (strip_slashes r); reflexivity. Qed.

Lemma strip_slashes_no_trailing s t : strip_slashes s ≠ t +:+ "/".
Proof.
  revert t. induction s as [|c r IH]; intros t.
  - intros H. symmetry in H. by apply append_slash_nonempty in H.
  - rewrite strip_slashes_cons. destruct (strip_slashes r) as [|b r'] eqn:Hr.
    + destruct (Ascii.eqb_spec c "/") as [->|Hc].
      * intros H. symmetry in H. by apply append_slash_nonempty in H.
      * destruct t as [|a t'].
        -- intros [= ?]. congruence.
        -- rewrite append_String. intros [= _ H].
           symmetry in H. by apply append_slash_nonempty in H.
    + destruct t as [|a t']; [discriminate|].
      rewrite append_String. intros [= _ H]. by apply (IH t').
Qed.

Lemma strip_slashes_slash s : strip_slashes (s +:+ "/") = strip_slashes s.
Proof.
  induction s as [|c r IH]; [reflexivity|].
  change (String c r +:+ "/") with (String c (r +:+ "/")).
  by rewrite !strip_slashes_cons, IH.
Qed.

Lemma rfind_app_slash s :
  PyStr.rfind "." (s +:+ "/") = PyStr.rfind "." s.
Proof.
  induction s as [|c r IH]; [reflexivity|].
  change (String c r +:+ "/") with (String c (r +:+ "/")).
  by rewrite !rfind_cons, IH.
Qed.

Lemma substring_app_l n m s t :
  (n + m ≤ String.length s)%nat →
  String.substring n m (s +:+ t) = String.substring n m s.
Proof.
  revert n m. induction s as [|c r IH]; intros n m Hl; simpl in Hl.
  - assert (n = O ∧ m = O) as [-> ->] by lia. destruct t; reflexivity.
  - change (String c r +:+ t) with (String c (r +:+ t)).
    destruct n as [|n]; simpl.
    + destruct m as [|m]; [reflexivity|]. f_equal. apply IH. lia.
    + apply IH. lia.
Qed.

Lemma substring_app_end n s t :
  (n ≤ String.length s)%nat →
  String.substring n (String.length (s +:+ t) - n) (s +:+ t)
  = String.substring n (String.length s - n) s +:+ t.
Proof.
  revert n. induction s as [|c r IH]; intros n Hl; simpl in Hl.
  - assert (n = O) as -> by lia. simpl. rewrite Nat.sub_0_r. apply substring_full.
  - change (String c r +:+ t) with (String c (r +:+ t)).
    destruct n as [|n].
    + rewrite !Nat.sub_0_r, !substring_full. reflexivity.
    + simpl. apply IH. lia.
Qed.

(** X1. The input name is cut at its last dot: the prefix, a dot and the
    rest give the name back, the rest holds no dot, and the suffix is the
    rest without its trailing slashes, so it never ends with a slash.  The
    default output path is the prefix followed by [.img.zarr]. *)
Theorem paths_split_at_last_dot (expanduser : string → string)
    (infile : string) (outfile : option string) (prefix suffix out : string) :
  paths expanduser infile outfile = inr (prefix, suffix, out) →
  ∃ rest,
    expanduser infile = prefix +:+ "." +:+ rest ∧
    PyStr.contains "." rest = false ∧
    suffix = strip_slashes rest ∧
    (∀ t, suffix ≠ t +:+ "/") ∧
    out = match outfile with
          | None => prefix +:+ ".img.zarr"
          | Some o => expanduser o
          end.
Proof.
  unfold paths, PyStr.rindex. intros H.
  destruct (PyStr.rfind "." (expanduser infile)) as [i|] eqn:Hf; [|discriminate].
  simpl in H. injection H as <- <- <-.
  destruct (rfind_split _ _ _ Hf) as (Hs & Hc & _).
  exists (PyStr.from (S i) (expanduser infile)).
  split; [exact Hs|]. split; [exact Hc|]. split; [reflexivity|].
  split; [|reflexivity]. intros t. apply strip_slashes_no_trailing.
Qed.

(** X2. A slash at the end of the input name changes nothing: the
    conversion of [name/] is the conversion of [name]. *)
Theorem trailing_slash_ignored (expanduser : string → string)
    (rm_fr : string → gmap string node → gmap string node)
    (infile : string) (outfile : option string) (artifacts : option (list string))
    (compressor : option blosc) (chunk_shape : pyseq) (nofile : bool)
    (fs : gmap string node) :
  expanduser (infile +:+ "/") = expanduser infile +:+ "/" →
  convert_image expanduser rm_fr (infile +:+ "/") outfile artifacts compressor chunk_shape nofile fs
  = convert_image expanduser rm_fr infile outfile artifacts compressor chunk_shape nofile fs.
Proof.
  intros He.
  assert (Hp : paths expanduser (infile +:+ "/") outfile = paths expanduser infile outfile).
  { unfold paths, PyStr.rindex. rewrite He, rfind_app_slash.
    destruct (PyStr.rfind "." (expanduser infile)) as [i|] eqn:Hf; [|reflexivity].
    destruct (rfind_split _ _ _ Hf) as (_ & _ & Hl). simpl.
    unfold PyStr.upto, PyStr.from.
    rewrite substring_app_l by lia. rewrite substring_app_end by lia.
    rewrite strip_slashes_slash. reflexivity. }
  unfold convert_image. rewrite Hp. reflexivity.
Qed.

(** X3. The input is the reference whenever it exists and its suffix is
    not an artifact type of the default vocabulary, or a list of artifacts
    is given: it is then the first candidate, and the shape every other
    artifact is compared with is its shape. *)
Theorem input_is_reference (fs : gmap string node) (prefix suffix : string)
    (artifacts : option (list string)) (st : dstate) (im : image) :
  artifacts ≠ None ∨ suffix ∉ default_imtypes →
  art_image fs prefix suffix = Some im →
  discover fs prefix (initial_imtypes suffix artifacts) = inr st →
  ∃ r A,
    resolve_coords im = inr r ∧ normalize_attrs (im_summary im) = inr A ∧
    meta st = Some (mk_tm (r_coords r) (ia_shape im) (r_dims r) O) ∧
    heap st !! O = Some A ∧
    suffix ∈ imtypes st ∧ suffix ∉ diftypes st.
Proof.
  intros Hor Him Hd.
  assert (Hhd : ∃ l, initial_imtypes suffix artifacts = suffix :: l).
  { unfold initial_imtypes. destruct artifacts as [l|]; [eauto|].
    destruct Hor as [Hc|Hn]; [congruence|].
    rewrite bool_decide_eq_false_2 by assumption. eauto. }
  destruct Hhd as (l & Hl).
  pose proof (present_art_image _ _ _ _ Him) as Hp.
  assert (Hfind : List.find (present fs prefix) (initial_imtypes suffix artifacts)
                  = Some suffix) by (rewrite Hl; simpl; by rewrite Hp).
  apply discover_spec in Hd. rewrite Hfind in Hd.
  destruct Hd as (im' & r & A & m & Him' & Hr & HA & Hm & -> & Hh & Hi & Hdif).
  assert (im' = im) by congruence. subst im'.
  exists r, A. repeat (split; [assumption|]).
  rewrite Hi, Hdif, !list_elem_of_In, !filter_In.
  rewrite (compatible_image _ _ _ _ _ Him), (incompatible_image _ _ _ _ _ Him), any_ne_refl.
  simpl. split; [|intros [_ ?]; discriminate].
  split; [|reflexivity]. rewrite Hl. by left.
Qed.

(** * Further properties of the conversion *)

(** ** Effects on the file system *)

Lemma batch_step_effects e st chan st' :
  batch_step e st chan = inr st' →
  (∀ p, p ≠ e_outfile e → b_fs st' !! p = b_fs st !! p) ∧
  (e_nofile e = true → b_fs st' = b_fs st ∧ b_trace st' = b_trace st) ∧
  (e_nofile e = false →
   ∃ ds enc ev,
     b_fs st' !! e_outfile e = Some (ZarrNode ds enc) ∧
     b_trace st' = b_trace st ++ [ev] ∧ is_create ev = (chan =? 0)%nat).
Proof.
  unfold batch_step. intros H.
  apply rbind_ok in H as (xds & _ & H).
  destruct (e_nofile e) eqn:Hn; simpl in H.
  - rewrite andb_false_r in H. inv_ok H. subst st'. simpl.
    split; [reflexivity|]. split; [auto | discriminate].
  - rewrite andb_true_r in H. destruct (chan =? 0)%nat eqn:Hc.
    + inv_ok H. subst st'. simpl. split.
      { intros p Hp. unfold to_zarr_w. by rewrite lookup_insert_ne. }
      split; [discriminate|]. intros _.
      eexists _, _, (Created xds). unfold to_zarr_w. rewrite lookup_insert_eq. auto.
    + apply rbind_ok in H as (fs' & Hfs & H). inv_ok H. subst st'. simpl.
      unfold to_zarr_a in Hfs.
      destruct (b_fs st !! e_outfile e) as [[|old enc|]|]; try discriminate.
      apply rbind_ok in Hfs as (vars & _ & Hfs).
      apply rbind_ok in Hfs as (cvars & _ & Hfs). inv_ok Hfs. subst fs'.
      split.
      { intros p Hp. by rewrite lookup_insert_ne. }
      split; [discriminate|]. intros _.
      eexists _, _, (Appended xds). rewrite lookup_insert_eq. auto.
Qed.

Lemma batch_loop_effects e chans st err st' :
  batch_loop e chans st = (err, st') →
  (∀ p, p ≠ e_outfile e → b_fs st' !! p = b_fs st !! p) ∧
  (e_nofile e = true → b_fs st' = b_fs st ∧ b_trace st' = b_trace st) ∧
  (e_nofile e = false →
   ∃ done todo,
     chans = done ++ todo ∧ (err = None → todo = []) ∧
     map is_create (b_trace st')
       = map is_create (b_trace st) ++ map (fun c => (c =? 0)%nat) done ∧
     (done = [] → b_fs st' = b_fs st) ∧
     (done ≠ [] → ∃ ds enc, b_fs st' !! e_outfile e = Some (ZarrNode ds enc))).
Proof.
  revert st. induction chans as [|chan rest IH]; simpl; intros st H.
  - injection H as <- <-. split; [auto|]. split; [auto|]. intros _.
    exists [], []. simpl. rewrite app_nil_r.
    split; [reflexivity|]. split; [auto|]. split; [reflexivity|]. split; [auto|].
    intros Hc. by destruct Hc.
  - destruct (batch_step e st chan) as [e'|st1] eqn:Hs.
    + injection H as <- <-. split; [auto|]. split; [auto|]. intros _.
      exists [], (chan :: rest). simpl. rewrite app_nil_r.
      split; [reflexivity|]. split; [discriminate|]. split; [reflexivity|].
      split; [auto|]. intros Hc. by destruct Hc.
    + apply batch_step_effects in Hs as (Hf1 & Hn1 & Hw1).
      destruct (IH _ H) as (Hf & Hn & Hw).
      split; [intros p Hp; rewrite Hf, Hf1 by assumption; reflexivity|].
      split.
      { intros Hno. destruct (Hn Hno) as [-> ->]. by apply Hn1. }
      intros Hno. destruct (Hw1 Hno) as (ds & enc & ev & Hds & Htr & Hev).
      destruct (Hw Hno) as (done & todo & -> & Htodo & Hmap & Hnil & Hcons).
      exists (chan :: done), todo. split; [reflexivity|]. split; [exact Htodo|].
      split.
      { rewrite Hmap, Htr, map_app. simpl. rewrite Hev, <- app_assoc. reflexivity. }
      split; [discriminate|]. intros _.
      destruct done as [|c done'].
      * rewrite (Hnil eq_refl). eauto.
      * apply Hcons. discriminate.
Qed.

Lemma py_range_flags n step :
  (0 < step)%nat →
  map (fun c => (c =? 0)%nat) (py_range n step)
  = match py_range n step with
    | [] => []
    | _ :: rest => true :: map (fun _ => false) rest
    end.
Proof.
  intros Hs. unfold py_range.
  destruct (Nat.div (n + step - 1) step) as [|k]; [reflexivity|].
  simpl. f_equal. rewrite <- seq_shift, !map_map.
  apply map_ext. intros i. apply Nat.eqb_neq. nia.
Qed.

Lemma flags_prefix_shape (tr : list write_event) (done todo : list nat) n step :
  (0 < step)%nat → py_range n step = done ++ todo →
  map is_create tr = map (fun c => (c =? 0)%nat) done →
  create_then_append tr.
Proof.
  intros Hs Hr Hm. pose proof (py_range_flags n step Hs) as Hf.
  rewrite Hr, map_app, <- Hm in Hf.
  destruct tr as [|ev rest]; [exact I|]. simpl in *.
  destruct (done ++ todo) as [|c l] eqn:Hdt; [discriminate|].
  injection Hf as Hev Hrest. split; [exact Hev|].
  apply Forall_forall. intros ev' Hin.
  assert (Hin' : is_create ev' ∈ map is_create rest ++ map (fun c => (c =? 0)%nat) todo).
  { apply elem_of_app. left. apply list_elem_of_fmap. eauto. }
  rewrite Hrest in Hin'. apply list_elem_of_fmap in Hin' as (? & -> & _). reflexivity.
Qed.

Lemma convert_batches_effects prefix outfile compressor chunk_shape nofile st fs r fs' tr :
  convert_batches prefix outfile compressor chunk_shape nofile st fs = (r, (fs', tr)) →
  (∀ p, p ≠ outfile → fs' !! p = fs !! p) ∧
  (nofile = true → fs' = fs ∧ tr = []) ∧
  (nofile = false →
   create_then_append tr ∧
   (tr = [] → fs' = fs) ∧
   (tr ≠ [] → ∃ ds enc, fs' !! outfile = Some (ZarrNode ds enc)) ∧
   ∀ xds, r = inr (RDataset xds) → ∃ enc, fs' !! outfile = Some (ZarrNode xds enc)).
Proof.
  unfold convert_batches. intros H.
  destruct (prepare (meta st) chunk_shape nofile) as [err|[[[m chan_dim] cs] chan_batch]].
  { injection H as <- <- <-. repeat split; auto; try contradiction. discriminate. }
  destruct (getitem (t_dsize m) chan_dim) as [err|nchan].
  { injection H as <- <- <-. repeat split; auto; try contradiction. discriminate. }
  destruct (chan_batch =? 0)%nat eqn:Hcb.
  { injection H as <- <- <-. repeat split; auto; try contradiction. discriminate. }
  apply Nat.eqb_neq in Hcb.
  match type of H with
  | context [batch_loop ?e ?chans ?st0] =>
      destruct (batch_loop e chans st0) as [err b] eqn:Hl;
      apply batch_loop_effects in Hl as (Hf & Hn & Hw); simpl in Hf, Hn, Hw
  end.
  assert (Hfs : fs' = b_fs b ∧ tr = b_trace b).
  { destruct err; [|destruct nofile]; cbv beta iota in H; injection H as _ <- <-; auto. }
  destruct Hfs as [-> ->].
  split; [exact Hf|]. split; [exact Hn|].
  intros Hno. destruct (Hw Hno) as (done & todo & Hr & Htodo & Hmap & Hnil & Hcons).
  assert (Hd : b_trace b = [] ↔ done = []).
  { split; intros E.
    - rewrite E in Hmap. simpl in Hmap. destruct done; [reflexivity | discriminate].
    - rewrite E in Hmap. simpl in Hmap. destruct (b_trace b); [reflexivity | discriminate]. }
  split; [eapply flags_prefix_shape; [|exact Hr|exact Hmap]; lia|].
  split; [intros E; apply Hnil, Hd, E|].
  split; [intros E; apply Hcons; intros E'; apply E, Hd, E'|].
  intros xds Hx. subst nofile.
  destruct err; cbv beta iota in H; [injection H as H; congruence|].
  injection H as H. rewrite Hx in H. unfold open_zarr in H.
  destruct (b_fs b !! outfile) as [[|ds enc|]|]; simpl in H; try discriminate.
  injection H as ->. eauto.
Qed.

(** X4. A conversion in memory touches no file: with [nofile] the call
    leaves the file system exactly as it was and writes nothing, whether it
    returns or raises; the shell command of line 73 is not run. *)
Theorem in_memory_conversion_touches_nothing (expanduser : string → string)
    (rm_fr : string → gmap string node → gmap string node)
    (infile : string) (outfile : option string) (artifacts : option (list string))
    (compressor : option blosc) (chunk_shape : pyseq) (fs : gmap string node) :
  (convert_image expanduser rm_fr infile outfile artifacts compressor chunk_shape true fs).2
  = (fs, []).
Proof.
  unfold convert_image.
  destruct (paths expanduser infile outfile) as [err|[[prefix suffix] out]]; [reflexivity|].
  destruct (discover fs prefix (initial_imtypes suffix artifacts)) as [err|st];
    [reflexivity|].
  destruct (convert_batches prefix out (default default_compressor compressor) chunk_shape
              true st fs) as [r [fs' tr]] eqn:Hc.
  apply convert_batches_effects in Hc as (_ & Hn & _).
  destruct (Hn eq_refl) as [-> ->]. reflexivity.
Qed.

(** X5. A conversion that persists writes the store in order: the first
    write creates it and every later write appends to it.  When nothing was
    written the file system is as the shell command of line 73 left it;
    otherwise the output path holds a store; and a dataset the call returns
    is what the output path holds at the end. *)
Theorem persisting_writes_create_then_append (expanduser : string → string)
    (rm_fr : string → gmap string node → gmap string node)
    (infile : string) (outfile : option string) (artifacts : option (list string))
    (compressor : option blosc) (chunk_shape : pyseq) (fs : gmap string node)
    (prefix suffix out : string) (r : res retval) (fs' : gmap string node)
    (tr : list write_event) :
  paths expanduser infile outfile = inr (prefix, suffix, out) →
  convert_image expanduser rm_fr infile outfile artifacts compressor chunk_shape false fs
  = (r, (fs', tr)) →
  create_then_append tr ∧
  (tr = [] → fs' = rm_fr out fs) ∧
  (tr ≠ [] → ∃ ds enc, fs' !! out = Some (ZarrNode ds enc)) ∧
  (∀ xds, r = inr (RDataset xds) → ∃ enc, fs' !! out = Some (ZarrNode xds enc)).
Proof.
  intros Hp H. unfold convert_image in H. rewrite Hp in H. cbv beta iota zeta in H.
  destruct (discover (rm_fr out fs) prefix (initial_imtypes suffix artifacts)) as [err|st].
  { injection H as <- <- <-. split; [exact I|]. split; [reflexivity|].
    split; [congruence|]. discriminate. }
  apply convert_batches_effects in H as (_ & _ & Hw).
  exact (Hw eq_refl).
Qed.

(** X6. An input name without a dot makes the conversion raise
    [ValueError] at once: nothing is removed and nothing is written, with
    or without [nofile]. *)
Theorem no_dot_fails_untouched (expanduser : string → string)
    (rm_fr : string → gmap string node → gmap string node)
    (infile : string) (outfile : option string) (artifacts : option (list string))
    (compressor : option blosc) (chunk_shape : pyseq) (nofile : bool)
    (fs : gmap string node) :
  PyStr.contains "." (expanduser infile) = false →
  convert_image expanduser rm_fr infile outfile artifacts compressor chunk_shape nofile fs
  = (inl ValueError, (fs, [])).
Proof.
  intros Hc. unfold convert_image, paths, PyStr.rindex.
  assert (Hf : PyStr.rfind "." (expanduser infile) = None) by (by apply rfind_None_iff).
  rewrite Hf. reflexivity.
Qed.

(** X7. An image without a channel axis cannot be converted: when the
    dimensions of the reference hold no [chan], the conversion raises
    [ValueError] before any write; the file system is as the shell command
    of line 73 left it, or as it was when [nofile] is set. *)
Theorem no_channel_axis_raises (expanduser : string → string)
    (rm_fr : string → gmap string node → gmap string node)
    (infile : string) (outfile : option string) (artifacts : option (list string))
    (compressor : option blosc) (chunk_shape : pyseq) (nofile : bool)
    (fs : gmap string node) (prefix suffix out : string) (st : dstate) (m : tmrec) :
  paths expanduser infile outfile = inr (prefix, suffix, out) →
  discover (if nofile then fs else rm_fr out fs) prefix
    (initial_imtypes suffix artifacts) = inr st →
  meta st = Some m →
  "chan" ∉ t_dims m →
  convert_image expanduser rm_fr infile outfile artifacts compressor chunk_shape nofile fs
  = (inl ValueError, (if nofile then fs else rm_fr out fs, [])).
Proof.
  intros Hp Hd Hm Hc. unfold convert_image. rewrite Hp, Hd.
  unfold convert_batches, prepare. rewrite Hm. simpl.
  unfold list_index.
  destruct (list_find (fun y => y = "chan") (t_dims m)) as [[i y]|] eqn:Hf; [|reflexivity].
  exfalso. apply list_find_Some in Hf as (Hl & -> & _).
  apply Hc. apply list_elem_of_lookup. eauto.
Qed.

(** X8. A [chunk_shape] with fewer than four entries makes the conversion
    raise [IndexError] once a reference with a channel axis is found, before
    any write, whatever the number of axes of the image; the file system is
    as the shell command of line 73 left it, or as it was when [nofile] is
    set. *)
Theorem short_chunk_shape_raises (expanduser : string → string)
    (rm_fr : string → gmap string node → gmap string node)
    (infile : string) (outfile : option string) (artifacts : option (list string))
    (compressor : option blosc) (chunk_shape : pyseq) (nofile : bool)
    (fs : gmap string node) (prefix suffix out : string) (st : dstate) (m : tmrec) :
  paths expanduser infile outfile = inr (prefix, suffix, out) →
  discover (if nofile then fs else rm_fr out fs) prefix
    (initial_imtypes suffix artifacts) = inr st →
  meta st = Some m →
  "chan" ∈ t_dims m →
  (length (items chunk_shape) < 4)%nat →
  convert_image expanduser rm_fr infile outfile artifacts compressor chunk_shape nofile fs
  = (inl IndexError, (if nofile then fs else rm_fr out fs, [])).
Proof.
  intros Hp Hd Hm Hc Hlen. unfold convert_image. rewrite Hp, Hd.
  unfold convert_batches, prepare. rewrite Hm. simpl.
  unfold list_index.
  destruct (list_find (fun y => y = "chan") (t_dims m)) as [[i y]|] eqn:Hf.
  - simpl. unfold getitem. rewrite lookup_ge_None_2 by lia. reflexivity.
  - exfalso. apply list_elem_of_lookup in Hc as (i & Hi).
    pose proof (list_find_None (fun y => y = "chan") (t_dims m)) as [Hn _].
    specialize (Hn Hf). rewrite Forall_forall in Hn.
    apply (Hn "chan"); [|reflexivity]. apply list_elem_of_lookup. eauto.
Qed.

(** ** Dimension names *)

Lemma rfilter_defined {A} (p : A → res bool) l r :
  rfilter p l = inr r → ∀ x, x ∈ l → ∃ b, p x = inr b.
Proof.
  revert r. induction l as [|a l IH]; simpl; intros r H x Hx.
  - by apply elem_of_nil in Hx.
  - apply rbind_ok in H as (b & Hb & H).
    apply rbind_ok in H as (r' & Hr & _).
    apply elem_of_cons in Hx as [->|Hx]; eauto.
Qed.

(** X10. Every axis of an image gets one dimension name: an axis whose unit
    is [rad] is named [d] followed by its position, every other axis by its
    own name, lower-cased, with spaces replaced by underscores, [stokes] by
    [pol] and [frequency] by [chan]. *)
Theorem dims_named_by_kind (im : image) (r : resolved) :
  resolve_coords im = inr r →
  length (r_dims r) = length (ia_shape im) ∧
  ∀ i, (i < length (ia_shape im))%nat →
    ∃ u, axisunits (im_summary im) !! i = Some u ∧
      if String.eqb u "rad" then r_dims r !! i = Some ("d" +:+ str_nat i)
      else ∃ name, axisnames (im_summary im) !! i = Some name ∧
                   r_dims r !! i = Some (norm_axis_name name).
Proof.
  intros H. split; [by apply resolve_coords_dims_length|].
  unfold resolve_coords in H.
  apply rbind_ok in H as (sphr & Hs & H).
  apply rbind_ok in H as (sw & _ & H).
  apply rbind_ok in H as (si & _ & H).
  apply rbind_ok in H as (cw & _ & H).
  apply rbind_ok in H as (ci & _ & H).
  apply rbind_ok in H as (dims & Hd & H). inv_ok H. subst r. simpl.
  intros i Hi.
  assert (Hu : ∃ u, axisunits (im_summary im) !! i = Some u).
  { unfold sphr_dims_of in Hs.
    destruct (rfilter_defined _ _ _ Hs i) as (b & Hb).
    { apply list_elem_of_In, in_seq. lia. }
    unfold getitem in Hb. destruct (axisunits (im_summary im) !! i); [eauto | discriminate]. }
  destruct Hu as (u & Hu). exists u. split; [exact Hu|].
  apply rmap_Forall2 in Hd.
  destruct (Forall2_lookup_l _ _ _ i i Hd) as (b & Hb & Hf).
  { by apply lookup_seq_lt. }
  rewrite Hb.
  pose proof (sphr_dims_rad _ _ _ Hs i) as Hrad.
  pose proof (cart_dims_complement sphr (ia_shape im) i) as Hcart.
  destruct (String.eqb_spec u "rad") as [->|Hne].
  - rewrite bool_decide_eq_false_2 in Hf.
    + inv_ok Hf. congruence.
    + rewrite Hcart. intros [_ Hn]. apply Hn, Hrad. auto.
  - rewrite bool_decide_eq_true_2 in Hf.
    + unfold getitem in Hf. rewrite list_lookup_fmap in Hf.
      destruct (axisnames (im_summary im) !! i) as [name|]; simpl in Hf; inv_ok Hf.
      exists name. split; [reflexivity | congruence].
    + rewrite Hcart. split; [exact Hi|]. rewrite Hrad. intros [_ Hr]. congruence.
Qed.

(** ** The variables of a record *)

Lemma last_cons_alt {A} (x : A) (l : list A) :
  last (x :: l) = match last l with Some y => Some y | None => Some x end.
Proof.
  revert x. induction l as [|y l IH]; intros x; [reflexivity|].
  change (last (x :: y :: l)) with (last (y :: l)).
  rewrite (IH y). by destruct (last l).
Qed.

Lemma has_masks_image fs prefix t im :
  art_image fs prefix t = Some im →
  has_masks fs prefix t = (0 <? length (masks (im_summary im)))%nat.
Proof. unfold has_masks. by intros ->. Qed.

Lemma read_artifact_mask_key fs prefix dims pt1 pt2 xdas t xdas' :
  read_artifact fs prefix dims pt1 pt2 xdas t = inr xdas' →
  if has_masks fs prefix t
  then ∃ im mchunk,
         art_image fs prefix t = Some im ∧ getchunk_mask im pt1 pt2 = inr mchunk ∧
         xdas' !! "mask" = Some (mk_var dims (BoolData mchunk))
  else xdas' !! "mask" = xdas !! "mask".
Proof.
  unfold read_artifact. intros H.
  apply rbind_ok in H as (im & Him & H). apply ia_open_art in Him.
  apply rbind_ok in H as (imchunk & _ & H).
  apply rbind_ok in H as (xdas1 & H1 & H).
  rewrite (has_masks_image _ _ _ _ Him).
  destruct (_ <? _)%nat.
  - apply rbind_ok in H as (mchunk & Hm & H).
    apply rbind_ok in H as (v & Hv & H). inv_ok H. subst xdas'.
    apply xa_spec in Hv as [-> _].
    exists im, mchunk. split; [exact Him|]. split; [exact Hm|]. apply lookup_insert_eq.
  - inv_ok H. subst xdas'.
    set (name := if String.eqb t "fits" then "image" else t) in *.
    destruct (String.eqb name "mask") eqn:Hn.
    + apply rbind_ok in H1 as (v & _ & H1). inv_ok H1. subst xdas1.
      by rewrite lookup_insert_ne.
    + apply String.eqb_neq in Hn. destruct (String.eqb name "sumwt").
      * apply rbind_ok in H1 as (n & _ & H1).
        apply rbind_ok in H1 as (r & _ & H1).
        apply rbind_ok in H1 as (v & _ & H1). inv_ok H1. subst xdas1.
        by rewrite lookup_insert_ne.
      * apply rbind_ok in H1 as (v & _ & H1). inv_ok H1. subst xdas1.
        by rewrite lookup_insert_ne.
Qed.

Lemma read_artifacts_mask_key fs prefix dims pt1 pt2 imtypes xdas xdas' :
  read_artifacts fs prefix dims pt1 pt2 imtypes xdas = inr xdas' →
  match last (List.filter (has_masks fs prefix) imtypes) with
  | Some t =>
      ∃ im mchunk,
        art_image fs prefix t = Some im ∧ getchunk_mask im pt1 pt2 = inr mchunk ∧
        xdas' !! "mask" = Some (mk_var dims (BoolData mchunk))
  | None => xdas' !! "mask" = xdas !! "mask"
  end.
Proof.
  revert xdas. induction imtypes as [|t rest IH]; simpl; intros xdas H.
  - inv_ok H. by subst.
  - apply rbind_ok in H as (xdas1 & H1 & H).
    apply read_artifact_mask_key in H1. specialize (IH _ H).
    destruct (has_masks fs prefix t).
    + rewrite last_cons_alt.
      destruct (last (List.filter (has_masks fs prefix) rest)); [exact IH|].
      destruct H1 as (im & mchunk & Him & Hm & Hl).
      exists im, mchunk. rewrite IH. auto.
    + destruct (last (List.filter (has_masks fs prefix) rest)); [exact IH|].
      by rewrite IH.
Qed.

(** X11. The variable [mask] of a record is a validity mask and nothing
    else: when no artifact of the batch carries a validity mask the record
    has no variable [mask]; otherwise [mask] is the boolean validity mask,
    read for the channel range of the batch, of the last artifact in
    processing order that carries one (a later artifact overwrites the mask
    of an earlier one). *)
Theorem validity_mask_last_wins (e : batch_env) (fs : gmap string node)
    (chan : nat) (xds : dataset) :
  assemble e fs chan = inr xds →
  match last (List.filter (has_masks fs (e_prefix e)) (e_imtypes e)) with
  | None => data_vars xds !! "mask" = None
  | Some t =>
      ∃ im pt1 pt2 mchunk o v',
        art_image fs (e_prefix e) t = Some im ∧
        list_setitem (replicate (length (e_dsize e)) (-1)) (e_chan_dim e) (Z.of_nat chan)
          = inr pt1 ∧
        list_setitem (replicate (length (e_dsize e)) (-1)) (e_chan_dim e)
          (Z.of_nat chan + Z.of_nat (e_chan_batch e) - 1) = inr pt2 ∧
        getchunk_mask im pt1 pt2 = inr mchunk ∧
        moved o (mk_var (e_dims e) (BoolData mchunk)) v' ∧
        data_vars xds !! "mask" = Some v' ∧
        ∃ b, vdata v' = BoolData b
  end.
Proof.
  intros H. apply assemble_spec in H
    as (pt1 & pt2 & xdas & o & H1 & H2 & Hx & _ & Hv & _).
  apply read_artifacts_mask_key in Hx. pose proof (Hv "mask") as Hk.
  destruct (last (List.filter (has_masks fs (e_prefix e)) (e_imtypes e))) as [t|].
  - destruct Hx as (im & mchunk & Him & Hm & Hl). rewrite Hl in Hk.
    destruct Hk as (v' & Hmv & Hl').
    exists im, pt1, pt2, mchunk, o, v'. repeat (split; [assumption|]).
    destruct o as [dims|]; simpl in Hmv.
    + apply transpose_var_kind in Hmv. exact Hmv.
    + subst v'. simpl. eauto.
  - rewrite Hx, lookup_empty in Hk. exact Hk.
Qed.

Lemma getchunk_of_size {A} (f : list nat → A) sh pt1 pt2 a :
  getchunk_of f sh pt1 pt2 = inr a → length (data a) = size (shape a).
Proof.
  unfold getchunk_of. destruct (_ && _); intros H; inv_ok H. subst a.
  unfold build. simpl. rewrite length_map. apply mgrid_length.
Qed.

Lemma read_artifacts_each fs prefix dims pt1 pt2 imtypes xdas xdas' t :
  read_artifacts fs prefix dims pt1 pt2 imtypes xdas = inr xdas' →
  t ∈ imtypes →
  ∃ xa xb, read_artifact fs prefix dims pt1 pt2 xa t = inr xb.
Proof.
  revert xdas. induction imtypes as [|t' rest IH]; simpl; intros xdas H Hin.
  - by apply elem_of_nil in Hin.
  - apply rbind_ok in H as (xdas1 & H1 & H).
    apply elem_of_cons in Hin as [->|Hin]; eauto.
Qed.

(** X12. A record that includes the sum of weights exists only when the
    chunk read from that artifact has as many elements as its third axis is
    long: on a chunk of four axes with a non-empty third axis, the two
    leading axes and the fourth axis all have length one. *)
Theorem sumwt_needs_unit_extents (e : batch_env) (fs : gmap string node)
    (chan : nat) (xds : dataset) :
  assemble e fs chan = inr xds →
  "sumwt" ∈ e_imtypes e →
  ∃ im pt1 pt2 imchunk n,
    art_image fs (e_prefix e) "sumwt" = Some im ∧
    list_setitem (replicate (length (e_dsize e)) (-1)) (e_chan_dim e) (Z.of_nat chan)
      = inr pt1 ∧
    list_setitem (replicate (length (e_dsize e)) (-1)) (e_chan_dim e)
      (Z.of_nat chan + Z.of_nat (e_chan_batch e) - 1) = inr pt2 ∧
    getchunk im pt1 pt2 = inr imchunk ∧
    shape imchunk !! 2%nat = Some n ∧
    size (shape imchunk) = n ∧
    ∀ a b k, shape imchunk = [a; b; n; k] → (0 < n)%nat →
             a = 1%nat ∧ b = 1%nat ∧ k = 1%nat.
Proof.
  intros H Hin. apply assemble_spec in H
    as (pt1 & pt2 & xdas & o & H1 & H2 & Hx & _).
  destruct (read_artifacts_each _ _ _ _ _ _ _ _ _ Hx Hin) as (xa' & xb & Hr).
  unfold read_artifact in Hr.
  apply rbind_ok in Hr as (im & Him & Hr). apply ia_open_art in Him.
  apply rbind_ok in Hr as (imchunk & Hch & Hr).
  change (String.eqb "sumwt" "fits") with false in Hr. cbv iota in Hr.
  change (String.eqb "sumwt" "mask") with false in Hr. cbv iota in Hr.
  change (String.eqb "sumwt" "sumwt") with true in Hr. cbv iota in Hr.
  apply rbind_ok in Hr as (xdas1 & Hs & _).
  apply rbind_ok in Hs as (n & Hn & Hs).
  apply rbind_ok in Hs as (r & Hre & _).
  unfold getitem in Hn. destruct (shape imchunk !! 2%nat) as [n'|] eqn:Hn'; inv_ok Hn.
  subst n'.
  assert (Hsize : size (shape imchunk) = n).
  { unfold reshape in Hre. case_decide as Hd; [|discriminate].
    unfold getchunk in Hch. apply getchunk_of_size in Hch.
    rewrite Hch in Hd. simpl in Hd. lia. }
  exists im, pt1, pt2, imchunk, n. repeat (split; [assumption|]).
  intros a b k Hsh Hpos. rewrite Hsh in Hsize. simpl in Hsize.
  assert (Hp : (a * (b * k) = 1)%nat).
  { apply (Nat.mul_cancel_l _ _ n); lia. }
  destruct a as [|[|a]], b as [|[|b]], k as [|[|k]]; lia.
Qed.

Lemma var_name_not_mask t : var_name t ≠ "mask".
Proof.
  unfold var_name. destruct (String.eqb t "fits"); [discriminate|].
  destruct (String.eqb_spec t "mask"); [discriminate | assumption].
Qed.

Lemma read_artifact_keys fs prefix dims pt1 pt2 xdas t xdas' :
  read_artifact fs prefix dims pt1 pt2 xdas t = inr xdas' →
  ∀ k, is_Some (xdas' !! k) ↔
       is_Some (xdas !! k) ∨ k = var_name t ∨
       (k = "mask" ∧ has_masks fs prefix t = true).
Proof.
  unfold read_artifact. intros H k.
  apply rbind_ok in H as (im & Him & H). apply ia_open_art in Him.
  apply rbind_ok in H as (imchunk & _ & H).
  apply rbind_ok in H as (xdas1 & H1 & H).
  rewrite (has_masks_image _ _ _ _ Him).
  assert (Hk1 : is_Some (xdas1 !! k) ↔ is_Some (xdas !! k) ∨ k = var_name t).
  { unfold var_name.
    destruct (String.eqb (if String.eqb t "fits" then "image" else t) "mask").
    - apply rbind_ok in H1 as (v & _ & H1). inv_ok H1. subst xdas1.
      rewrite lookup_insert_is_Some. destruct (decide ("deconvolve" = k)); intuition (auto; congruence).
    - destruct (String.eqb (if String.eqb t "fits" then "image" else t) "sumwt").
      + apply rbind_ok in H1 as (n & _ & H1).
        apply rbind_ok in H1 as (r & _ & H1).
        apply rbind_ok in H1 as (v & _ & H1). inv_ok H1. subst xdas1.
        rewrite lookup_insert_is_Some.
        destruct (decide ((if String.eqb t "fits" then "image" else t) = k));
          intuition (auto; congruence).
      + apply rbind_ok in H1 as (v & _ & H1). inv_ok H1. subst xdas1.
        rewrite lookup_insert_is_Some.
        destruct (decide ((if String.eqb t "fits" then "image" else t) = k));
          intuition (auto; congruence). }
  destruct (_ <? _)%nat.
  - apply rbind_ok in H as (mchunk & _ & H).
    apply rbind_ok in H as (v & _ & H). inv_ok H. subst xdas'.
    rewrite lookup_insert_is_Some, Hk1. destruct (decide ("mask" = k)); intuition (auto; congruence).
  - inv_ok H. subst xdas'. rewrite Hk1. intuition (auto; congruence).
Qed.

Lemma read_artifacts_keys fs prefix dims pt1 pt2 imtypes xdas xdas' :
  read_artifacts fs prefix dims pt1 pt2 imtypes xdas = inr xdas' →
  ∀ k, is_Some (xdas' !! k) ↔
       is_Some (xdas !! k) ∨
       ∃ t, t ∈ imtypes ∧
            (k = var_name t ∨ (k = "mask" ∧ has_masks fs prefix t = true)).
Proof.
  revert xdas. induction imtypes as [|t rest IH]; simpl; intros xdas H k.
  - inv_ok H. subst. split; [auto|].
    intros [Hs|(t & Hin & _)]; [exact Hs | by apply elem_of_nil in Hin].
  - apply rbind_ok in H as (xdas1 & H1 & H).
    rewrite (IH _ H k), (read_artifact_keys _ _ _ _ _ _ _ _ H1 k). split.
    + intros [[Hs|Hk]|(t' & Hin & Hk)]; [by left| |].
      * right. exists t. split; [by left | exact Hk].
      * right. exists t'. split; [by right | exact Hk].
    + intros [Hs|(t' & Hin & Hk)]; [by left; left|].
      apply elem_of_cons in Hin as [->|Hin]; [by left; right|].
      right. exists t'. auto.
Qed.

(** X13. The variables of a record are named by the artifacts read for it
    and by nothing else: every artifact contributes one variable, [image]
    for the type [fits], [deconvolve] for the type [mask] and its own type
    otherwise, and the record has a variable [mask] exactly when one of the
    artifacts carries a validity mask. *)
Theorem record_variables_named_by_artifacts (e : batch_env)
    (fs : gmap string node) (chan : nat) (xds : dataset) :
  assemble e fs chan = inr xds →
  ∀ k, is_Some (data_vars xds !! k) ↔
       ∃ t, t ∈ e_imtypes e ∧
            (k = var_name t ∨ (k = "mask" ∧ has_masks fs (e_prefix e) t = true)).
Proof.
  intros H k. apply assemble_spec in H
    as (pt1 & pt2 & xdas & o & _ & _ & Hx & _ & Hv & _).
  pose proof (read_artifacts_keys _ _ _ _ _ _ _ _ Hx k) as Hkeys.
  rewrite lookup_empty in Hkeys. specialize (Hv k).
  destruct (xdas !! k) as [v|].
  - destruct Hv as (v' & _ & ->). split; [intros _|eauto].
    destruct (proj1 Hkeys) as [[? Hn]|Ht]; [eauto | discriminate Hn | exact Ht].
  - rewrite Hv. split; [intros [? Hn]; discriminate Hn|].
    intros Ht. apply Hkeys. by right.
Qed.

(** ** Attributes *)

Lemma py_fold_notin {V} (l : list (string * V)) (m : gmap string V) k :
  k ∉ l.*1 → foldl (fun m kv => <[kv.1 := kv.2]> m) m l !! k = m !! k.
Proof.
  revert m. induction l as [|[k' v'] l IH]; simpl; intros m Hn; [reflexivity|].
  apply not_elem_of_cons in Hn as [Hne Hn]. rewrite IH by exact Hn.
  by apply lookup_insert_ne.
Qed.

Lemma py_dict_None {V} (l : list (string * V)) k :
  k ∉ l.*1 → py_dict l !! k = None.
Proof. intros Hn. unfold py_dict. rewrite py_fold_notin by exact Hn. apply lookup_empty. Qed.

Lemma py_dict_NoDup {V} (l : list (string * V)) k v :
  NoDup l.*1 → (k, v) ∈ l → py_dict l !! k = Some v.
Proof.
  unfold py_dict. generalize (∅ : gmap string V).
  induction l as [|[k' v'] l IH]; simpl; intros m Hnd Hin.
  - by apply elem_of_nil in Hin.
  - apply NoDup_cons in Hnd as [Hk Hnd].
    apply elem_of_cons in Hin as [Heq|Hin].
    + injection Heq as -> ->. rewrite py_fold_notin by exact Hk.
      apply lookup_insert_eq.
    + by apply IH.
Qed.

Lemma summary_items_cases s k v :
  In (k, v) (summary_items s) →
  (is_dict v = false ∧
   (k = "axisnames" ∨ k = "axisunits" ∨ k = "shape" ∨ k = "masks" ∨ k = "messages"))
  ∨ (k, v) ∈ others s.
Proof.
  unfold summary_items. intros H. apply in_app_or in H as [H|H].
  - left. simpl in H.
    destruct H as [H|[H|[H|[H|[H|[]]]]]]; injection H as <- <-; (split; [reflexivity|]); auto.
  - right. by apply list_elem_of_In.
Qed.

Lemma rmap_raises {A B} (f : A → res B) l e :
  rmap f l = inl e → ∃ x, x ∈ l ∧ f x = inl e.
Proof.
  induction l as [|a l IH]; simpl; [discriminate|].
  destruct (f a) as [e'|b] eqn:Hf; simpl.
  - intros H. injection H as ->. exists a. split; [by left | exact Hf].
  - destruct (rmap f l) as [e'|bs]; simpl; [|discriminate].
    intros H. injection H as ->. destruct (IH eq_refl) as (x & Hx & Hfx).
    exists x. split; [by right | exact Hfx].
Qed.

Lemma nested_dict_flat v r :
  is_dict v = true → nested_to_record v = inr r → ∃ d, r = FlatDict d.
Proof.
  destruct v as [| | | |d]; try discriminate. intros _ H.
  unfold nested_to_record in H. cbn [flatten] in H.
  apply rbind_ok in H as (x & _ & H). injection H as <-. eauto.
Qed.

(** X14. The summary keys that the conversion omits do not reach the
    attributes from the summary: for a summary whose remaining keys are
    lower-case and hold no dict under an omitted key, and whose dicts
    flatten, normalisation succeeds, and an omitted key is an attribute
    only if a message line has it as its label, in which case the attribute
    is the text of the last such line. *)
Theorem omitted_summary_keys_dropped (s : summary) :
  (∀ k v, (k, v) ∈ others s → PyStr.lower k = k) →
  (∀ k v, (k, v) ∈ others s → is_dict v = true → k ∉ attr_omits) →
  (∀ k v, (k, v) ∈ others s → is_dict v = true → is_inr (nested_to_record v) = true) →
  ∃ A, normalize_attrs s = inr A ∧
       ∀ k, k ∈ attr_omits →
            A !! k = SStr <$> last_value k (flat_map kept_pairs (messages s)).
Proof.
  intros Hlow Hdict Hflat. unfold normalize_attrs.
  assert (Hsa : ∃ A0, summary_attrs s = inr A0 ∧ ∀ k, k ∈ attr_omits → A0 !! k = None).
  { unfold summary_attrs.
    match goal with
    | |- context [rmap ?f ?l] => destruct (rmap f l) as [e|flattened] eqn:Hr
    end.
    - exfalso. apply rmap_raises in Hr as ([k v] & Hel & Hf).
      apply list_elem_of_In, filter_In in Hel as [Hel Hd]. simpl in Hd, Hf.
      apply summary_items_cases in Hel as [[Hnd _]|Hel]; [congruence|].
      specialize (Hflat _ _ Hel Hd).
      destruct (nested_to_record v) as [e'|r] eqn:Hn; [discriminate Hflat|].
      destruct (nested_dict_flat _ _ Hd Hn) as (d & ->). discriminate Hf.
    - cbn [rbind]. eexists. split; [reflexivity|]. intros k Hin.
      unfold dict_update. apply lookup_union_None_2.
      + apply py_dict_None. intros Hel.
        apply list_elem_of_fmap in Hel as ([k1 v1] & Hk1 & Hel). simpl in Hk1. subst k1.
        apply rmap_Forall2 in Hr.
        apply list_elem_of_lookup in Hel as (i & Hi).
        destruct (Forall2_lookup_r _ _ _ _ _ Hr Hi) as ([k2 v2] & H2 & Hf).
        simpl in Hf. apply rbind_ok in Hf as (r & _ & Hf).
        apply rbind_ok in Hf as (its & _ & Hf). injection Hf as -> _.
        assert (Hel : In (k, v2) (List.filter (fun kv => is_dict kv.2) (summary_items s))).
        { apply list_elem_of_In, list_elem_of_lookup. eauto. }
        apply filter_In in Hel as [Hel Hd]. simpl in Hd.
        apply summary_items_cases in Hel as [[Hnd _]|Hel]; [congruence|].
        by apply (Hdict _ _ Hel Hd).
      + apply py_dict_None. intros Hel.
        apply list_elem_of_fmap in Hel as ([k1 v1] & Hk1 & Hel). simpl in Hk1. subst k1.
        apply list_elem_of_In, in_map_iff in Hel as ([k2 v2] & Heq & Hel).
        simpl in Heq. injection Heq as Hlk _.
        apply filter_In in Hel as [Hel Hd].
        apply negb_true_iff, bool_decide_eq_false in Hd. cbn [fst] in Hd.
        rewrite elem_of_app in Hd.
        apply summary_items_cases in Hel as [[_ Hc]|Hel].
        * destruct Hc as [->|[->|[->|[->| ->]]]];
            try (apply Hd; left; apply (bool_decide_eq_true_1 _); reflexivity).
          subst k. revert Hin. apply (bool_decide_eq_false_1 _). reflexivity.
        * rewrite (Hlow _ _ Hel) in Hlk. subst k2. apply Hd. by left. }
  destruct Hsa as (A0 & -> & Hk0). cbn [rbind].
  destruct (parse_messages_lookup (messages s) A0) as (A & HA & Hk).
  exists A. split; [exact HA|]. intros k Hin. rewrite Hk.
  destruct (last_value k (flat_map kept_pairs (messages s))); [reflexivity|]. simpl.
  by apply Hk0.
Qed.

(** ** Chunking *)

Lemma rfilter_total {A} (p : A → res bool) (g : A → bool) l :
  Forall (fun a => p a = inr (g a)) l → rfilter p l = inr (List.filter g l).
Proof.
  induction 1 as [|a l Ha _ IH]; simpl; [reflexivity|].
  rewrite Ha. simpl. rewrite IH. simpl. by destruct (g a).
Qed.

Lemma rfilter_raises {A} (p : A → res bool) l1 x l2 err :
  Forall (fun a => ∃ b, p a = inr b) l1 → p x = inl err →
  rfilter p (l1 ++ x :: l2) = inl err.
Proof.
  intros Hall Hx. induction Hall as [|a l [b Ha] _ IH]; simpl.
  - by rewrite Hx.
  - rewrite Ha. simpl. by rewrite IH.
Qed.

(** X15. For dimensions of distinct names and a chunk shape with a slot for
    each, the chunking has one entry per dimension whose slot is positive,
    the slot being the one at the position of the dimension; a dimension
    whose slot is zero or negative has no entry, and neither has any other
    name. *)
Theorem chunking_keeps_positive_slots (dims : list string) (chunk_shape : list Z) :
  (length dims ≤ length chunk_shape)%nat →
  NoDup dims →
  ∃ chunking,
    chunking_of dims chunk_shape = inr chunking ∧
    (∀ ii d c, dims !! ii = Some d → chunk_shape !! ii = Some c →
               chunking !! d = if 0 <? c then Some c else None) ∧
    (∀ d, d ∉ dims → chunking !! d = None).
Proof.
  intros Hlen Hnd. unfold chunking_of.
  set (g := fun ii : nat => 0 <? default 0 (chunk_shape !! ii)).
  set (h := fun ii : nat => (default "" (dims !! ii), default 0 (chunk_shape !! ii))).
  assert (Hin : ∀ ii, In ii (seq 0 (length dims)) →
                      ∃ d c, dims !! ii = Some d ∧ chunk_shape !! ii = Some c).
  { intros ii Hii. apply in_seq in Hii.
    destruct (lookup_lt_is_Some_2 dims ii) as [d Hd]; [lia|].
    destruct (lookup_lt_is_Some_2 chunk_shape ii) as [c Hc]; [lia|]. eauto. }
  rewrite (rfilter_total _ g).
  2:{ apply Forall_forall. intros ii Hii. apply list_elem_of_In in Hii.
      destruct (Hin ii Hii) as (d & c & Hd & Hc).
      unfold getitem, g. rewrite Hc. reflexivity. }
  simpl. rewrite (rmap_total _ h).
  2:{ apply Forall_forall. intros ii Hii.
      apply list_elem_of_In, filter_In in Hii as [Hii _].
      destruct (Hin ii Hii) as (d & c & Hd & Hc).
      unfold getitem, h. rewrite Hd, Hc. reflexivity. }
  simpl. eexists. split; [reflexivity|].
  assert (Hkeys : ∀ d, d ∈ (map h (List.filter g (seq 0 (length dims)))).*1 →
                       ∃ jj, dims !! jj = Some d ∧ g jj = true).
  { intros d Hel. apply list_elem_of_fmap in Hel as ([d' c'] & Hd' & Hel).
    simpl in Hd'. subst d'.
    apply list_elem_of_In, in_map_iff in Hel as (jj & Heq & Hel).
    apply filter_In in Hel as [Hel Hg].
    destruct (Hin jj Hel) as (d1 & c1 & Hd1 & Hc1).
    unfold h in Heq. rewrite Hd1, Hc1 in Heq. simpl in Heq. injection Heq as -> ->.
    eauto. }
  split.
  - intros ii d c Hd Hc.
    destruct (0 <? c) eqn:Hpos.
    + apply py_dict_NoDup.
      * rewrite <- list_fmap_compose.
        apply NoDup_fmap_2_strong.
        -- intros x y Hx Hy Heq. simpl in Heq.
           apply list_elem_of_In, filter_In in Hx as [Hx _].
           apply list_elem_of_In, filter_In in Hy as [Hy _].
           destruct (Hin x Hx) as (dx & cx & Hdx & _).
           destruct (Hin y Hy) as (dy & cy & Hdy & _).
           unfold h in Heq. rewrite Hdx, Hdy in Heq. simpl in Heq. subst dy.
           by apply (NoDup_lookup dims x y dx).
        -- apply NoDup_ListNoDup, List.NoDup_filter, seq_NoDup.
      * apply list_elem_of_In, in_map_iff. exists ii. split.
        -- unfold h. rewrite Hd, Hc. reflexivity.
        -- apply filter_In. split.
           ++ apply in_seq. apply lookup_lt_Some in Hd. lia.
           ++ unfold g. rewrite Hc. exact Hpos.
    + apply py_dict_None. intros Hel.
      destruct (Hkeys d Hel) as (jj & Hjj & Hg).
      assert (jj = ii) by (by apply (NoDup_lookup dims jj ii d)). subst jj.
      unfold g in Hg. rewrite Hc in Hg. simpl in Hg. congruence.
  - intros d Hnot. apply py_dict_None. intros Hel.
    destruct (Hkeys d Hel) as (jj & Hjj & _).
    apply Hnot. apply list_elem_of_lookup. eauto.
Qed.

(** X16. A record with more dimensions than the chunk shape has slots
    cannot be chunked: the lookup of the missing slot raises. *)
Theorem chunking_short_shape_raises (dims : list string) (chunk_shape : list Z) :
  (length chunk_shape < length dims)%nat →
  chunking_of dims chunk_shape = inl IndexError.
Proof.
  intros Hlen. unfold chunking_of.
  replace (length dims) with (length chunk_shape + S (length dims - length chunk_shape - 1))%nat
    by lia.
  rewrite seq_app. simpl.
  rewrite (rfilter_raises _ _ _ _ IndexError); [reflexivity| |].
  - apply Forall_forall. intros ii Hii. apply list_elem_of_In, in_seq in Hii.
    destruct (lookup_lt_is_Some_2 chunk_shape ii) as [c Hc]; [lia|].
    unfold getitem. rewrite Hc. simpl. eauto.
  - unfold getitem. rewrite lookup_ge_None_2 by lia. reflexivity.
Qed.

(** ** The value returned *)

Lemma batch_step_xds e st chan st' :
  batch_step e st chan = inr st' → is_Some (b_xds st').
Proof.
  unfold batch_step. intros H. apply rbind_ok in H as (xds & _ & H).
  destruct (_ && _).
  - inv_ok H. subst st'. simpl. eauto.
  - destruct (negb (e_nofile e)).
    + apply rbind_ok in H as (fs' & _ & H). inv_ok H. subst st'. simpl. eauto.
    + inv_ok H. subst st'. simpl. eauto.
Qed.

Lemma batch_loop_xds e chans st b :
  batch_loop e chans st = (None, b) →
  chans ≠ [] ∨ is_Some (b_xds st) → is_Some (b_xds b).
Proof.
  revert st. induction chans as [|chan rest IH]; simpl; intros st H Hc.
  - injection H as <-. destruct Hc as [Hc|Hc]; [congruence | exact Hc].
  - destruct (batch_step e st chan) as [err|st'] eqn:Hs; [discriminate|].
    apply (IH _ H). right. by apply batch_step_xds in Hs.
Qed.

Lemma py_range_nonempty n step :
  (0 < n)%nat → (0 < step)%nat → py_range n step ≠ [].
Proof.
  intros Hn Hs. unfold py_range.
  assert (1 ≤ (n + step - 1) / step)%nat as Hd.
  { apply Nat.div_le_lower_bound; lia. }
  destruct ((n + step - 1) / step)%nat; [lia | discriminate].
Qed.

(** X17. The conversion never returns the empty list that [xds] starts as:
    whatever the arguments and the files on disk, it raises or returns a
    dataset. *)
Theorem never_returns_empty_list (expanduser : string → string)
    (rm_fr : string → gmap string node → gmap string node)
    (infile : string) (outfile : option string) (artifacts : option (list string))
    (compressor : option blosc) (chunk_shape : pyseq) (nofile : bool)
    (fs : gmap string node) :
  (convert_image expanduser rm_fr infile outfile artifacts compressor chunk_shape nofile fs).1
  ≠ inr REmptyList.
Proof.
  unfold convert_image.
  destruct (paths expanduser infile outfile) as [err|[[prefix suffix] out]];
    [discriminate|].
  destruct (discover _ _ _) as [err|st]; [discriminate|].
  unfold convert_batches.
  destruct (prepare (meta st) chunk_shape nofile)
    as [err|[[[m chan_dim] cs] chan_batch]] eqn:Hp; [discriminate|].
  destruct (getitem (t_dsize m) chan_dim) as [err|nchan] eqn:Hn; [discriminate|].
  destruct (chan_batch =? 0)%nat eqn:Hz; [discriminate|].
  apply Nat.eqb_neq in Hz.
  destruct (batch_loop _ _ _) as [[err|] b] eqn:Hl; [discriminate|].
  destruct nofile.
  - simpl. unfold prepare in Hp.
    apply rbind_ok in Hp as (m' & Hm & Hp).
    apply rbind_ok in Hp as (cd & Hcd & Hp).
    apply rbind_ok in Hp as (c3 & Hc3 & Hp).
    apply rbind_ok in Hp as (cs' & Hcs & Hp).
    apply rbind_ok in Hp as (cb & Hcb & Hp).
    injection Hp as -> -> -> ->.
    rewrite Hn in Hcb. injection Hcb as ->.
    apply batch_loop_xds in Hl as [xds Hx].
    + rewrite Hx. discriminate.
    + left. apply py_range_nonempty; lia.
  - simpl. destruct (open_zarr _ _); simpl; discriminate.
Qed.

(** ** The keys of the coordinates *)

Lemma py_fold_keys {V} (l : list (string * V)) (m : gmap string V) k :
  is_Some (foldl (fun m kv => <[kv.1 := kv.2]> m) m l !! k) ↔
  is_Some (m !! k) ∨ k ∈ l.*1.
Proof.
  revert m. induction l as [|[k' v'] l IH]; simpl; intros m.
  - rewrite elem_of_nil. tauto.
  - rewrite IH, lookup_insert_is_Some, elem_of_cons.
    destruct (decide (k' = k)) as [->|Hne]; intuition (auto; congruence).
Qed.

Lemma update_fold_keys {V} (l : list (string * V)) (m : gmap string V) k :
  is_Some (foldl (fun c kv => dict_update c {[kv.1 := kv.2]}) m l !! k) ↔
  is_Some (m !! k) ∨ k ∈ l.*1.
Proof.
  revert m. induction l as [|[k' v'] l IH]; simpl; intros m.
  - rewrite elem_of_nil. tauto.
  - rewrite IH, elem_of_cons. unfold dict_update.
    rewrite lookup_union_is_Some, lookup_singleton_is_Some.
    intuition (auto; congruence).
Qed.

Lemma Forall2_keys {A V} (f : A → res (string * V)) (g : A → option string)
    (l : list A) (its : list (string * V)) :
  Forall2 (fun a kv => f a = inr kv) l its →
  (∀ a kv, f a = inr kv → g a = Some kv.1) →
  ∀ k, k ∈ its.*1 ↔ ∃ a, a ∈ l ∧ g a = Some k.
Proof.
  intros HF Hg k. split.
  - intros Hel. apply list_elem_of_fmap in Hel as (kv & -> & Hel).
    apply list_elem_of_lookup in Hel as (i & Hi).
    destruct (Forall2_lookup_r _ _ _ _ _ HF Hi) as (a & Ha & Hfa).
    exists a. split; [apply list_elem_of_lookup; eauto | by apply Hg].
  - intros (a & Hel & Hk).
    apply list_elem_of_lookup in Hel as (i & Hi).
    destruct (Forall2_lookup_l _ _ _ _ _ HF Hi) as (kv & Hkv & Hfa).
    apply list_elem_of_fmap. exists kv. split.
    + apply Hg in Hfa. congruence.
    + apply list_elem_of_lookup. eauto.
Qed.

Lemma world_arrays_length im sel ims ws :
  world_arrays im sel ims = inr ws → length ws = length sel.
Proof.
  unfold world_arrays. intros H. apply rbind_ok in H as (sh & _ & H).
  by apply rmap_length in H.
Qed.

(** X18. The coordinates of an image are keyed by its axis names and by
    nothing else: a key has a coordinate exactly when it is the normalised
    name of an axis. *)
Theorem coordinates_named_by_axes (im : image) (r : resolved) :
  resolve_coords im = inr r →
  ∀ k, is_Some (r_coords r !! k) ↔
       ∃ i name, (i < length (ia_shape im))%nat ∧
                 axisnames (im_summary im) !! i = Some name ∧
                 k = norm_axis_name name.
Proof.
  intros H k. unfold resolve_coords in H.
  apply rbind_ok in H as (sphr & Hs & H).
  apply rbind_ok in H as (sw & Hsw & H).
  apply rbind_ok in H as (si & Hsi & H).
  apply rbind_ok in H as (cw & Hcw & H).
  apply rbind_ok in H as (ci & Hci & H).
  apply rbind_ok in H as (dims & _ & H). inv_ok H. subst r. simpl.
  apply world_arrays_length in Hsw, Hcw.
  set (names := norm_axis_name <$> axisnames (im_summary im)) in *.
  pose proof (sphr_dims_rad _ _ _ Hs) as Hrad.
  pose proof (cart_dims_complement sphr (ia_shape im)) as Hcart.
  rewrite update_fold_keys. unfold py_dict. rewrite py_fold_keys, lookup_empty.
  apply rmap_Forall2 in Hsi, Hci.
  rewrite (Forall2_keys _ (fun p => names !! p.1) _ _ Hsi).
  2:{ intros [dd w] [k' c] Hf. simpl in *. unfold getitem in Hf.
      destruct (names !! dd) as [nm|]; simpl in Hf; [|discriminate].
      injection Hf as -> _. reflexivity. }
  rewrite (Forall2_keys _ (fun p => cart_dims_of sphr (ia_shape im) !! p.1
                                     ≫= fun axis => names !! axis) _ _ Hci).
  2:{ intros [dd cs] [k' c] Hf. simpl in *. unfold cart_coord in Hf.
      apply rbind_ok in Hf as (sl & _ & Hf).
      apply rbind_ok in Hf as (c0 & _ & Hf).
      apply rbind_ok in Hf as (axis & Hax & Hf).
      apply rbind_ok in Hf as (name & Hname & Hf). injection Hf as <- _.
      unfold getitem in Hax, Hname.
      destruct (cart_dims_of sphr (ia_shape im) !! dd) as [ax|]; [|discriminate].
      injection Hax as ->. simpl.
      destruct (names !! axis) as [nm|]; [|discriminate].
      injection Hname as ->. reflexivity. }
  assert (Hnames : ∀ i, names !! i = Some k ↔
            ∃ name, axisnames (im_summary im) !! i = Some name ∧ k = norm_axis_name name).
  { intros i. unfold names. rewrite list_lookup_fmap.
    destruct (axisnames (im_summary im) !! i) as [name|]; simpl.
    - split; [intros E; injection E as <-; eauto | intros (n' & E & ->); congruence].
    - split; [discriminate | intros (n' & E & _); discriminate]. }
  split.
  - intros [[[? Hn]|((dd & w) & Hel & Hk)]|((dd & cs) & Hel & Hk)]; [discriminate Hn| |].
    + simpl in Hk. apply elem_of_zip_l in Hel. apply Hrad in Hel as [Hlt _].
      apply Hnames in Hk as (name & Hn & ->). eauto.
    + simpl in Hk.
      destruct (cart_dims_of sphr (ia_shape im) !! dd) as [axis|] eqn:Hax; [|discriminate].
      simpl in Hk. assert (Hin : axis ∈ cart_dims_of sphr (ia_shape im)).
      { apply list_elem_of_lookup. eauto. }
      apply Hcart in Hin as [Hlt _].
      apply Hnames in Hk as (name & Hn & ->). eauto.
  - intros (i & name & Hlt & Hn & ->).
    assert (Hk : names !! i = Some (norm_axis_name name)) by (apply Hnames; eauto).
    destruct (decide (i ∈ sphr)) as [Hi|Hi].
    + left. right. apply list_elem_of_lookup in Hi as (j & Hj).
      destruct (lookup_lt_is_Some_2 sw j) as [w Hw].
      { rewrite Hsw. by apply lookup_lt_Some in Hj. }
      exists (i, w). split; [|exact Hk].
      apply list_elem_of_lookup. exists j. apply lookup_zip_with_Some. eauto.
    + right. assert (Hc : i ∈ cart_dims_of sphr (ia_shape im)) by (apply Hcart; auto).
      apply list_elem_of_lookup in Hc as (j & Hj).
      destruct (lookup_lt_is_Some_2 cw j) as [cs Hcs].
      { rewrite Hcw. by apply lookup_lt_Some in Hj. }
      exists (j, cs). split.
      * apply list_elem_of_lookup. exists j. rewrite list_lookup_imap, Hcs. reflexivity.
      * simpl. rewrite Hj. exact Hk.
Qed.

(** ** One write per batch *)

(** X19. A persisting conversion that returns has written once per batch:
    the batch size is positive, the number of writes is the number of
    channels divided by the batch size, rounded up, the write of the batch
    that starts at channel 0 creates the store and the write of every other
    batch appends to it. *)
Theorem one_write_per_batch (expanduser : string → string)
    (rm_fr : string → gmap string node → gmap string node)
    (infile : string) (outfile : option string) (artifacts : option (list string))
    (compressor : option blosc) (chunk_shape : pyseq) (fs : gmap string node)
    (prefix suffix out : string) (st : dstate) (m : tmrec) (chan_dim : nat)
    (cs : pyseq) (chan_batch nchan : nat) (r : retval) (fs' : gmap string node)
    (tr : list write_event) :
  paths expanduser infile outfile = inr (prefix, suffix, out) →
  discover (rm_fr out fs) prefix (initial_imtypes suffix artifacts) = inr st →
  prepare (meta st) chunk_shape false = inr (m, chan_dim, cs, chan_batch) →
  t_dsize m !! chan_dim = Some nchan →
  convert_image expanduser rm_fr infile outfile artifacts compressor chunk_shape false fs
  = (inr r, (fs', tr)) →
  (0 < chan_batch)%nat ∧
  length tr = ((nchan + chan_batch - 1) / chan_batch)%nat ∧
  map is_create tr = map (fun chan => (chan =? 0)%nat) (py_range nchan chan_batch).
Proof.
  intros Hp Hd Hprep Hn H. unfold convert_image in H. rewrite Hp in H.
  cbv beta iota zeta in H. rewrite Hd in H. unfold convert_batches in H.
  rewrite Hprep in H. unfold getitem in H. rewrite Hn in H.
  cbv beta iota delta [ok] in H.
  destruct (chan_batch =? 0)%nat eqn:Hz; [discriminate|].
  apply Nat.eqb_neq in Hz.
  match type of H with
  | context [batch_loop ?e ?chans ?st0] =>
      destruct (batch_loop e chans st0) as [err b] eqn:Hl
  end.
  apply batch_loop_effects in Hl as (_ & _ & Hw). simpl in Hw.
  destruct (Hw eq_refl) as (done & todo & Hr & Htodo & Hmap & _).
  destruct err as [err|]; cbv beta iota in H; [discriminate|].
  injection H as _ _ <-.
  rewrite (Htodo eq_refl), app_nil_r in Hr. subst done.
  split; [lia|]. split; [|exact Hmap].
  apply (f_equal length) in Hmap. rewrite !length_map in Hmap. rewrite Hmap.
  unfold py_range. rewrite length_map, length_seq. reflexivity.
Qed.

(** ** The further properties on concrete observations *)

Lemma no_dot_fails_untouched_witness :
  PyStr.contains "." (no_expand "ximage") = false ∧
  convert_image no_expand rm_words "ximage" None None None (PyTuple [-1; -1; 1; 1]) false
    ({[ "ximage.img.zarr" := old_store ]} : gmap string node)
  = (inl ValueError, ({[ "ximage.img.zarr" := old_store ]}, [])).
Proof.
  split; [reflexivity|].
  exact (no_dot_fails_untouched no_expand rm_words "ximage" None None None
           (PyTuple [-1; -1; 1; 1]) false _ eq_refl).
Defined.

Lemma paths_split_at_last_dot_witness :
  paths no_expand "a.b/x.image//" None = inr ("a.b/x", "image", "a.b/x.img.zarr") ∧
  ∃ rest,
    no_expand "a.b/x.image//" = "a.b/x" +:+ "." +:+ rest ∧
    PyStr.contains "." rest = false ∧
    "image" = strip_slashes rest ∧
    (∀ t, "image" ≠ t +:+ "/") ∧
    "a.b/x.img.zarr" = "a.b/x" +:+ ".img.zarr".
Proof.
  split; [reflexivity|].
  exact (paths_split_at_last_dot no_expand "a.b/x.image//" None _ _ _ eq_refl).
Defined.

Lemma trailing_slash_ignored_witness :
  no_expand ("x.image" +:+ "/") = no_expand "x.image" +:+ "/" ∧
  convert_image no_expand rm_words ("x.image" +:+ "/") None None None (PyTuple [-1; -1; 1; 1])
    false obs_fs
  = convert_image no_expand rm_words "x.image" None None None (PyTuple [-1; -1; 1; 1]) false obs_fs.
Proof.
  split; [reflexivity|].
  exact (trailing_slash_ignored no_expand rm_words "x.image" None None None
           (PyTuple [-1; -1; 1; 1]) false obs_fs eq_refl).
Defined.

Lemma input_is_reference_witness :
  ∃ st,
    (None ≠ (None : option (list string)) ∨ "image" ∉ default_imtypes) ∧
    art_image obs_fs "x" "image" = Some (cube 1 3) ∧
    discover obs_fs "x" (initial_imtypes "image" None) = inr st ∧
    ∃ r A,
      resolve_coords (cube 1 3) = inr r ∧
      normalize_attrs (im_summary (cube 1 3)) = inr A ∧
      meta st = Some (mk_tm (r_coords r) (ia_shape (cube 1 3)) (r_dims r) O) ∧
      heap st !! O = Some A ∧
      "image" ∈ imtypes st ∧ "image" ∉ diftypes st.
Proof.
  generalize obs_discovered.
  destruct (discover obs_fs "x" (initial_imtypes "image" None)) as [e|st] eqn:Hd;
    intros Hk; [discriminate Hk|].
  exists st.
  assert (Hs : None ≠ (None : option (list string)) ∨ "image" ∉ default_imtypes)
    by (right; by_eval).
  assert (Ha : art_image obs_fs "x" "image" = Some (cube 1 3)) by (vm_compute; reflexivity).
  split; [exact Hs|]. split; [exact Ha|]. split; [reflexivity|].
  exact (input_is_reference obs_fs "x" "image" None st (cube 1 3) Hs Ha Hd).
Defined.

Lemma plane_reference_has_no_chan :
  match discover (rm_words "x.img.zarr" plane_fs) "x" (initial_imtypes "image" None) with
  | inr st =>
      match meta st with
      | Some m => bool_decide ("chan" ∈ t_dims m) = false
      | None => False
      end
  | inl _ => False
  end.
Proof. vm_compute. reflexivity. Qed.

Lemma no_channel_axis_raises_witness :
  ∃ st m,
    paths no_expand "x.image" None = inr ("x", "image", "x.img.zarr") ∧
    discover (rm_words "x.img.zarr" plane_fs) "x" (initial_imtypes "image" None) = inr st ∧
    meta st = Some m ∧
    ("chan" ∉ t_dims m) ∧
    convert_image no_expand rm_words "x.image" None None None (PyTuple [-1; -1; 1; 1]) false plane_fs
    = (inl ValueError, (rm_words "x.img.zarr" plane_fs, [])).
Proof.
  generalize plane_reference_has_no_chan.
  destruct (discover (rm_words "x.img.zarr" plane_fs) "x" (initial_imtypes "image" None))
    as [e|st] eqn:Hd; [intros []|].
  destruct (meta st) as [m|] eqn:Hm; [|intros []]. intros Hc.
  apply bool_decide_eq_false_1 in Hc.
  exists st, m. split; [reflexivity|]. split; [reflexivity|].
  split; [exact Hm|]. split; [exact Hc|].
  exact (no_channel_axis_raises no_expand rm_words "x.image" None None None
           (PyTuple [-1; -1; 1; 1]) false plane_fs "x" "image" "x.img.zarr" st m
           eq_refl Hd Hm Hc).
Defined.

Lemma cube_reference_dims :
  match discover (rm_words "x.img.zarr" (cube_fs 1 4)) "x" (initial_imtypes "image" None) with
  | inr st =>
      match meta st with
      | Some m => bool_decide ("chan" ∈ t_dims m) = true
      | None => False
      end
  | inl _ => False
  end.
Proof. vm_compute. reflexivity. Qed.

Lemma short_chunk_shape_raises_witness :
  ∃ st m,
    paths no_expand "x.image" None = inr ("x", "image", "x.img.zarr") ∧
    discover (rm_words "x.img.zarr" (cube_fs 1 4)) "x" (initial_imtypes "image" None) = inr st ∧
    meta st = Some m ∧
    "chan" ∈ t_dims m ∧
    (length (items (PyTuple [-1; -1; 1]%Z)) < 4)%nat ∧
    convert_image no_expand rm_words "x.image" None None None (PyTuple [-1; -1; 1]) false
      (cube_fs 1 4)
    = (inl IndexError, (rm_words "x.img.zarr" (cube_fs 1 4), [])).
Proof.
  generalize cube_reference_dims.
  destruct (discover (rm_words "x.img.zarr" (cube_fs 1 4)) "x" (initial_imtypes "image" None))
    as [e|st] eqn:Hd; [intros []|].
  destruct (meta st) as [m|] eqn:Hm; [|intros []]. intros Hc.
  apply bool_decide_eq_true_1 in Hc.
  assert (Hl : (length (items (PyTuple [-1; -1; 1]%Z)) < 4)%nat) by (simpl; lia).
  exists st, m. split; [reflexivity|]. split; [reflexivity|].
  split; [exact Hm|]. split; [exact Hc|]. split; [exact Hl|].
  exact (short_chunk_shape_raises no_expand rm_words "x.image" None None None
           (PyTuple [-1; -1; 1]) false (cube_fs 1 4) "x" "image" "x.img.zarr" st m
           eq_refl Hd Hm Hc Hl).
Defined.

Lemma cube_resolved : is_inr (resolve_coords (cube 1 3)) = true.
Proof. vm_compute. reflexivity. Qed.

Lemma dims_named_by_kind_witness :
  ∃ r,
    resolve_coords (cube 1 3) = inr r ∧
    length (r_dims r) = length (ia_shape (cube 1 3)) ∧
    ∀ i, (i < length (ia_shape (cube 1 3)))%nat →
      ∃ u, axisunits (im_summary (cube 1 3)) !! i = Some u ∧
        if String.eqb u "rad" then r_dims r !! i = Some ("d" +:+ str_nat i)
        else ∃ name, axisnames (im_summary (cube 1 3)) !! i = Some name ∧
                     r_dims r !! i = Some (norm_axis_name name).
Proof.
  generalize cube_resolved.
  destruct (resolve_coords (cube 1 3)) as [e|r] eqn:Hr; intros Hk; [discriminate Hk|].
  exists r. split; [reflexivity|].
  exact (dims_named_by_kind (cube 1 3) r Hr).
Defined.

Lemma coordinates_named_by_axes_witness :
  ∃ r,
    resolve_coords (cube 1 3) = inr r ∧
    ∀ k, is_Some (r_coords r !! k) ↔
         ∃ i name, (i < length (ia_shape (cube 1 3)))%nat ∧
                   axisnames (im_summary (cube 1 3)) !! i = Some name ∧
                   k = norm_axis_name name.
Proof.
  generalize cube_resolved.
  destruct (resolve_coords (cube 1 3)) as [e|r] eqn:Hr; intros Hk; [discriminate Hk|].
  exists r. split; [reflexivity|].
  exact (coordinates_named_by_axes (cube 1 3) r Hr).
Defined.

Lemma masked_assembled :
  is_inr (assemble (obs_env ["image"; "model"]) masked_fs 0) = true.
Proof. vm_compute. reflexivity. Qed.

Lemma validity_mask_last_wins_witness :
  ∃ xds,
    assemble (obs_env ["image"; "model"]) masked_fs 0 = inr xds ∧
    match last (List.filter (has_masks masked_fs (e_prefix (obs_env ["image"; "model"])))
                  (e_imtypes (obs_env ["image"; "model"]))) with
    | None => data_vars xds !! "mask" = None
    | Some t =>
        ∃ im pt1 pt2 mchunk o v',
          art_image masked_fs (e_prefix (obs_env ["image"; "model"])) t = Some im ∧
          list_setitem (replicate (length (e_dsize (obs_env ["image"; "model"]))) (-1))
            (e_chan_dim (obs_env ["image"; "model"])) (Z.of_nat 0) = inr pt1 ∧
          list_setitem (replicate (length (e_dsize (obs_env ["image"; "model"]))) (-1))
            (e_chan_dim (obs_env ["image"; "model"]))
            (Z.of_nat 0 + Z.of_nat (e_chan_batch (obs_env ["image"; "model"])) - 1)
            = inr pt2 ∧
          getchunk_mask im pt1 pt2 = inr mchunk ∧
          moved o (mk_var (e_dims (obs_env ["image"; "model"])) (BoolData mchunk)) v' ∧
          data_vars xds !! "mask" = Some v' ∧
          ∃ b, vdata v' = BoolData b
    end.
Proof.
  generalize masked_assembled.
  destruct (assemble (obs_env ["image"; "model"]) masked_fs 0) as [e|xds] eqn:Ha;
    intros Hk; [discriminate Hk|].
  exists xds. split; [reflexivity|].
  exact (validity_mask_last_wins _ _ _ _ Ha).
Defined.

(** the mask of the record is the mask of the model, the later of the two
    artifacts: no pixel is valid *)
Example masked_record_mask :
  last (List.filter (has_masks masked_fs "x") ["image"; "model"]) = Some "model" ∧
  match assemble (obs_env ["image"; "model"]) masked_fs 0 with
  | inr xds =>
      vdata <$> data_vars xds !! "mask"
      = Some (BoolData (mk_nd [2; 2; 1; 1]%nat [false; false; false; false]))
  | inl _ => False
  end.
Proof. vm_compute. split; reflexivity. Qed.

Lemma sumwt_needs_unit_extents_witness :
  ∃ xds,
    assemble (obs_env ["image"; "mask"; "sumwt"]) obs_fs 0 = inr xds ∧
    "sumwt" ∈ e_imtypes (obs_env ["image"; "mask"; "sumwt"]) ∧
    ∃ im pt1 pt2 imchunk n,
      art_image obs_fs (e_prefix (obs_env ["image"; "mask"; "sumwt"])) "sumwt" = Some im ∧
      list_setitem (replicate (length (e_dsize (obs_env ["image"; "mask"; "sumwt"]))) (-1))
        (e_chan_dim (obs_env ["image"; "mask"; "sumwt"])) (Z.of_nat 0) = inr pt1 ∧
      list_setitem (replicate (length (e_dsize (obs_env ["image"; "mask"; "sumwt"]))) (-1))
        (e_chan_dim (obs_env ["image"; "mask"; "sumwt"]))
        (Z.of_nat 0 + Z.of_nat (e_chan_batch (obs_env ["image"; "mask"; "sumwt"])) - 1)
        = inr pt2 ∧
      getchunk im pt1 pt2 = inr imchunk ∧
      shape imchunk !! 2%nat = Some n ∧
      size (shape imchunk) = n ∧
      ∀ a b k, shape imchunk = [a; b; n; k] → (0 < n)%nat →
               a = 1%nat ∧ b = 1%nat ∧ k = 1%nat.
Proof.
  generalize (obs_assembled ["image"; "mask"; "sumwt"] ltac:(auto)).
  destruct (assemble (obs_env ["image"; "mask"; "sumwt"]) obs_fs 0) as [e|xds] eqn:Ha;
    intros Hk; [discriminate Hk|].
  exists xds. split; [reflexivity|].
  assert (Hs : "sumwt" ∈ e_imtypes (obs_env ["image"; "mask"; "sumwt"])) by by_eval.
  split; [exact Hs|].
  exact (sumwt_needs_unit_extents _ _ _ _ Ha Hs).
Defined.

(** a batch of two channels cannot hold the sum of weights *)
Example sumwt_two_channels_raises :
  assemble
    (mk_env "x" "x.img.zarr" false default_compressor ["image"; "sumwt"] ∅
       [2; 2; 1; 3]%nat ["d0"; "d1"; "pol"; "chan"] ∅ 3 2 [-1; -1; 1; 2])
    obs_fs 0
  = inl ValueError.
Proof. vm_compute. reflexivity. Qed.

Lemma record_variables_named_by_artifacts_witness :
  ∃ xds,
    assemble (obs_env ["image"; "mask"; "sumwt"]) obs_fs 0 = inr xds ∧
    ∀ k, is_Some (data_vars xds !! k) ↔
         ∃ t, t ∈ e_imtypes (obs_env ["image"; "mask"; "sumwt"]) ∧
              (k = var_name t ∨
               (k = "mask" ∧
                has_masks obs_fs (e_prefix (obs_env ["image"; "mask"; "sumwt"])) t = true)).
Proof.
  generalize (obs_assembled ["image"; "mask"; "sumwt"] ltac:(auto)).
  destruct (assemble (obs_env ["image"; "mask"; "sumwt"]) obs_fs 0) as [e|xds] eqn:Ha;
    intros Hk; [discriminate Hk|].
  exists xds. split; [reflexivity|].
  exact (record_variables_named_by_artifacts _ _ _ _ Ha).
Defined.

Lemma cube_others_lower :
  ∀ k v, (k, v) ∈ others (cube_summary 1 3) → PyStr.lower k = k.
Proof.
  intros k v Hin. unfold cube_summary, others in Hin.
  repeat (apply elem_of_cons in Hin as [Heq|Hin];
          [injection Heq as -> _; vm_compute; reflexivity|]).
  by apply elem_of_nil in Hin.
Qed.

Lemma cube_others_dicts :
  ∀ k v, (k, v) ∈ others (cube_summary 1 3) → is_dict v = true → k ∉ attr_omits.
Proof.
  intros k v Hin Hd. unfold cube_summary, others in Hin.
  apply elem_of_cons in Hin as [Heq|Hin]; [injection Heq as -> ->; discriminate Hd|].
  apply elem_of_cons in Hin as [Heq|Hin]; [injection Heq as -> _; by_eval|].
  by apply elem_of_nil in Hin.
Qed.

Lemma cube_others_flatten :
  ∀ k v, (k, v) ∈ others (cube_summary 1 3) → is_dict v = true →
         is_inr (nested_to_record v) = true.
Proof.
  intros k v Hin Hd. unfold cube_summary, others in Hin.
  apply elem_of_cons in Hin as [Heq|Hin]; [injection Heq as -> ->; discriminate Hd|].
  apply elem_of_cons in Hin as [Heq|Hin]; [injection Heq as _ ->; vm_compute; reflexivity|].
  by apply elem_of_nil in Hin.
Qed.

Lemma omitted_summary_keys_dropped_witness :
  (∀ k v, (k, v) ∈ others (cube_summary 1 3) → PyStr.lower k = k) ∧
  (∀ k v, (k, v) ∈ others (cube_summary 1 3) → is_dict v = true → k ∉ attr_omits) ∧
  (∀ k v, (k, v) ∈ others (cube_summary 1 3) → is_dict v = true →
          is_inr (nested_to_record v) = true) ∧
  ∃ A, normalize_attrs (cube_summary 1 3) = inr A ∧
       ∀ k, k ∈ attr_omits →
            A !! k = SStr <$> last_value k (flat_map kept_pairs (messages (cube_summary 1 3))).
Proof.
  split; [exact cube_others_lower|]. split; [exact cube_others_dicts|].
  split; [exact cube_others_flatten|].
  exact (omitted_summary_keys_dropped (cube_summary 1 3) cube_others_lower
           cube_others_dicts cube_others_flatten).
Defined.

Lemma chunking_keeps_positive_slots_witness :
  (length ["d0"; "d1"; "pol"; "chan"] ≤ length [-1; -1; 1; 2]%Z)%nat ∧
  NoDup ["d0"; "d1"; "pol"; "chan"] ∧
  ∃ chunking,
    chunking_of ["d0"; "d1"; "pol"; "chan"] [-1; -1; 1; 2] = inr chunking ∧
    (∀ ii d c, ["d0"; "d1"; "pol"; "chan"] !! ii = Some d →
               [-1; -1; 1; 2] !! ii = Some c →
               chunking !! d = if 0 <? c then Some c else None) ∧
    (∀ d, d ∉ ["d0"; "d1"; "pol"; "chan"] → chunking !! d = None).
Proof.
  assert (Hl : (length ["d0"; "d1"; "pol"; "chan"] ≤ length [-1; -1; 1; 2]%Z)%nat)
    by (simpl; lia).
  assert (Hn : NoDup ["d0"; "d1"; "pol"; "chan"]) by by_eval.
  split; [exact Hl|]. split; [exact Hn|].
  exact (chunking_keeps_positive_slots _ _ Hl Hn).
Defined.

Lemma chunking_short_shape_raises_witness :
  (length [-1; -1; 1; 1]%Z < length ["d0"; "d1"; "time"; "pol"; "chan"])%nat ∧
  chunking_of ["d0"; "d1"; "time"; "pol"; "chan"] [-1; -1; 1; 1] = inl IndexError.
Proof.
  assert (Hl : (length [-1; -1; 1; 1]%Z < length ["d0"; "d1"; "time"; "pol"; "chan"])%nat)
    by (simpl; lia).
  split; [exact Hl|].
  exact (chunking_short_shape_raises _ _ Hl).
Defined.

Lemma obs_prepared :
  match discover (rm_words "x.img.zarr" obs_fs) "x" (initial_imtypes "image" None) with
  | inr st =>
      match prepare (meta st) (PyTuple [-1; -1; 1; 1]) false with
      | inr (m, chan_dim, cs, chan_batch) =>
          chan_dim = 3%nat ∧ cs = PyTuple [-1; -1; 1; 1] ∧ chan_batch = 1%nat ∧
          t_dsize m !! 3%nat = Some 3%nat
      | inl _ => False
      end
  | inl _ => False
  end.
Proof. vm_compute. repeat split; reflexivity. Qed.

Lemma one_write_per_batch_witness :
  ∃ st m r fs' tr,
    paths no_expand "x.image" None = inr ("x", "image", "x.img.zarr") ∧
    discover (rm_words "x.img.zarr" obs_fs) "x" (initial_imtypes "image" None) = inr st ∧
    prepare (meta st) (PyTuple [-1; -1; 1; 1]) false
      = inr (m, 3%nat, PyTuple [-1; -1; 1; 1], 1%nat) ∧
    t_dsize m !! 3%nat = Some 3%nat ∧
    convert_image no_expand rm_words "x.image" None None None (PyTuple [-1; -1; 1; 1]) false obs_fs
      = (inr r, (fs', tr)) ∧
    (0 < 1)%nat ∧
    length tr = ((3 + 1 - 1) / 1)%nat ∧
    map is_create tr = map (fun chan => (chan =? 0)%nat) (py_range 3 1).
Proof.
  generalize obs_prepared.
  destruct (discover (rm_words "x.img.zarr" obs_fs) "x" (initial_imtypes "image" None))
    as [e|st] eqn:Hd; [intros []|].
  destruct (prepare (meta st) (PyTuple [-1; -1; 1; 1]) false)
    as [e|[[[m chan_dim] cs] chan_batch]] eqn:Hp; [intros []|].
  intros (-> & -> & -> & Hn).
  generalize obs_converted. unfold returns_dataset.
  destruct (convert_image no_expand rm_words "x.image" None None None (PyTuple [-1; -1; 1; 1])
              false obs_fs) as [[e|r] [fs' tr]] eqn:Hc; simpl; intros Hk;
    [discriminate Hk|].
  exists st, m, r, fs', tr. split; [reflexivity|]. split; [reflexivity|].
  split; [exact Hp|]. split; [exact Hn|]. split; [reflexivity|].
  exact (one_write_per_batch no_expand rm_words "x.image" None None None (PyTuple [-1; -1; 1; 1])
           obs_fs "x" "image" "x.img.zarr" st m 3 (PyTuple [-1; -1; 1; 1]) 1 3 r fs' tr
           eq_refl Hd Hp Hn Hc).
Defined.

Lemma value_cut_at_second_colon_witness :
  PyStr.contains ":" "Date" = false ∧
  PyStr.contains (String newline "") "Date" = false ∧
  PyStr.contains ":" "2000/04/23/01" = false ∧
  PyStr.contains (String newline "") "2000/04/23/01" = false ∧
  PyStr.contains (String newline "") "44:04" = false ∧
  (PyStr.replace " " "_" (PyStr.strip (PyStr.lower "Date")) ∉ msg_omits) ∧
  parse_messages ["Date" +:+ ": " +:+ "2000/04/23/01" +:+ ":" +:+ "44:04"] ∅
  = ok (<[PyStr.replace " " "_" (PyStr.strip (PyStr.lower "Date"))
          := SStr (PyStr.strip (PyStr.lower (" " +:+ "2000/04/23/01")))]> ∅) ∧
  split_first ":" ("Date" +:+ ": " +:+ "2000/04/23/01" +:+ ":" +:+ "44:04")
  = Some ("Date", " " +:+ "2000/04/23/01" +:+ ":" +:+ "44:04") ∧
  PyStr.strip (PyStr.lower (" " +:+ "2000/04/23/01"))
  ≠ " " +:+ "2000/04/23/01" +:+ ":" +:+ "44:04".
Proof.
  assert (Hk : PyStr.replace " " "_" (PyStr.strip (PyStr.lower "Date")) ∉ msg_omits).
  { apply (bool_decide_eq_true_1 _). vm_compute. reflexivity. }
  repeat (split; [reflexivity|]). split; [exact Hk|].
  exact (value_cut_at_second_colon "Date" "2000/04/23/01" "44:04" ∅
           eq_refl eq_refl eq_refl eq_refl eq_refl Hk).
Defined.

Lemma persisting_writes_create_then_append_witness :
  ∃ r fs' tr,
    paths no_expand "x.image" None = inr ("x", "image", "x.img.zarr") ∧
    convert_image no_expand rm_words "x.image" None None None (PyTuple [-1; -1; 1; 1]) false
      obs_fs = (r, (fs', tr)) ∧
    create_then_append tr ∧
    (tr = [] → fs' = rm_words "x.img.zarr" obs_fs) ∧
    (tr ≠ [] → ∃ ds enc, fs' !! "x.img.zarr" = Some (ZarrNode ds enc)) ∧
    (∀ xds, r = inr (RDataset xds) → ∃ enc, fs' !! "x.img.zarr" = Some (ZarrNode xds enc)).
Proof.
  destruct (convert_image no_expand rm_words "x.image" None None None
              (PyTuple [-1; -1; 1; 1]) false obs_fs) as [r [fs' tr]] eqn:Hc.
  exists r, fs', tr. split; [reflexivity|]. split; [reflexivity|].
  exact (persisting_writes_create_then_append no_expand rm_words "x.image" None None None
           (PyTuple [-1; -1; 1; 1]) obs_fs "x" "image" "x.img.zarr" r fs' tr eq_refl Hc).
Defined.
